(** * squashfs-tools-ng: pseudo-file parser, stream reader and block signatures

    A shallow embedding of the parts of gensquashfs and of the io library
    that the specification talks about:

    - [fstree_from_file.c]: [read_u32], [read_str], [skip_space],
      [name_string_length], [quote_remove], the option loop of [glob_files],
      [handle_line] and [fstree_from_file_stream];
    - [mkfs.c]: [override_owner_dfs] and the place [main] calls it from;
    - [istream.c]: [istream_read];
    - [internal.h]: [MK_BLK_SIG] and [BLK_SIZE].

    C strings are lists of characters; the end of the list plays the role of
    the terminating NUL.  Unsigned machine integers are [Z] with the
    wrap-around written out. *)

From Stdlib Require Import ZArith List Bool Ascii String Lia.
From Stdlib.Strings Require Import Byte.
Import ListNotations.

Local Open Scope Z_scope.
Local Open Scope bool_scope.

(** ** Machine integers *)

Definition u32_max : Z := 0xFFFFFFFF.

Definition u32 (x : Z) : Z := x mod 2 ^ 32.
Definition u64 (x : Z) : Z := x mod 2 ^ 64.

(** ** C strings and <ctype.h> *)

Definition cstring : Type := list ascii.

(** A string literal as a C string. *)
Definition cstr (s : string) : cstring := list_ascii_of_string s.

Definition char_code (c : ascii) : Z := Z.of_N (N_of_ascii c).

(** [isdigit] and [isspace] in the C locale. *)
Definition isdigit (c : ascii) : bool :=
  (48 <=? char_code c) && (char_code c <=? 57).

Definition isspace (c : ascii) : bool :=
  (char_code c =? 32) || ((9 <=? char_code c) && (char_code c <=? 13)).

(** [*str], with the end of the list read as NUL. *)
Definition peek (str : cstring) : ascii :=
  match str with
  | c :: _ => c
  | [] => zero
  end.

(** ** internal.h: block signatures *)

Module BlockSig.

(** [#define MK_BLK_SIG(chksum, size)
      (((uint64_t)(size) << 32) | (uint64_t)(chksum))] *)
Definition MK_BLK_SIG (chksum size : Z) : Z :=
  Z.lor (u64 (Z.shiftl (u64 size) 32)) (u64 chksum).

(** [#define BLK_SIZE(sig) ((sig) >> 32)] *)
Definition BLK_SIZE (sig : Z) : Z := Z.shiftr sig 32.

End BlockSig.

(** ** fstree_from_file.c: numbers *)

(** The body of the [while (isdigit( *str))] loop of [read_u32]; [out] is the
    value accumulated so far. *)
Fixpoint read_u32_loop (str : cstring) (out base : Z) : option (cstring * Z) :=
  match str with
  | c :: str' =>
      if isdigit c then
        let x := u32 (char_code c - 48) in
        if (x >=? base) || (out >? u32 (u32_max - x) / base) then None
        else read_u32_loop str' (u32 (out * base + x)) base
      else Some (str, out)
  | [] => Some (str, out)
  end.

(** [static char *read_u32(char *str, sqfs_u32 *out, sqfs_u32 base)]:
    [None] is the NULL return, [Some (rest, out)] the pointer behind the
    digits together with the value stored through [out]. *)
Definition read_u32 (str : cstring) (base : Z) : option (cstring * Z) :=
  if isdigit (peek str) then read_u32_loop str 0 base else None.

(** The leading run of decimal digit characters and what follows it. *)
Fixpoint digit_run (str : cstring) : cstring :=
  match str with
  | c :: str' => if isdigit c then c :: digit_run str' else []
  | [] => []
  end.

Fixpoint after_digits (str : cstring) : cstring :=
  match str with
  | c :: str' => if isdigit c then after_digits str' else str
  | [] => []
  end.

Definition digit_val (c : ascii) : Z := char_code c - 48.

(** Positional value of a digit string in base [base], starting from [acc]. *)
Definition digits_value_from (base acc : Z) (run : cstring) : Z :=
  fold_left (fun v c => v * base + digit_val c) run acc.

Definition digits_value (base : Z) (run : cstring) : Z :=
  digits_value_from base 0 run.

Definition digits_below (base : Z) (run : cstring) : bool :=
  forallb (fun c => digit_val c <? base) run.


(** ** fstree_from_file.c: strings *)

Definition CH_DQUOTE : ascii := "034"%char.
Definition CH_SQUOTE : ascii := "'"%char.
Definition CH_BACKSLASH : ascii := "\"%char.
Definition CH_STAR : ascii := "*"%char.
Definition CH_HASH : ascii := "#"%char.
Definition CH_MINUS : ascii := "-"%char.

(** [strlen]. *)
Definition strlen (s : cstring) : nat := List.length s.

(** [str[i]]: reading at the end of the string gives the NUL. *)
Definition char_at (str : cstring) (i : nat) : ascii := nth i str zero.

(** [strncmp(a, b, n) == 0]. *)
Fixpoint strncmp_eq (a b : cstring) (n : nat) : bool :=
  match n with
  | O => true
  | S n' =>
      match a, b with
      | [], [] => true
      | x :: a', y :: b' => Ascii.eqb x y && strncmp_eq a' b' n'
      | _, _ => false
      end
  end.

(** [while (isspace( *str)) ++str;] *)
Fixpoint skip_spaces (str : cstring) : cstring :=
  match str with
  | c :: str' => if isspace c then skip_spaces str' else str
  | [] => []
  end.

(** [static char *skip_space(char *str)] *)
Definition skip_space (str : cstring) : option cstring :=
  if negb (isspace (peek str)) then None else Some (skip_spaces str).

(** [while ( *str != '\0' && !isspace( *str)) ++str;]: the characters
    stepped over, and the string at the place the loop stops. *)
Fixpoint span_nonspace (str : cstring) : cstring * cstring :=
  match str with
  | c :: str' =>
      if isspace c then ([], str)
      else let (word, rest) := span_nonspace str' in (c :: word, rest)
  | [] => ([], [])
  end.

(** The loop of the quoted branch of [read_str]: the characters written
    through [ptr], and [str] when the loop stops. *)
Fixpoint read_str_quoted (str : cstring) : cstring * cstring :=
  match str with
  | [] => ([], [])
  | c :: str' =>
      if Ascii.eqb c CH_DQUOTE then ([], str)
      else if Ascii.eqb c CH_BACKSLASH &&
              (Ascii.eqb (peek str') CH_DQUOTE ||
               Ascii.eqb (peek str') CH_BACKSLASH)
      then
        match str' with
        | d :: str'' =>
            let (out, rest) := read_str_quoted str'' in (d :: out, rest)
        | [] => ([], [])
        end
      else let (out, rest) := read_str_quoted str' in (c :: out, rest)
  end.

(** [static char *read_str(char *str, char **out)]: [None] is the NULL
    return; [Some (rest, out)] gives the returned pointer and the string
    [*out] points to once the terminating NUL has been written. *)
Definition read_str (str : cstring) : option (cstring * cstring) :=
  if Ascii.eqb (peek str) CH_DQUOTE then
    let (out, str1) := read_str_quoted (tl str) in
    if negb (Ascii.eqb (peek str1) CH_DQUOTE) ||
       negb (isspace (peek (tl str1)))
    then None
    else Some (skip_spaces (tl str1), out)
  else
    let (out, str1) := span_nonspace str in
    if negb (isspace (peek str1)) then None
    else Some (skip_spaces (tl str1), out).

(** [while (str[len] != '\0' && str[len] != start) ++len;], counted from
    the place [str] starts at. *)
Fixpoint span_until (stop : ascii -> bool) (str : cstring) : nat :=
  match str with
  | c :: str' => if stop c then O else S (span_until stop str')
  | [] => O
  end.

(** [static size_t name_string_length(const char *str)] *)
Definition name_string_length (str : cstring) : nat :=
  if Ascii.eqb (peek str) CH_DQUOTE || Ascii.eqb (peek str) CH_SQUOTE then
    let start := peek str in
    let len := S (span_until (Ascii.eqb start) (tl str)) in
    if Ascii.eqb (char_at str len) start then S len else len
  else span_until isspace str.

(** The copy loop of [quote_remove]. *)
Fixpoint copy_until (start : ascii) (str : cstring) : cstring :=
  match str with
  | c :: str' => if Ascii.eqb c start then [] else c :: copy_until start str'
  | [] => []
  end.

(** [static void quote_remove(char *str)]: the string the buffer holds
    afterwards. *)
Definition quote_remove (str : cstring) : cstring :=
  let start := peek str in
  if negb (Ascii.eqb start CH_SQUOTE) && negb (Ascii.eqb start CH_DQUOTE)
  then str
  else copy_until start (tl str).

(** [strndup(extra, len)] followed by [quote_remove], as [glob_files] reads
    the argument of [-name] and [-path]. *)
Definition read_name_pattern (extra : cstring) : cstring * cstring :=
  let len := name_string_length extra in
  (quote_remove (firstn len extra), skip_spaces (skipn len extra)).


(** ** Directory scan flags

    The [DIR_SCAN_*] constants are defined in a header of the io library
    that is not embedded here; the code only relies on their being flag bits
    of an [unsigned int], so they are taken as parameters. *)

Class dir_scan_flags : Type := {
  DIR_SCAN_KEEP_TIME : Z;
  DIR_SCAN_ONE_FILESYSTEM : Z;
  DIR_SCAN_NO_RECURSION : Z;
  DIR_SCAN_NO_SOCK : Z;
  DIR_SCAN_NO_SLINK : Z;
  DIR_SCAN_NO_FILE : Z;
  DIR_SCAN_NO_BLK : Z;
  DIR_SCAN_NO_DIR : Z;
  DIR_SCAN_NO_CHR : Z;
  DIR_SCAN_NO_FIFO : Z;
  DIR_SCAN_KEEP_UID : Z;
  DIR_SCAN_KEEP_GID : Z;
  DIR_SCAN_KEEP_MODE : Z;
  DIR_SCAN_MATCH_FULL_PATH : Z
}.

(** [f] is one bit of an [unsigned int]. *)
Definition single_bitb (f : Z) : bool :=
  existsb (fun k => f =? 2 ^ Z.of_nat k) (seq 0 32).

Fixpoint distinctb (l : list Z) : bool :=
  match l with
  | [] => true
  | x :: l' => negb (existsb (Z.eqb x) l') && distinctb l'
  end.

Definition all_dir_scan_flags {F : dir_scan_flags} : list Z :=
  [ DIR_SCAN_KEEP_TIME; DIR_SCAN_ONE_FILESYSTEM; DIR_SCAN_NO_RECURSION;
    DIR_SCAN_NO_SOCK; DIR_SCAN_NO_SLINK; DIR_SCAN_NO_FILE; DIR_SCAN_NO_BLK;
    DIR_SCAN_NO_DIR; DIR_SCAN_NO_CHR; DIR_SCAN_NO_FIFO; DIR_SCAN_KEEP_UID;
    DIR_SCAN_KEEP_GID; DIR_SCAN_KEEP_MODE; DIR_SCAN_MATCH_FULL_PATH ].

(** The constants are pairwise distinct single bits. *)
Definition flags_wf (F : dir_scan_flags) : Prop :=
  forallb single_bitb all_dir_scan_flags && distinctb all_dir_scan_flags = true.

(** An assignment of bits, used to run the definitions on examples. *)
Definition sample_flags : dir_scan_flags := {|
  DIR_SCAN_KEEP_TIME := 0x0001;
  DIR_SCAN_ONE_FILESYSTEM := 0x0002;
  DIR_SCAN_NO_RECURSION := 0x0004;
  DIR_SCAN_NO_SOCK := 0x0008;
  DIR_SCAN_NO_SLINK := 0x0010;
  DIR_SCAN_NO_FILE := 0x0020;
  DIR_SCAN_NO_BLK := 0x0040;
  DIR_SCAN_NO_DIR := 0x0080;
  DIR_SCAN_NO_CHR := 0x0100;
  DIR_SCAN_NO_FIFO := 0x0200;
  DIR_SCAN_KEEP_UID := 0x0400;
  DIR_SCAN_KEEP_GID := 0x0800;
  DIR_SCAN_KEEP_MODE := 0x1000;
  DIR_SCAN_MATCH_FULL_PATH := 0x2000
|}.

(** ** fstree_from_file.c: the option loop of [glob_files] *)

Record scan_flag_entry : Type := {
  sf_name : cstring;
  clear_flag : Z;
  set_flag : Z
}.

Record glob_opts : Type := {
  scan_flags : Z;
  glob_flags : Z;
  first_clear_flag : bool;
  name_pattern : option cstring
}.

(** What one round of the [while] loop finds at [extra]. *)
Inductive glob_option : Type :=
| opt_scan_flag (e : scan_flag_entry)
| opt_name (pattern : cstring)
| opt_path (pattern : cstring)
| opt_end
| opt_unknown
| opt_none.

Inductive glob_result : Type :=
| glob_parsed (st : glob_opts) (extra : option cstring)
| glob_unknown_option
| glob_no_fuel.

Section GlobOptions.
Context {F : dir_scan_flags}.

(** [static const struct { ... } glob_scan_flags[]] *)
Definition glob_scan_flags : list scan_flag_entry :=
  [ {| sf_name := cstr "-type b"; clear_flag := DIR_SCAN_NO_BLK; set_flag := 0 |};
    {| sf_name := cstr "-type c"; clear_flag := DIR_SCAN_NO_CHR; set_flag := 0 |};
    {| sf_name := cstr "-type d"; clear_flag := DIR_SCAN_NO_DIR; set_flag := 0 |};
    {| sf_name := cstr "-type p"; clear_flag := DIR_SCAN_NO_FIFO; set_flag := 0 |};
    {| sf_name := cstr "-type f"; clear_flag := DIR_SCAN_NO_FILE; set_flag := 0 |};
    {| sf_name := cstr "-type l"; clear_flag := DIR_SCAN_NO_SLINK; set_flag := 0 |};
    {| sf_name := cstr "-type s"; clear_flag := DIR_SCAN_NO_SOCK; set_flag := 0 |};
    {| sf_name := cstr "-xdev"; clear_flag := 0; set_flag := DIR_SCAN_ONE_FILESYSTEM |};
    {| sf_name := cstr "-mount"; clear_flag := 0; set_flag := DIR_SCAN_ONE_FILESYSTEM |};
    {| sf_name := cstr "-keeptime"; clear_flag := 0; set_flag := DIR_SCAN_KEEP_TIME |};
    {| sf_name := cstr "-nonrecursive"; clear_flag := 0; set_flag := DIR_SCAN_NO_RECURSION |} ].

(** [all_flags] of [glob_files]. *)
Definition all_flags : Z :=
  Z.lor (Z.lor (Z.lor (Z.lor (Z.lor (Z.lor
    DIR_SCAN_NO_BLK DIR_SCAN_NO_CHR) DIR_SCAN_NO_DIR)
    DIR_SCAN_NO_FIFO) DIR_SCAN_NO_FILE) DIR_SCAN_NO_SLINK)
    DIR_SCAN_NO_SOCK.

(** The [for (i = 0; i < count; ++i)] search: the entry found and [extra]
    moved behind it and the white space, or [None] for [i == count]. *)
Fixpoint find_scan_flag (table : list scan_flag_entry) (extra : cstring)
  : option (scan_flag_entry * cstring) :=
  match table with
  | [] => None
  | e :: table' =>
      let len := strlen (sf_name e) in
      if strncmp_eq extra (sf_name e) len && isspace (char_at extra len)
      then Some (e, skip_spaces (skipn len extra))
      else find_scan_flag table' extra
  end.

(** The body of [if (i < count) { ... }]. *)
Definition apply_scan_flag (e : scan_flag_entry) (st : glob_opts) : glob_opts :=
  let st1 :=
    if negb (clear_flag e =? 0) && first_clear_flag st then
      {| scan_flags := Z.lor (scan_flags st) all_flags;
         glob_flags := glob_flags st;
         first_clear_flag := false;
         name_pattern := name_pattern st |}
    else st in
  {| scan_flags :=
       Z.lor (Z.land (scan_flags st1) (u32 (Z.lnot (clear_flag e))))
             (set_flag e);
     glob_flags := glob_flags st1;
     first_clear_flag := first_clear_flag st1;
     name_pattern := name_pattern st1 |}.

(** The option at the front of [extra], and [extra] moved behind it. *)
Definition next_option (extra : cstring) : glob_option * cstring :=
  match find_scan_flag glob_scan_flags extra with
  | Some (e, extra') => (opt_scan_flag e, extra')
  | None =>
      if strncmp_eq extra (cstr "-name") 5 && isspace (char_at extra 5) then
        let (pattern, extra') := read_name_pattern (skip_spaces (skipn 5 extra)) in
        (opt_name pattern, extra')
      else if strncmp_eq extra (cstr "-path") 5 && isspace (char_at extra 5) then
        let (pattern, extra') := read_name_pattern (skip_spaces (skipn 5 extra)) in
        (opt_path pattern, extra')
      else if Ascii.eqb (char_at extra 0) CH_MINUS then
        if Ascii.eqb (char_at extra 1) CH_MINUS && isspace (char_at extra 2)
        then (opt_end, skip_spaces (skipn 2 extra))
        else (opt_unknown, extra)
      else (opt_none, extra)
  end.

(** [while (extra != NULL && *extra != '\0') { ... }] *)
Fixpoint glob_options_loop (fuel : nat) (extra : cstring) (st : glob_opts)
  : glob_result :=
  match extra with
  | [] => glob_parsed st (Some extra)
  | _ :: _ =>
      match fuel with
      | O => glob_no_fuel
      | S fuel' =>
          match next_option extra with
          | (opt_scan_flag e, extra') =>
              glob_options_loop fuel' extra' (apply_scan_flag e st)
          | (opt_name pattern, extra') =>
              glob_options_loop fuel' extra'
                {| scan_flags := scan_flags st;
                   glob_flags := glob_flags st;
                   first_clear_flag := first_clear_flag st;
                   name_pattern := Some pattern |}
          | (opt_path pattern, extra') =>
              glob_options_loop fuel' extra'
                {| scan_flags := scan_flags st;
                   glob_flags := Z.lor (glob_flags st) DIR_SCAN_MATCH_FULL_PATH;
                   first_clear_flag := first_clear_flag st;
                   name_pattern := Some pattern |}
          | (opt_end, extra') => glob_parsed st (Some extra')
          | (opt_unknown, _) => glob_unknown_option
          | (opt_none, extra') => glob_parsed st (Some extra')
          end
      end
  end.

(** Lines 184 to 273 of [glob_files]: the options are processed and an
    empty [extra] is turned into NULL. *)
Definition glob_options (extra : option cstring) (glob_flags0 : Z) : glob_result :=
  let st0 := {| scan_flags := 0; glob_flags := glob_flags0;
                first_clear_flag := true; name_pattern := None |} in
  let r := match extra with
           | None => glob_parsed st0 None
           | Some e => glob_options_loop (S (strlen e)) e st0
           end in
  match r with
  | glob_parsed st (Some []) => glob_parsed st None
  | _ => r
  end.

(** The options the loop meets, in order, up to the place it leaves at. *)
Fixpoint glob_option_trace (fuel : nat) (extra : cstring) : list glob_option :=
  match extra, fuel with
  | [], _ => []
  | _, O => []
  | _ :: _, S fuel' =>
      match next_option extra with
      | (opt_scan_flag e, extra') =>
          opt_scan_flag e :: glob_option_trace fuel' extra'
      | (opt_name p, extra') => opt_name p :: glob_option_trace fuel' extra'
      | (opt_path p, extra') => opt_path p :: glob_option_trace fuel' extra'
      | (o, _) => [o]
      end
  end.

End GlobOptions.


(** ** fstree_from_file.c: one line of the description *)

(** <sys/stat.h> file type bits. *)
Definition S_IFMT : Z := 0xF000.
Definition S_IFIFO : Z := 0x1000.
Definition S_IFCHR : Z := 0x2000.
Definition S_IFDIR : Z := 0x4000.
Definition S_IFBLK : Z := 0x6000.
Definition S_IFREG : Z := 0x8000.
Definition S_IFLNK : Z := 0xA000.
Definition S_IFSOCK : Z := 0xC000.

Definition S_ISDIR (mode : Z) : bool := Z.land mode S_IFMT =? S_IFDIR.

(** The function a hook points to. *)
Inductive callback_fn : Type :=
| fn_add_generic
| fn_add_hard_link
| fn_add_device
| fn_add_file
| fn_glob_files.

(** [struct callback_t] *)
Record callback_t : Type := {
  keyword : cstring;
  cb_mode : Z;
  need_extra : bool;
  is_glob : bool;
  allow_root : bool;
  callback : callback_fn
}.

(** [file_list_hooks[]] *)
Definition file_list_hooks : list callback_t :=
  [ {| keyword := cstr "dir"; cb_mode := S_IFDIR; need_extra := false;
       is_glob := false; allow_root := true; callback := fn_add_generic |};
    {| keyword := cstr "slink"; cb_mode := S_IFLNK; need_extra := true;
       is_glob := false; allow_root := false; callback := fn_add_generic |};
    {| keyword := cstr "link"; cb_mode := 0; need_extra := true;
       is_glob := false; allow_root := false; callback := fn_add_hard_link |};
    {| keyword := cstr "nod"; cb_mode := 0; need_extra := true;
       is_glob := false; allow_root := false; callback := fn_add_device |};
    {| keyword := cstr "pipe"; cb_mode := S_IFIFO; need_extra := false;
       is_glob := false; allow_root := false; callback := fn_add_generic |};
    {| keyword := cstr "sock"; cb_mode := S_IFSOCK; need_extra := false;
       is_glob := false; allow_root := false; callback := fn_add_generic |};
    {| keyword := cstr "file"; cb_mode := S_IFREG; need_extra := false;
       is_glob := false; allow_root := false; callback := fn_add_file |};
    {| keyword := cstr "glob"; cb_mode := 0; need_extra := false;
       is_glob := true; allow_root := true; callback := fn_glob_files |} ].

(** The labels [handle_line] jumps to on a malformed line. *)
Inductive parse_error : Type :=
| fail_root (cb : callback_t)
| fail_no_extra (cb : callback_t)
| fail_uid_gid
| fail_mode
| fail_kw
| fail_ent.

(** The local variables of [handle_line] when it reaches the callback. *)
Record line_fields : Type := {
  lf_cb : callback_t;
  lf_path : cstring;
  lf_mode : Z;
  lf_uid : Z;
  lf_gid : Z;
  lf_glob_flags : Z;
  lf_extra : option cstring
}.

(** [canonicalize_name] belongs to the util library, which is not embedded
    here: it rewrites a path in place and returns non-zero ([None]) for a
    path it refuses. *)
Class util_api : Type := {
  canonicalize_name : cstring -> option cstring
}.

Section HandleLineFields.
Context {F : dir_scan_flags} {U : util_api}.

(** The keyword search at the top of [handle_line]: the hook and the line
    moved behind the keyword and the white space.  [skip_space] cannot
    fail there, the character behind the keyword being white space. *)
Fixpoint find_hook (hooks : list callback_t) (line : cstring)
  : option (callback_t * cstring) :=
  match hooks with
  | [] => None
  | cb :: hooks' =>
      let len := strlen (keyword cb) in
      if strncmp_eq (keyword cb) line len && isspace (char_at line len)
      then match skip_space (skipn len line) with
           | Some line' => Some (cb, line')
           | None => None
           end
      else find_hook hooks' line
  end.

(** Lines 444 to 451: the mode field.  [None] is the jump to
    [fail_mode]. *)
Definition mode_field (cb : callback_t) (line : cstring) (glob_flags : Z)
  : option (cstring * Z * Z) :=
  if is_glob cb && Ascii.eqb (peek line) CH_STAR then
    Some (tl line, 0, Z.lor glob_flags DIR_SCAN_KEEP_MODE)
  else
    match read_u32 line 8 with
    | None => None
    | Some (line', mode) =>
        if mode >? 0xFFF then None else Some (line', mode, glob_flags)
    end.

(** Lines 456 to 463 and 468 to 475: the uid and the gid field, which
    differ in the flag they set.  [None] is the jump to [fail_uid_gid]. *)
Definition id_field (cb : callback_t) (line : cstring) (glob_flags keep : Z)
  : option (cstring * Z * Z) :=
  if is_glob cb && Ascii.eqb (peek line) CH_STAR then
    Some (tl line, 0, Z.lor glob_flags keep)
  else
    match read_u32 line 10 with
    | None => None
    | Some (line', id) => Some (line', id, glob_flags)
    end.

(** [handle_line] up to the place it fills in [sb]. *)
Definition handle_line_fields (line : cstring) : parse_error + line_fields :=
  match find_hook file_list_hooks line with
  | None => inl fail_kw
  | Some (cb, line1) =>
  match read_str line1 with
  | None => inl fail_ent
  | Some (line2, path0) =>
  match canonicalize_name path0 with
  | None => inl fail_ent
  | Some path =>
  if Ascii.eqb (peek path) zero && negb (allow_root cb) then inl (fail_root cb)
  else
  match mode_field cb line2 0 with
  | None => inl fail_mode
  | Some (line3, mode, gf1) =>
  match skip_space line3 with
  | None => inl fail_ent
  | Some line4 =>
  match id_field cb line4 gf1 DIR_SCAN_KEEP_UID with
  | None => inl fail_uid_gid
  | Some (line5, uid, gf2) =>
  match skip_space line5 with
  | None => inl fail_ent
  | Some line6 =>
  match id_field cb line6 gf2 DIR_SCAN_KEEP_GID with
  | None => inl fail_uid_gid
  | Some (line7, gid, gf3) =>
      let extra :=
        match skip_space line7 with
        | Some (c :: line8) => Some (c :: line8)
        | _ => None
        end in
      match need_extra cb, extra with
      | true, None => inl (fail_no_extra cb)
      | _, _ =>
          inr {| lf_cb := cb; lf_path := path; lf_mode := mode;
                 lf_uid := uid; lf_gid := gid; lf_glob_flags := gf3;
                 lf_extra := extra |}
      end
  end end end end end end end end.

End HandleLineFields.


(** ** fstree_from_file.c: callbacks and the line loop *)

Definition size_t (x : Z) : Z := x mod 2 ^ 64.

(** [struct stat], the fields the parser fills in. *)
Record stat : Type := {
  st_mode : Z;
  st_uid : Z;
  st_gid : Z;
  st_mtime : Z;
  st_rdev : Z
}.

(** [dir_tree_cfg_t] *)
Record dir_tree_cfg_t : Type := {
  cfg_flags : Z;
  def_mtime : Z;
  def_uid : Z;
  def_gid : Z;
  def_mode : Z;
  prefix : cstring;
  cfg_name_pattern : option cstring
}.

(** What the parser writes to [stderr]: a line that starts with the file
    name and the line number, or a line of plain text. *)
Inductive stderr_line : Type :=
| located (filename : cstring) (line_num : Z) (text : cstring)
| plain (text : cstring).

(** The result of a library call that returns NULL and sets [errno] on
    failure; [lib_fail] carries [strerror(errno)]. *)
Inductive libres (A : Type) : Type :=
| lib_ok (a : A)
| lib_fail (errno_text : cstring).
Arguments lib_ok {A} a.
Arguments lib_fail {A} errno_text.

(** A run of C code either returns or dereferences a NULL pointer. *)
Inductive outcome (A : Type) : Type :=
| Done (a : A)
| Undefined.
Arguments Done {A} a.
Arguments Undefined {A}.

(** The tree and directory functions of the other libraries the callbacks
    call; none of them is embedded here.  Functions that take the
    [fstree_t] return the tree they leave behind. *)
Class fstree_api : Type := {
  fstree_t : Type;
  tree_node_t : Type;
  dir_iterator_t : Type;
  defaults_mtime : fstree_t -> Z;
  fstree_add_generic :
    fstree_t -> cstring -> stat -> option cstring -> fstree_t * libres unit;
  fstree_add_hard_link :
    fstree_t -> cstring -> option cstring -> fstree_t * libres unit;
  fstree_get_node_by_path :
    fstree_t -> cstring -> bool -> bool -> fstree_t * libres tree_node_t;
  node_mode : tree_node_t -> Z;
  fstree_get_path : tree_node_t -> cstring;
  sscanf_c_u_u : cstring -> option (ascii * Z * Z);
  makedev : Z -> Z -> Z;
  dir_tree_iterator_create : cstring -> dir_tree_cfg_t -> option dir_iterator_t;
  fstree_from_dir : fstree_t -> dir_iterator_t -> Z * fstree_t
}.

Section Callbacks.
Context {F : dir_scan_flags} {U : util_api} {A : fstree_api}.

Definition callback_result : Type := outcome (Z * fstree_t * list stderr_line).

Definition add_generic (fs : fstree_t) (filename : cstring) (line_num : Z)
      (path : cstring) (sb : stat) (basepath : option cstring)
      (glob_flags : Z) (extra : option cstring) : callback_result :=
    match fstree_add_generic fs path sb extra with
    | (fs', lib_fail err) =>
        Done (-1, fs', [located filename line_num (path ++ cstr ": " ++ err)])
    | (fs', lib_ok _) => Done (0, fs', [])
    end.

Definition add_device (fs : fstree_t) (filename : cstring) (line_num : Z)
      (path : cstring) (sb : stat) (basepath : option cstring)
      (glob_flags : Z) (extra : option cstring) : callback_result :=
    match extra with
    | None => Undefined
    | Some e =>
        match sscanf_c_u_u e with
        | None =>
            Done (-1, fs, [located filename line_num
                             (cstr "expected '<c|b> major minor'")])
        | Some (c, maj, min) =>
            let set_type (t : Z) :=
              {| st_mode := Z.lor (st_mode sb) t; st_uid := st_uid sb;
                 st_gid := st_gid sb; st_mtime := st_mtime sb;
                 st_rdev := makedev maj min |} in
            if Ascii.eqb c "c" || Ascii.eqb c "C" then
              add_generic fs filename line_num path (set_type S_IFCHR)
                          basepath glob_flags None
            else if Ascii.eqb c "b" || Ascii.eqb c "B" then
              add_generic fs filename line_num path (set_type S_IFBLK)
                          basepath glob_flags None
            else
              Done (-1, fs, [located filename line_num
                               (cstr "unknown device type '" ++ [c] ++ cstr "'")])
        end
    end.

Definition add_file (fs : fstree_t) (filename : cstring) (line_num : Z)
      (path : cstring) (basic : stat) (basepath : option cstring)
      (glob_flags : Z) (extra : option cstring) : callback_result :=
    let extra' :=
      match extra with
      | None | Some [] => Some path
      | Some _ => extra
      end in
    add_generic fs filename line_num path basic basepath glob_flags extra'.

Definition add_hard_link (fs : fstree_t) (filename : cstring) (line_num : Z)
      (path : cstring) (basic : stat) (basepath : option cstring)
      (glob_flags : Z) (extra : option cstring) : callback_result :=
    match fstree_add_hard_link fs path extra with
    | (fs', lib_fail err) => Done (-1, fs', [located filename line_num err])
    | (fs', lib_ok _) => Done (0, fs', [])
    end.

(** Lines 275 to 317 of [glob_files]: the scan.  With a base path the
    code takes [strlen(extra)], also of a NULL [extra]. *)
Definition glob_scan (fs : fstree_t) (basepath : option cstring)
    (extra : option cstring) (cfg : dir_tree_cfg_t) : callback_result :=
  let run (dirname : cstring) : callback_result :=
    match dir_tree_iterator_create dirname cfg with
    | Some dir => let (ret, fs') := fstree_from_dir fs dir in Done (ret, fs', [])
    | None => Done (-1, fs, [])
    end in
  match basepath, extra with
  | None, None => run (cstr ".")
  | None, Some e => run e
  | Some base, Some e => run (base ++ cstr "/" ++ e)
  | Some _, None => Undefined
  end.

Definition glob_files (fs : fstree_t) (filename : cstring) (line_num : Z)
      (path : cstring) (basic : stat) (basepath : option cstring)
      (glob_flags : Z) (extra : option cstring) : callback_result :=
    match fstree_get_node_by_path fs path true false with
    | (fs1, lib_fail err) =>
        Done (-1, fs1, [located filename line_num (path ++ cstr ": " ++ err)])
    | (fs1, lib_ok root) =>
        if negb (S_ISDIR (node_mode root)) then
          Done (-1, fs1, [located filename line_num
                            (path ++ cstr " is not a directoy!")])
        else
          match canonicalize_name (fstree_get_path root) with
          | None =>
              Done (-1, fs1,
                    [located filename line_num
                       (cstr "error cannonicalizing `" ++ fstree_get_path root
                             ++ cstr "`!")])
          | Some prefix' =>
              match glob_options extra glob_flags with
              | glob_parsed {| scan_flags := sf; glob_flags := gf;
                               name_pattern := pattern |} extra' =>
                  glob_scan fs1 basepath extra'
                    {| cfg_flags := Z.lor sf gf;
                       def_mtime := st_mtime basic;
                       def_uid := st_uid basic;
                       def_gid := st_gid basic;
                       def_mode := st_mode basic;
                       prefix := prefix';
                       cfg_name_pattern := pattern |}
              | glob_unknown_option =>
                  Done (-1, fs1, [located filename line_num (cstr "unknown option.")])
              | glob_no_fuel => Undefined
              end
          end
    end.

(** The call through [cb->callback]. *)
Definition run_callback (fn : callback_fn) :=
  match fn with
  | fn_add_generic => add_generic
  | fn_add_hard_link => add_hard_link
  | fn_add_device => add_device
  | fn_add_file => add_file
  | fn_glob_files => glob_files
  end.

(** The messages behind the labels of [handle_line]. *)
Definition usage_line : stderr_line :=
  plain (cstr "expected: <type> <path> <mode> <uid> <gid> [<extra>]").

Definition report (filename : cstring) (line_num : Z) (e : parse_error)
    : list stderr_line :=
    let out_desc (msg : string) :=
      [located filename line_num (cstr msg ++ cstr "."); usage_line] in
    match e with
    | fail_root cb =>
        [located filename line_num
           (cstr "cannot use / as argument for " ++ keyword cb ++ cstr ".")]
    | fail_no_extra cb =>
        [located filename line_num
           (cstr "missing argument for " ++ keyword cb ++ cstr ".")]
    | fail_uid_gid => out_desc "uid & gid must be decimal numbers < 2^32"%string
    | fail_mode => out_desc "mode must be an octal number <= 07777"%string
    | fail_kw => out_desc "unknown entry type"%string
    | fail_ent => out_desc "error in entry description"%string
    end.

(** [static int handle_line(fstree_t *fs, const char *filename,
      size_t line_num, char *line, const char *basepath)] *)
Definition handle_line (fs : fstree_t) (filename : cstring) (line_num : Z)
    (line : cstring) (basepath : option cstring) : callback_result :=
  match handle_line_fields line with
  | inl e => Done (-1, fs, report filename line_num e)
  | inr f =>
      let sb := {| st_mode := Z.lor (lf_mode f) (cb_mode (lf_cb f));
                   st_uid := lf_uid f;
                   st_gid := lf_gid f;
                   st_mtime := defaults_mtime fs;
                   st_rdev := 0 |} in
      run_callback (callback (lf_cb f)) fs filename line_num (lf_path f) sb
                   basepath (lf_glob_flags f) (lf_extra f)
  end.

End Callbacks.


(** ** The input of [fstree_from_file_stream] *)

(** What the stream holds for the line reader: the text lines that are
    left, and the places at which reading the underlying file fails. *)
Inductive raw_line : Type :=
| raw_text (text : cstring)
| raw_read_error.

Record line_stream : Type := {
  stream_filename : cstring;
  pending : list raw_line
}.

Inductive get_line_result : Type :=
| got_line (line : cstring) (line_num : Z) (fp : line_stream)
| got_eof (line_num : Z) (fp : line_stream)
| got_error (line_num : Z) (fp : line_stream).

(** [istream_get_filename] of the stream. *)
Definition istream_get_filename (fp : line_stream) : cstring :=
  stream_filename fp.

(** Modelled from the spec: [istream_get_line] is declared in io/istream.h;
    its definition is missing from the embedded part of istream.c.  With [ISTREAM_LINE_LTRIM | ISTREAM_LINE_SKIP_EMPTY], "lines are
    trimmed of leading whitespace and empty lines ignored"; the line counter
    is moved over every line that is ignored, so that "errors are reported
    with filename and line number".  It returns 0 with a line, a positive
    value at the end of the input and a negative value on a read error. *)
Fixpoint istream_get_line_from (filename : cstring) (lines : list raw_line)
    (line_num : Z) : get_line_result :=
  match lines with
  | [] => got_eof line_num {| stream_filename := filename; pending := [] |}
  | raw_read_error :: rest =>
      got_error line_num {| stream_filename := filename; pending := rest |}
  | raw_text text :: rest =>
      match skip_spaces text with
      | [] => istream_get_line_from filename rest (size_t (line_num + 1))
      | line => got_line line line_num
                  {| stream_filename := filename; pending := rest |}
      end
  end.

Definition istream_get_line (fp : line_stream) (line_num : Z) : get_line_result :=
  istream_get_line_from (stream_filename fp) (pending fp) line_num.

Section FromFileStream.
Context {F : dir_scan_flags} {U : util_api} {A : fstree_api}.

(** What a run of the line loop leaves behind: the return value, the
    tree, the stream and the lines written to [stderr]. *)
Record stream_run : Type := {
  run_ret : Z;
  run_fs : fstree_t;
  run_fp : line_stream;
  run_stderr : list stderr_line
}.

(** The [for (;;)] loop of [fstree_from_file_stream]; [None] when [fuel]
    rounds were not enough. *)
Fixpoint fstree_from_file_stream_loop (fuel : nat) (fs : fstree_t)
    (fp : line_stream) (filename : cstring) (basepath : option cstring)
    (line_num : Z) (err : list stderr_line) : option (outcome stream_run) :=
  match fuel with
  | O => None
  | S fuel' =>
      match istream_get_line fp line_num with
      | got_error _ fp' =>
          Some (Done {| run_ret := -1; run_fs := fs; run_fp := fp';
                        run_stderr := err |})
      | got_eof _ fp' =>
          Some (Done {| run_ret := 0; run_fs := fs; run_fp := fp';
                        run_stderr := err |})
      | got_line line line_num' fp' =>
          if negb (Ascii.eqb (peek line) CH_HASH) then
            match handle_line fs filename line_num' line basepath with
            | Undefined => Some Undefined
            | Done (ret, fs', msgs) =>
                if negb (ret =? 0) then
                  Some (Done {| run_ret := -1; run_fs := fs'; run_fp := fp';
                                run_stderr := err ++ msgs |})
                else
                  fstree_from_file_stream_loop fuel' fs' fp' filename basepath
                    (size_t (line_num' + 1)) (err ++ msgs)
            end
          else
            fstree_from_file_stream_loop fuel' fs fp' filename basepath
              (size_t (line_num' + 1)) err
      end
  end.

(** [int fstree_from_file_stream(fstree_t *fs, istream_t *fp,
      const char *basepath)]: every round of the loop takes at least one
  line off the stream. *)
Definition fstree_from_file_stream (fs : fstree_t) (fp : line_stream)
    (basepath : option cstring) : option (outcome stream_run) :=
  fstree_from_file_stream_loop (S (List.length (pending fp))) fs fp
    (istream_get_filename fp) basepath 1 [].

End FromFileStream.

(** ** mkfs.c: owner override *)

Module Mkfs.

(** [options_t], the fields [override_owner_dfs] and [main] read. *)
Record options_t : Type := {
  force_uid : bool;
  force_gid : bool;
  force_uid_value : Z;
  force_gid_value : Z
}.

(** [tree_node_t]: the attributes of a node as the data model of the
    specification lists them, and the list that starts at [data.children]
    and runs along [next].  The list is a member of a union and is only
    looked at for a directory; [payload] stands for the other members of
    the union. *)
#[warnings="-register-all"]
Inductive tree_node : Type :=
  mk_node {
    name : cstring;
    uid : Z;
    gid : Z;
    mode : Z;
    mod_time : Z;
    xattr_idx : Z;
    inode_num : Z;
    link_count : Z;
    payload : cstring;
    children : list tree_node
  }.

(** [static void override_owner_dfs(const options_t *opt, tree_node_t *n)] *)
Fixpoint override_owner_dfs (opt : options_t) (n : tree_node) : tree_node :=
  let uid' := if force_uid opt then force_uid_value opt else uid n in
  let gid' := if force_gid opt then force_gid_value opt else gid n in
  {| name := name n;
     uid := uid';
     gid := gid';
     mode := mode n;
     mod_time := mod_time n;
     xattr_idx := xattr_idx n;
     inode_num := inode_num n;
     link_count := link_count n;
     payload := payload n;
     children :=
       if S_ISDIR (mode n) then map (override_owner_dfs opt) (children n)
       else children n |}.

Section MainOwner.
(** [fstree_post_process] belongs to the fstree library, which is not
    embedded here: it takes the root and gives the processed tree, or
    fails. *)
Variable fstree_post_process : tree_node -> option tree_node.

(** Lines 226 to 230 of [main]. *)
Definition main_override (opt : options_t) (root : tree_node) : tree_node :=
  if force_uid opt || force_gid opt then override_owner_dfs opt root
  else root.

Definition main_post_process (opt : options_t) (root : tree_node)
    : option tree_node :=
    fstree_post_process (main_override opt root).
End MainOwner.

(** The node at the end of a path of child positions; the children of a
    node that is no directory are not part of the tree. *)
Fixpoint node_at (n : tree_node) (path : list nat) : option tree_node :=
  match path with
  | [] => Some n
  | i :: path' =>
      if S_ISDIR (mode n) then
        match nth_error (children n) i with
        | Some c => node_at c path'
        | None => None
        end
      else None
  end.

End Mkfs.

(** ** istream.c: reading from a buffered stream *)

Definition s32 (x : Z) : Z := (x + 2 ^ 31) mod 2 ^ 32 - 2 ^ 31.

(** What the underlying file gives at one refill of the buffer: at least
    one byte, or a read error.  The end of the list is the end of the
    file. *)
Inductive refill : Type :=
| refill_data (b : byte) (bs : list byte)
| refill_error.

(** [istream_t]: the buffer with its fill level and read position, and the
    refills the underlying file has in store. *)
Record istream_t : Type := {
  buffer : list byte;
  buffer_used : Z;
  buffer_offset : Z;
  source : list refill
}.

(** The bytes of the buffer that have not been read yet. *)
Definition buffered (strm : istream_t) : list byte :=
  firstn (Z.to_nat (buffer_used strm - buffer_offset strm))
         (skipn (Z.to_nat (buffer_offset strm)) (buffer strm)).

(** Modelled from the spec: [istream_precache] is declared in io/istream.h,
    which is missing from the embedded sources, and the specification only
    names the input stream as a wrapper over the input file.  The model
    keeps to what [istream_read] relies on: a non-zero return for a read
    error; otherwise the bytes not read yet are moved to the front, the
    read position is 0, the buffer is topped up from the file, and a fill
    level of 0 means the end of the file. *)
Definition istream_precache (strm : istream_t) : Z * istream_t :=
  let keep := buffered strm in
  match source strm with
  | [] =>
      (0, {| buffer := keep; buffer_used := Z.of_nat (List.length keep);
             buffer_offset := 0; source := [] |})
  | refill_error :: src =>
      (-1, {| buffer := keep; buffer_used := Z.of_nat (List.length keep);
              buffer_offset := 0; source := src |})
  | refill_data b bs :: src =>
      (0, {| buffer := keep ++ b :: bs;
             buffer_used := Z.of_nat (List.length (keep ++ b :: bs));
             buffer_offset := 0; source := src |})
  end.

(** The [while (size > 0)] loop of [istream_read]: [data] holds the bytes
    copied so far.  [None] when [fuel] rounds were not enough. *)
Fixpoint istream_read_loop (fuel : nat) (strm : istream_t) (data : list byte)
    (size total : Z) : option (Z * list byte * istream_t) :=
  if size >? 0 then
    match fuel with
    | O => None
    | S fuel' =>
        let used_up := buffer_offset strm >=? buffer_used strm in
        let (ret, strm1) :=
          if used_up then istream_precache strm else (0, strm) in
        if negb (ret =? 0) then Some (-1, data, strm1)
        else if used_up && (buffer_used strm1 =? 0) then Some (total, data, strm1)
        else
          let diff0 := size_t (buffer_used strm1 - buffer_offset strm1) in
          let diff := if diff0 >? size then size else diff0 in
          let copied := firstn (Z.to_nat diff)
                          (skipn (Z.to_nat (buffer_offset strm1)) (buffer strm1)) in
          istream_read_loop fuel'
            {| buffer := buffer strm1;
               buffer_used := buffer_used strm1;
               buffer_offset := size_t (buffer_offset strm1 + diff);
               source := source strm1 |}
            (data ++ copied)
            (size - diff)
            (s32 (size_t (size_t total + diff)))
    end
  else Some (total, data, strm).

(** [sqfs_s32 istream_read(istream_t *strm, void *data, size_t size)]: the
    return value, the bytes written to [data] and the stream afterwards.
    All rounds but the first start with a refill. *)
Definition istream_read (strm : istream_t) (size : Z)
  : option (Z * list byte * istream_t) :=
  let size := if size >? 0x7FFFFFFF then 0x7FFFFFFF else size in
  istream_read_loop (S (S (List.length (source strm)))) strm [] size 0.

(** The bytes the stream delivers before its end or its first read error,
    starting with the ones in the buffer. *)
Fixpoint source_bytes (src : list refill) : list byte :=
  match src with
  | refill_data b bs :: src' => b :: bs ++ source_bytes src'
  | _ => []
  end.

Definition stream_bytes (strm : istream_t) : list byte :=
  buffered strm ++ source_bytes (source strm).

(** The underlying file runs into a read error. *)
Definition source_fails (src : list refill) : bool :=
  existsb (fun r => match r with refill_error => true | _ => false end) src.

(** A refill fits a buffer whose size is a [size_t]. *)
Definition refill_fits (r : refill) : Prop :=
  match r with
  | refill_data b bs => Z.of_nat (S (List.length bs)) < 2 ^ 64
  | refill_error => True
  end.

(** The fill level and the read position fit the buffer, and the refills
    to come fit it too. *)
Definition istream_wf (strm : istream_t) : Prop :=
  0 <= buffer_offset strm /\
  0 <= buffer_used strm <= Z.of_nat (List.length (buffer strm)) /\
  buffer_used strm < 2 ^ 64 /\
  Forall refill_fits (source strm).

(** The rounds the loop of [istream_read] needs at most. *)
Definition rounds (strm : istream_t) : nat :=
  List.length (source strm) +
  (if buffer_offset strm >=? buffer_used strm then 1 else 2).

(** What a run of the loop of [istream_read] gives, started with [size]
    bytes to go, [total] bytes counted and [data] copied: all of the bytes
    asked for when the stream has them; failure when it has not and runs
    into a read error; otherwise all the stream has. *)
Definition read_post (strm : istream_t) (data : list byte) (size total : Z)
    (r : Z * list byte * istream_t) : Prop :=
  let '(ret, data', strm') := r in
  let avail := stream_bytes strm in
  if size <=? Z.of_nat (List.length avail) then
    ret = total + size /\
    data' = data ++ firstn (Z.to_nat size) avail /\
    stream_bytes strm' = skipn (Z.to_nat size) avail
  else if source_fails (source strm) then ret = -1
  else
    ret = total + Z.of_nat (List.length avail) /\
    data' = data ++ avail /\
    stream_bytes strm' = [] /\
    source strm' = [].

(** ** How far [handle_line] has come *)

Section LineProgress.
Context {F : dir_scan_flags} {U : util_api}.

(** [handle_line] has found the hook [cb], read and canonicalized the path
    and passed the root check; [l] is the line at the mode field. *)
Definition at_mode_field (line : cstring) (cb : callback_t) (path l : cstring)
  : Prop :=
  exists line1 path0,
    find_hook file_list_hooks line = Some (cb, line1) /\
    read_str line1 = Some (l, path0) /\
    canonicalize_name path0 = Some path /\
    Ascii.eqb (peek path) zero && negb (allow_root cb) = false.

(** The mode field gave [mode] and the flags [gf]; [l] is the line at the
    uid field. *)
Definition at_uid_field (line : cstring) (cb : callback_t) (path : cstring)
    (mode gf : Z) (l : cstring) : Prop :=
  exists l2 l3,
    at_mode_field line cb path l2 /\
    mode_field cb l2 0 = Some (l3, mode, gf) /\
    skip_space l3 = Some l.

(** The uid field gave [uid] and the flags [gf]; [l] is the line at the gid
    field. *)
Definition at_gid_field (line : cstring) (cb : callback_t) (path : cstring)
    (mode uid gf : Z) (l : cstring) : Prop :=
  exists l4 l5 gf1,
    at_uid_field line cb path mode gf1 l4 /\
    id_field cb l4 gf1 DIR_SCAN_KEEP_UID = Some (l5, uid, gf) /\
    skip_space l5 = Some l.

(** [extra] as [handle_line] sets it from the line behind the gid field. *)
Definition extra_of (l : cstring) : option cstring :=
  match skip_space l with
  | Some (c :: l') => Some (c :: l')
  | _ => None
  end.

End LineProgress.

(** A field of the line: the characters up to the next white space. *)
Definition field_word (l : cstring) : cstring := fst (span_nonspace l).

(** The field is a numeral in base 8. *)
Definition is_octal_numeral (w : cstring) : bool :=
  negb (Nat.eqb (List.length w) 0) &&
  forallb (fun c => isdigit c && (digit_val c <? 8)) w.

(** A stand-in for [canonicalize_name] to run examples with: it drops the
    empty components of a path and accepts every path. *)
Fixpoint path_components (s cur : cstring) : list cstring :=
  match s with
  | [] => [cur]
  | c :: s' =>
      if Ascii.eqb c "/" then cur :: path_components s' []
      else path_components s' (cur ++ [c])
  end.

Fixpoint join_path (cs : list cstring) : cstring :=
  match cs with
  | [] => []
  | [c] => c
  | c :: cs' => c ++ "/"%char :: join_path cs'
  end.

Definition sample_util : util_api := {|
  canonicalize_name := fun p =>
    Some (join_path
            (filter (fun c => negb (Nat.eqb (List.length c) 0))
                    (path_components p [])))
|}.

(** The hooks by name. *)
Definition hook_named (kw : string) : callback_t :=
  match find (fun cb => if list_eq_dec ascii_dec (keyword cb) (cstr kw)
                        then true else false) file_list_hooks with
  | Some cb => cb
  | None => {| keyword := []; cb_mode := 0; need_extra := false;
               is_glob := false; allow_root := false;
               callback := fn_add_generic |}
  end.

(** A stand-in for the tree library to run examples with: the tree is the
    list of the paths added with their modes, a path can be added once, and
    a scan of a directory adds nothing. *)
Definition cstring_eqb (a b : cstring) : bool :=
  if list_eq_dec ascii_dec a b then true else false.

Definition sample_add (fs : list (cstring * Z)) (path : cstring) (m : Z)
  : list (cstring * Z) * libres unit :=
  if existsb (fun e => cstring_eqb (fst e) path) fs
  then (fs, lib_fail (cstr "File exists"))
  else (fs ++ [(path, m)], lib_ok tt).

Definition sample_fstree : fstree_api := {|
  fstree_t := list (cstring * Z);
  tree_node_t := cstring * Z;
  dir_iterator_t := cstring;
  defaults_mtime := fun _ => 0;
  fstree_add_generic := fun fs path sb _ => sample_add fs path (st_mode sb);
  fstree_add_hard_link := fun fs path _ => sample_add fs path 0;
  fstree_get_node_by_path := fun fs path _ _ =>
    match find (fun e => cstring_eqb (fst e) path) fs with
    | Some n => (fs, lib_ok n)
    | None => (fs, lib_fail (cstr "No such file or directory"))
    end;
  node_mode := snd;
  fstree_get_path := fst;
  sscanf_c_u_u := fun _ => None;
  makedev := fun maj min => maj * 256 + min;
  dir_tree_iterator_create := fun dirname _ => Some dirname;
  fstree_from_dir := fun fs _ => (0, fs)
|}.

(** ** Quoted fields, as the description file writes them *)

(** What stands between the double quotes of a path: a character written
    as it is, or a double quote or backslash written behind a backslash. *)
Inductive quoted_item : Type :=
| q_char (c : ascii)
| q_escaped (c : ascii).

Definition item_text (i : quoted_item) : cstring :=
  match i with
  | q_char c => [c]
  | q_escaped c => [CH_BACKSLASH; c]
  end.

Definition item_value (i : quoted_item) : ascii :=
  match i with
  | q_char c => c
  | q_escaped c => c
  end.

(** Only a double quote and a backslash are written behind a backslash; a
    plain character is no double quote, and a plain backslash stands before
    a plain character other than a backslash. *)
Fixpoint quoted_wf (items : list quoted_item) : bool :=
  match items with
  | [] => true
  | q_escaped c :: rest =>
      (Ascii.eqb c CH_DQUOTE || Ascii.eqb c CH_BACKSLASH) && quoted_wf rest
  | q_char c :: rest =>
      negb (Ascii.eqb c CH_DQUOTE) &&
      (if Ascii.eqb c CH_BACKSLASH then
         match rest with
         | q_char d :: _ => negb (Ascii.eqb d CH_BACKSLASH)
         | _ => false
         end
       else true) &&
      quoted_wf rest
  end.

(** No character of [w] is white space. *)
Definition no_space (w : cstring) : bool :=
  forallb (fun c => negb (isspace c)) w.

(** The character [q] does not occur in [w]. *)
Definition without_char (q : ascii) (w : cstring) : bool :=
  forallb (fun c => negb (Ascii.eqb c q)) w.

(** ** The options of a glob line, as the loop meets them *)

Section GlobTrace.
Context {F : dir_scan_flags}.

(** The seven flags that exclude a kind of file. *)
Definition type_flags : list Z :=
  [ DIR_SCAN_NO_BLK; DIR_SCAN_NO_CHR; DIR_SCAN_NO_DIR; DIR_SCAN_NO_FIFO;
    DIR_SCAN_NO_FILE; DIR_SCAN_NO_SLINK; DIR_SCAN_NO_SOCK ].

(** The exclusion flags the options of a trace clear, in order. *)
Fixpoint cleared_flags (trace : list glob_option) : list Z :=
  match trace with
  | opt_scan_flag e :: trace' =>
      if clear_flag e =? 0 then cleared_flags trace'
      else clear_flag e :: cleared_flags trace'
  | _ :: trace' => cleared_flags trace'
  | [] => []
  end.

(** The options of [extra], as [glob_options] runs over them. *)
Definition options_of (extra : option cstring) : list glob_option :=
  match extra with
  | Some e => glob_option_trace (S (strlen e)) e
  | None => []
  end.

End GlobTrace.

(** The entry is one of the [-type] rows of the table. *)
Definition is_type_option (e : scan_flag_entry) : bool :=
  strncmp_eq (sf_name e) (cstr "-type ") 6.

(** The bits of [acc] and of all of [l]. *)
Definition lor_list (l : list Z) : Z := fold_right Z.lor 0 l.

(** A word with no bit above the 32 of an [unsigned int]. *)
Definition low_word (a : Z) : Prop :=
  forall n, 32 <= n -> Z.testbit a n = false.

(** What the option loop keeps true of [scan_flags] once the options in
    front have cleared the flags [cl]. *)
Definition type_inv {F : dir_scan_flags} (st : glob_opts) (cl : list Z) : Prop :=
  first_clear_flag st = Nat.eqb (List.length cl) 0 /\
  Forall (fun c => In c type_flags) cl /\
  Z.land (scan_flags st) all_flags =
    (if Nat.eqb (List.length cl) 0 then 0 else Z.ldiff all_flags (lor_list cl)).

(** A small tree to run [override_owner_dfs] on: a root directory with a
    file and a directory that holds one more file. *)
Definition sample_node (nm : string) (m u g : Z) (ch : list Mkfs.tree_node)
  : Mkfs.tree_node :=
  {| Mkfs.name := cstr nm; Mkfs.uid := u; Mkfs.gid := g; Mkfs.mode := m;
     Mkfs.mod_time := 0; Mkfs.xattr_idx := 0xFFFFFFFF; Mkfs.inode_num := 0;
     Mkfs.link_count := 1; Mkfs.payload := []; Mkfs.children := ch |}.

Definition sample_tree : Mkfs.tree_node :=
  sample_node "" (Z.lor S_IFDIR 0x1ED) 0 0
    [ sample_node "a" (Z.lor S_IFREG 0x1A4) 1000 100 [];
      sample_node "d" (Z.lor S_IFDIR 0x1ED) 1000 100
        [ sample_node "b" (Z.lor S_IFREG 0x1A4) 1001 101 [] ] ].

Definition sample_options : Mkfs.options_t :=
  {| Mkfs.force_uid := true; Mkfs.force_gid := false;
     Mkfs.force_uid_value := 0; Mkfs.force_gid_value := 0 |}.

(** The number of bytes one round of the loop of [istream_read] copies,
    and the stream behind the round. *)
Definition copy_len (strm : istream_t) (size : Z) : Z :=
  let diff0 := size_t (buffer_used strm - buffer_offset strm) in
  if diff0 >? size then size else diff0.

Definition copy_advance (strm : istream_t) (diff : Z) : istream_t :=
  {| buffer := buffer strm;
     buffer_used := buffer_used strm;
     buffer_offset := size_t (buffer_offset strm + diff);
     source := source strm |}.

(** A stream to run [istream_read] on: two unread bytes in the buffer,
    three more bytes in two refills, then a read error. *)
Definition sample_stream : istream_t :=
  {| buffer := [x01; x02; x03]; buffer_used := 3; buffer_offset := 1;
     source := [refill_data x04 [x05]; refill_data x06 []; refill_error] |}.

(** ** The lines of a description, one after the other *)

Section LinesInOrder.
Context {F : dir_scan_flags} {U : util_api} {A : fstree_api}.

(** The lines [pre] are gone through in order and none of them fails:
    blank lines and comments are passed over, every other line goes to
    [handle_line], which returns 0.  The result is the tree, the line
    number and the output behind the last of them. *)
Fixpoint lines_ok (fs : fstree_t) (filename : cstring)
    (basepath : option cstring) (line_num : Z) (pre : list raw_line)
    (err : list stderr_line) : option (fstree_t * Z * list stderr_line) :=
  match pre with
  | [] => Some (fs, line_num, err)
  | raw_read_error :: _ => None
  | raw_text text :: pre' =>
      match skip_spaces text with
      | [] => lines_ok fs filename basepath (size_t (line_num + 1)) pre' err
      | line =>
          if Ascii.eqb (peek line) CH_HASH then
            lines_ok fs filename basepath (size_t (line_num + 1)) pre' err
          else
            match handle_line fs filename line_num line basepath with
            | Done (ret, fs', msgs) =>
                if ret =? 0 then
                  lines_ok fs' filename basepath (size_t (line_num + 1)) pre'
                           (err ++ msgs)
                else None
            | Undefined => None
            end
      end
  end.

End LinesInOrder.

(** A description to run the line loop on. *)
Definition sample_description : list raw_line :=
  [ raw_text (cstr "# a comment");
    raw_text (cstr "");
    raw_text (cstr "dir /a 0755 0 0");
    raw_text (cstr "   file /a/b 0644 1 1");
    raw_text (cstr "dir /c 0799 0 0");
    raw_text (cstr "dir /d 0755 0 0") ].

(** ** istream.c: skipping *)

(** The [while (size > 0)] loop of [istream_skip]; [filename] is what
    [strm->get_filename(strm)] gives.  [None] when [fuel] rounds were not
    enough. *)
Fixpoint istream_skip_loop (fuel : nat) (filename : cstring) (strm : istream_t)
    (size : Z) : option (Z * istream_t * list stderr_line) :=
  if size >? 0 then
    match fuel with
    | O => None
    | S fuel' =>
        let used_up := buffer_offset strm >=? buffer_used strm in
        let (ret, strm1) :=
          if used_up then istream_precache strm else (0, strm) in
        if negb (ret =? 0) then Some (-1, strm1, [])
        else if used_up && (buffer_used strm1 =? 0) then
          Some (-1, strm1,
                [plain (filename ++ cstr ": unexpected end-of-file")])
        else
          let diff0 := size_t (buffer_used strm1 - buffer_offset strm1) in
          let diff := if u64 diff0 >? size then size_t size else diff0 in
          istream_skip_loop fuel' filename
            {| buffer := buffer strm1;
               buffer_used := buffer_used strm1;
               buffer_offset := size_t (buffer_offset strm1 + diff);
               source := source strm1 |}
            (u64 (size - diff))
    end
  else Some (0, strm, []).

(** [int istream_skip(istream_t *strm, sqfs_u64 size)]: the return value,
    the stream afterwards and what was written to [stderr]. *)
Definition istream_skip (filename : cstring) (strm : istream_t) (size : Z)
  : option (Z * istream_t * list stderr_line) :=
  istream_skip_loop (S (S (List.length (source strm)))) filename strm size.

(** ** ostream.h and the splice of istream.c *)

Module Ostream.

(** [ostream_t]: the functions an output stream is made of, over the state
    of the stream behind them. *)
Class ostream_api : Type := {
  ostream_t : Type;
  append : ostream_t -> list byte -> Z * ostream_t;
  append_sparse : ostream_t -> Z -> Z * ostream_t;
  flush : ostream_t -> Z * ostream_t;
  get_filename : ostream_t -> cstring
}.

(** [SQFS_INLINE int ostream_append(ostream_t *strm, const void *data,
      size_t size)] *)
Definition ostream_append {OS : ostream_api} (strm : ostream_t)
    (data : list byte) : Z * ostream_t :=
  append strm data.

(** [SQFS_INLINE int ostream_flush(ostream_t *strm)] *)
Definition ostream_flush {OS : ostream_api} (strm : ostream_t) : Z * ostream_t :=
  flush strm.

(** [SQFS_INLINE const char *ostream_get_filename(ostream_t *strm)] *)
Definition ostream_get_filename {OS : ostream_api} (strm : ostream_t) : cstring :=
  get_filename strm.

End Ostream.

Section Splice.
Context {OS : Ostream.ostream_api}.

(** The [while (size > 0)] loop of [istream_splice]. *)
Fixpoint istream_splice_loop (fuel : nat) (strm : istream_t)
    (out : Ostream.ostream_t) (size total : Z)
  : option (Z * istream_t * Ostream.ostream_t) :=
  if size >? 0 then
    match fuel with
    | O => None
    | S fuel' =>
        let used_up := buffer_offset strm >=? buffer_used strm in
        let (ret, strm1) :=
          if used_up then istream_precache strm else (0, strm) in
        if negb (ret =? 0) then Some (-1, strm1, out)
        else if used_up && (buffer_used strm1 =? 0) then Some (total, strm1, out)
        else
          let diff0 := size_t (buffer_used strm1 - buffer_offset strm1) in
          let diff := if diff0 >? size then size else diff0 in
          let chunk := firstn (Z.to_nat diff)
                         (skipn (Z.to_nat (buffer_offset strm1)) (buffer strm1)) in
          let (aret, out1) := Ostream.ostream_append out chunk in
          if negb (aret =? 0) then Some (-1, strm1, out1)
          else
            istream_splice_loop fuel'
              {| buffer := buffer strm1;
                 buffer_used := buffer_used strm1;
                 buffer_offset := size_t (buffer_offset strm1 + diff);
                 source := source strm1 |}
              out1
              (u32 (size - diff))
              (s32 (size_t (size_t total + diff)))
    end
  else Some (total, strm, out).

(** [sqfs_s32 istream_splice(istream_t *in, ostream_t *out, sqfs_u32 size)]:
    the return value and the two streams afterwards. *)
Definition istream_splice (strm : istream_t) (out : Ostream.ostream_t)
    (size : Z) : option (Z * istream_t * Ostream.ostream_t) :=
  let size := if size >? 0x7FFFFFFF then 0x7FFFFFFF else size in
  istream_splice_loop (S (S (List.length (source strm)))) strm out size 0.

End Splice.

(** An output stream to run examples with: it keeps what was appended and
    does not fail. *)
Definition sample_ostream : Ostream.ostream_api := {|
  Ostream.ostream_t := list byte;
  Ostream.append := fun o d => (0, o ++ d);
  Ostream.append_sparse := fun o n => (0, o ++ repeat x00 (Z.to_nat n));
  Ostream.flush := fun o => (0, o);
  Ostream.get_filename := fun _ => cstr "out.bin"
|}.

(** What a run of the loop of [istream_skip] gives: the stream moved on by
    [size] bytes when it has them; failure without a message when it has
    not and runs into a read error; failure with the end-of-file message
    otherwise. *)
Definition skip_post (filename : cstring) (strm : istream_t) (size : Z)
    (r : Z * istream_t * list stderr_line) : Prop :=
  let '(ret, strm', msgs) := r in
  let avail := stream_bytes strm in
  if size <=? Z.of_nat (List.length avail) then
    ret = 0 /\ msgs = [] /\ istream_wf strm' /\
    stream_bytes strm' = skipn (Z.to_nat size) avail /\
    source_fails (source strm') = source_fails (source strm)
  else if source_fails (source strm) then ret = -1 /\ msgs = []
  else
    ret = -1 /\
    msgs = [plain (filename ++ cstr ": unexpected end-of-file")].

(** ** Fields and white space *)

(** All characters of [ws] are white space, and there is at least one. *)
Definition is_blank (ws : cstring) : bool :=
  negb (Nat.eqb (List.length ws) 0) && forallb isspace ws.

(** All characters of [w] are decimal digits, and there is at least one. *)
Definition is_number (w : cstring) : bool :=
  negb (Nat.eqb (List.length w) 0) && forallb isdigit w.

(** ** A line of the description, field by field *)

(** The fields of a line with the white space between them; [tail] is what
    follows the gid. *)
Definition description_line (kw ws1 path ws2 mode ws3 uid ws4 gid tail : cstring)
  : cstring :=
  kw ++ ws1 ++ path ++ ws2 ++ mode ++ ws3 ++ uid ++ ws4 ++ gid ++ tail.

(** The flag a [*] sets, or nothing. *)
Definition kept (star : bool) (flag : Z) : Z := if star then flag else 0.

(** ** The position in front of a message *)

(** The message [l] with the position [filename: line_num:] in place of
    the one it has; a line of plain text has none. *)
Definition relocate (filename : cstring) (line_num : Z) (l : stderr_line)
  : stderr_line :=
  match l with
  | located _ _ text => located filename line_num text
  | plain text => plain text
  end.

Section Relocate.
Context {A : fstree_api}.

Definition relocate_result (filename : cstring) (line_num : Z)
    (r : outcome (Z * fstree_t * list stderr_line))
  : outcome (Z * fstree_t * list stderr_line) :=
  match r with
  | Done (ret, fs, msgs) => Done (ret, fs, map (relocate filename line_num) msgs)
  | Undefined => Undefined
  end.

End Relocate.

(** ** The line loop, line by line *)

Section RunLines.
Context {F : dir_scan_flags} {U : util_api} {A : fstree_api}.

(** What the loop of [fstree_from_file_stream] comes to on the lines
    [lines], started at line number [line_num] with the output [err]. *)
Fixpoint run_lines (fs : fstree_t) (filename : cstring)
    (basepath : option cstring) (line_num : Z) (lines : list raw_line)
    (err : list stderr_line) : outcome stream_run :=
  match lines with
  | [] =>
      Done {| run_ret := 0; run_fs := fs;
              run_fp := {| stream_filename := filename; pending := [] |};
              run_stderr := err |}
  | raw_read_error :: rest =>
      Done {| run_ret := -1; run_fs := fs;
              run_fp := {| stream_filename := filename; pending := rest |};
              run_stderr := err |}
  | raw_text text :: rest =>
      match skip_spaces text with
      | [] => run_lines fs filename basepath (size_t (line_num + 1)) rest err
      | line =>
          if Ascii.eqb (peek line) CH_HASH then
            run_lines fs filename basepath (size_t (line_num + 1)) rest err
          else
            match handle_line fs filename line_num line basepath with
            | Undefined => Undefined
            | Done (ret, fs', msgs) =>
                if ret =? 0 then
                  run_lines fs' filename basepath (size_t (line_num + 1)) rest
                            (err ++ msgs)
                else
                  Done {| run_ret := -1; run_fs := fs';
                          run_fp := {| stream_filename := filename;
                                       pending := rest |};
                          run_stderr := err ++ msgs |}
            end
      end
  end.

End RunLines.

(** The line is neither blank nor a comment: it is one [handle_line] sees,
    or a place at which reading fails. *)
Definition significant (l : raw_line) : bool :=
  match l with
  | raw_read_error => true
  | raw_text text =>
      match skip_spaces text with
      | [] => false
      | c :: _ => negb (Ascii.eqb c CH_HASH)
      end
  end.

(** The text of a message, without its position. *)
Definition message_text (l : stderr_line) : cstring :=
  match l with
  | located _ _ text => text
  | plain text => text
  end.

Section SameEffect.
Context {F : dir_scan_flags} {U : util_api} {A : fstree_api}.

(** Two runs of the line loop end alike: both in undefined behaviour, or
    with the same return value, the same tree and the same messages, their
    positions apart. *)
Definition same_effect (r1 r2 : outcome stream_run) : Prop :=
  match r1, r2 with
  | Undefined, Undefined => True
  | Done a, Done b =>
      run_ret a = run_ret b /\ run_fs a = run_fs b /\
      map message_text (run_stderr a) = map message_text (run_stderr b)
  | _, _ => False
  end.

End SameEffect.

(** ** The other options of a glob line *)

(** The pattern in effect behind the options of a trace: that of the last
    [-name] or [-path]. *)
Definition pattern_after (start : option cstring) (trace : list glob_option)
  : option cstring :=
  fold_left (fun acc o =>
               match o with
               | opt_name p | opt_path p => Some p
               | _ => acc
               end) trace start.

(** A [-path] option is among the options of the trace. *)
Definition has_path (trace : list glob_option) : bool :=
  existsb (fun o => match o with opt_path _ => true | _ => false end) trace.

(** The flags the options of a trace set, in order. *)
Fixpoint set_flags_of (trace : list glob_option) : list Z :=
  match trace with
  | opt_scan_flag e :: trace' =>
      if set_flag e =? 0 then set_flags_of trace'
      else set_flag e :: set_flags_of trace'
  | _ :: trace' => set_flags_of trace'
  | [] => []
  end.

Section ScanSetFlags.
Context {F : dir_scan_flags}.

(** The three flags the table sets. *)
Definition scan_set_flags : list Z :=
  [ DIR_SCAN_ONE_FILESYSTEM; DIR_SCAN_KEEP_TIME; DIR_SCAN_NO_RECURSION ].

End ScanSetFlags.

(** ** mkfs.c: relabeling the tree *)

Module Relabel.
Import Mkfs.

(** The xattr writer, the SELinux labeling and the tree function that
    [relabel_tree_dfs] calls; none of them is embedded here.  Functions
    that take the writer return the writer they leave behind, next to the
    [int] they return.  [fstree_get_path] walks up the [parent] pointers of
    a node, which the tree of [tree_node] does not have: it is given the
    names of the ancestors, from the root down, with the node;
    [lib_fail] is its NULL return.  [sqfs_xattr_writer_end] is given the
    value of the [xattr_idx] it has a pointer to and returns the value it
    leaves there.  [selinux_relable_node] reads the node. *)
Class xattr_api : Type := {
  sqfs_xattr_writer_t : Type;
  selinux_handle_t : Type;
  xattrmap_t : Type;
  fstree_get_path : list cstring -> tree_node -> libres cstring;
  sqfs_xattr_writer_begin : sqfs_xattr_writer_t -> Z * sqfs_xattr_writer_t;
  xattr_apply_map_file :
    cstring -> xattrmap_t -> sqfs_xattr_writer_t -> Z * sqfs_xattr_writer_t;
  selinux_relable_node :
    selinux_handle_t -> sqfs_xattr_writer_t -> tree_node -> cstring ->
    Z * sqfs_xattr_writer_t;
  sqfs_xattr_writer_end :
    sqfs_xattr_writer_t -> Z -> Z * sqfs_xattr_writer_t * Z;
  sqfs_perror_text : cstring -> cstring -> Z -> cstring
}.

Section RelabelTree.
Context {X : xattr_api}.

(** What a call leaves behind: the return value, the writer, the node and
    the lines written to [stderr]. *)
Definition relabel_result : Type :=
  Z * sqfs_xattr_writer_t * tree_node * list stderr_line.

Definition with_xattr_idx (n : tree_node) (idx : Z) (ch : list tree_node)
  : tree_node :=
  {| name := name n; uid := uid n; gid := gid n; mode := mode n;
     mod_time := mod_time n; xattr_idx := idx; inode_num := inode_num n;
     link_count := link_count n; payload := payload n; children := ch |}.

(** The loop [for (n = n->data.children; n != NULL; n = n->next)] of
    [relabel_tree_dfs]; [visit] is the recursive call on a child. *)
Fixpoint relabel_children
    (visit : sqfs_xattr_writer_t -> tree_node -> relabel_result)
    (cs : list tree_node) (w : sqfs_xattr_writer_t)
  : Z * sqfs_xattr_writer_t * list tree_node * list stderr_line :=
  match cs with
  | [] => (0, w, [], [])
  | c :: cs' =>
      let '(r, w1, c', msgs1) := visit w c in
      if negb (r =? 0) then (-1, w1, c' :: cs', msgs1)
      else
        let '(r2, w2, cs'', msgs2) := relabel_children visit cs' w1 in
        (r2, w2, c' :: cs'', msgs1 ++ msgs2)
  end.

(** [static int relabel_tree_dfs(const char *filename,
      sqfs_xattr_writer_t *xwr, tree_node_t *n, void *selinux_handle,
      void *xattrmap)]; [anc] holds the names of the ancestors of [n]. *)
Fixpoint relabel_tree_dfs (filename : cstring) (xwr : sqfs_xattr_writer_t)
    (anc : list cstring) (n : tree_node)
    (selinux_handle : option selinux_handle_t) (xattrmap : option xattrmap_t)
    {struct n} : relabel_result :=
  match fstree_get_path anc n with
  | lib_fail err =>
      (-1, xwr, n,
       [plain (cstr "getting absolute node path for SELinux relabeling"
                 ++ cstr ": " ++ err)])
  | lib_ok path =>
      let (ret0, xwr1) := sqfs_xattr_writer_begin xwr in
      if negb (ret0 =? 0) then
        (-1, xwr1, n,
         [plain (sqfs_perror_text filename
                   (cstr "recording xattr key-value pairs") ret0)])
      else
        let (ret1, xwr2) :=
          match xattrmap with
          | Some map => xattr_apply_map_file path map xwr1
          | None => (ret0, xwr1)
          end in
        let (ret2, xwr3) :=
          match ret1 =? 0, selinux_handle with
          | true, Some handle => selinux_relable_node handle xwr2 n path
          | _, _ => (ret1, xwr2)
          end in
        let '(ret3, xwr4, idx) :=
          if ret2 =? 0 then sqfs_xattr_writer_end xwr3 (xattr_idx n)
          else (ret2, xwr3, xattr_idx n) in
        if negb (ret3 =? 0) then
          (-1, xwr4, with_xattr_idx n idx (children n),
           [plain (sqfs_perror_text filename
                     (cstr "flushing completed key-value pairs") ret3)])
        else if S_ISDIR (mode n) then
          let '(ret, xwr5, ch, msgs) :=
            relabel_children
              (fun w c => relabel_tree_dfs filename w (anc ++ [name n]) c
                                           selinux_handle xattrmap)
              (children n) xwr4 in
          (ret, xwr5, with_xattr_idx n idx ch, msgs)
        else (0, xwr4, with_xattr_idx n idx (children n), [])
  end.

End RelabelTree.

(** The tree with the [xattr_idx] of every node set to 0. *)
Fixpoint without_xattr (n : tree_node) : tree_node :=
  {| name := name n; uid := uid n; gid := gid n; mode := mode n;
     mod_time := mod_time n; xattr_idx := 0; inode_num := inode_num n;
     link_count := link_count n; payload := payload n;
     children := map without_xattr (children n) |}.

Section RelabelKept.
Context {X : xattr_api}.

(** What every call of [relabel_tree_dfs] keeps. *)
Definition relabel_kept (n : tree_node) (r : relabel_result) : Prop :=
  let '(ret, w, n', msgs) := r in
  without_xattr n' = without_xattr n /\
  (S_ISDIR (mode n) = false -> children n' = children n) /\
  ((ret = 0 /\ msgs = []) \/ (ret = -1 /\ exists text, msgs = [plain text])).

End RelabelKept.

End Relabel.

(** A stand-in for [sscanf(extra, "%c %u %u", ...)] and a tree library
    with it, to run device lines with.  [%u] is read as the C library of
    a 64-bit Linux system reads it: white space is skipped, a sign is
    taken, at least one digit has to follow, the number is converted as
    [strtoul] converts it (negated within [unsigned long] behind a [-],
    and [ULONG_MAX] when it does not fit) and stored in an
    [unsigned int]. *)
Definition scan_unsigned (s : cstring) : option (Z * cstring) :=
  let s1 := skip_spaces s in
  let (negative, s2) :=
    match s1 with
    | c :: r =>
        if Ascii.eqb c CH_MINUS then (true, r)
        else if Ascii.eqb c "+" then (false, r)
        else (false, s1)
    | [] => (false, s1)
    end in
  if isdigit (peek s2) then
    let v := digits_value 10 (digit_run s2) in
    let v64 := if v >? 2 ^ 64 - 1 then 2 ^ 64 - 1
               else if negative then u64 (- v) else v in
    Some (u32 v64, after_digits s2)
  else None.

(** [%c] takes the first character, whatever it is; the call gives the
    three values when all three items were read. *)
Definition sample_sscanf (e : cstring) : option (ascii * Z * Z) :=
  match e with
  | [] => None
  | c :: rest =>
      match scan_unsigned rest with
      | None => None
      | Some (maj, rest1) =>
          match scan_unsigned rest1 with
          | None => None
          | Some (min, _) => Some (c, maj, min)
          end
      end
  end.

Definition sample_devices : fstree_api := {|
  fstree_t := list (cstring * Z);
  tree_node_t := cstring * Z;
  dir_iterator_t := cstring;
  defaults_mtime := fun _ => 0;
  fstree_add_generic := fun fs path sb _ => sample_add fs path (st_mode sb);
  fstree_add_hard_link := fun fs path _ => sample_add fs path 0;
  fstree_get_node_by_path := fun fs path _ _ =>
    match find (fun e => cstring_eqb (fst e) path) fs with
    | Some n => (fs, lib_ok n)
    | None => (fs, lib_fail (cstr "No such file or directory"))
    end;
  node_mode := snd;
  fstree_get_path := fst;
  sscanf_c_u_u := sample_sscanf;
  makedev := fun maj min => maj * 256 + min;
  dir_tree_iterator_create := fun dirname _ => Some dirname;
  fstree_from_dir := fun fs _ => (0, fs)
|}.

(** ** Option strings as they are written *)

(** The argument of [-name] or [-path] as it is written: a word, or text
    between two quotes of one kind. *)
Inductive written_pattern : Type :=
| p_word (w : cstring)
| p_quoted (q : ascii) (body : cstring).

Definition pattern_text (p : written_pattern) : cstring :=
  match p with
  | p_word w => w
  | p_quoted q body => q :: body ++ [q]
  end.

Definition pattern_value (p : written_pattern) : cstring :=
  match p with
  | p_word w => w
  | p_quoted _ body => body
  end.

(** A word is not empty, holds no white space and starts with no quote; a
    quoted text is in double or single quotes and does not hold the quote
    it is in. *)
Definition pattern_wf (p : written_pattern) : bool :=
  match p with
  | p_word w =>
      negb (Nat.eqb (List.length w) 0) && no_space w &&
      negb (Ascii.eqb (peek w) CH_DQUOTE) && negb (Ascii.eqb (peek w) CH_SQUOTE)
  | p_quoted q body =>
      (Ascii.eqb q CH_DQUOTE || Ascii.eqb q CH_SQUOTE) && without_char q body
  end.

(** An option as it is written: the name of a row of the table, or
    [-name] or [-path], white space and the argument. *)
Inductive written_option : Type :=
| w_row (e : scan_flag_entry)
| w_name (ws : cstring) (p : written_pattern)
| w_path (ws : cstring) (p : written_pattern).

Definition option_text (o : written_option) : cstring :=
  match o with
  | w_row e => sf_name e
  | w_name ws p => cstr "-name" ++ ws ++ pattern_text p
  | w_path ws p => cstr "-path" ++ ws ++ pattern_text p
  end.

(** What the option stands for. *)
Definition option_meaning (o : written_option) : glob_option :=
  match o with
  | w_row e => opt_scan_flag e
  | w_name _ p => opt_name (pattern_value p)
  | w_path _ p => opt_path (pattern_value p)
  end.

(** The option string: every option with the white space behind it, and
    [tail] behind the last. *)
Fixpoint options_text (opts : list (written_option * cstring)) (tail : cstring)
  : cstring :=
  match opts with
  | [] => tail
  | (o, ws) :: opts' => option_text o ++ ws ++ options_text opts' tail
  end.

(** The end of the option string: the location, or [--], white space and
    the location. *)
Definition options_end (dashes : option cstring) (location : cstring) : cstring :=
  match dashes with
  | Some ws => cstr "--" ++ ws ++ location
  | None => location
  end.

Section WrittenOptions.
Context {F : dir_scan_flags}.

(** A row is a row of the table; the white space in front of an argument
    is not empty. *)
Definition option_wf (o : written_option) : Prop :=
  match o with
  | w_row e => In e glob_scan_flags
  | w_name ws p | w_path ws p => is_blank ws = true /\ pattern_wf p = true
  end.

(** Every option is well formed and followed by white space; the location
    does not start with white space, and starts with [-] only behind
    [--]. *)
Definition options_wf (opts : list (written_option * cstring))
    (dashes : option cstring) (location : cstring) : Prop :=
  Forall (fun ow => option_wf (fst ow) /\ is_blank (snd ow) = true) opts /\
  match dashes with
  | Some ws => is_blank ws = true
  | None => peek location <> CH_MINUS
  end /\
  isspace (peek location) = false.

End WrittenOptions.

(** ** Relabeling without a failure *)

Section RelabelPasses.
Import Mkfs Relabel.
Context {X : xattr_api}.

(** Every call [relabel_tree_dfs] makes for the node itself returns 0 (or,
    for [fstree_get_path], a path): the writer these calls leave and the
    index [sqfs_xattr_writer_end] stores.  [None] when one of them
    fails. *)
Definition own_calls (xwr : sqfs_xattr_writer_t) (anc : list cstring)
    (n : tree_node) (selinux_handle : option selinux_handle_t)
    (xattrmap : option xattrmap_t) : option (sqfs_xattr_writer_t * Z) :=
  match fstree_get_path anc n with
  | lib_fail _ => None
  | lib_ok path =>
      let (ret0, xwr1) := sqfs_xattr_writer_begin xwr in
      if negb (ret0 =? 0) then None
      else
        let (ret1, xwr2) :=
          match xattrmap with
          | Some map => xattr_apply_map_file path map xwr1
          | None => (0, xwr1)
          end in
        if negb (ret1 =? 0) then None
        else
          let (ret2, xwr3) :=
            match selinux_handle with
            | Some handle => selinux_relable_node handle xwr2 n path
            | None => (0, xwr2)
            end in
          if negb (ret2 =? 0) then None
          else
            let '(ret3, xwr4, idx) :=
              sqfs_xattr_writer_end xwr3 (xattr_idx n) in
            if negb (ret3 =? 0) then None else Some (xwr4, idx)
  end.

(** The nodes [cs] pass one after the other, each starting with the writer
    the one before left. *)
Fixpoint children_pass
    (pass : sqfs_xattr_writer_t -> tree_node ->
            option (sqfs_xattr_writer_t * tree_node))
    (cs : list tree_node) (w : sqfs_xattr_writer_t)
  : option (sqfs_xattr_writer_t * list tree_node) :=
  match cs with
  | [] => Some (w, [])
  | c :: cs' =>
      match pass w c with
      | None => None
      | Some (w1, c') =>
          match children_pass pass cs' w1 with
          | None => None
          | Some (w2, cs'') => Some (w2, c' :: cs'')
          end
      end
  end.

(** No call fails for the node or, when it is a directory, for a node
    below it, the nodes taken in the order of a depth-first walk: the
    writer and the tree this leaves. *)
Fixpoint tree_passes (xwr : sqfs_xattr_writer_t) (anc : list cstring)
    (n : tree_node) (selinux_handle : option selinux_handle_t)
    (xattrmap : option xattrmap_t) {struct n}
  : option (sqfs_xattr_writer_t * tree_node) :=
  match own_calls xwr anc n selinux_handle xattrmap with
  | None => None
  | Some (xwr4, idx) =>
      if S_ISDIR (mode n) then
        match children_pass
                (fun w c => tree_passes w (anc ++ [name n]) c
                                        selinux_handle xattrmap)
                (children n) xwr4 with
        | None => None
        | Some (w, ch) => Some (w, with_xattr_idx n idx ch)
        end
      else Some (xwr4, with_xattr_idx n idx (children n))
  end.

End RelabelPasses.

(** A writer to run [relabel_tree_dfs] with: it counts the nodes it has
    ended and gives each the count as its index; labeling fails for a
    node named [bad]. *)
Definition sample_xattr : Relabel.xattr_api := {|
  Relabel.sqfs_xattr_writer_t := Z;
  Relabel.selinux_handle_t := unit;
  Relabel.xattrmap_t := unit;
  Relabel.fstree_get_path := fun anc n =>
    lib_ok (List.concat (map (fun a => a ++ cstr "/") anc) ++ Mkfs.name n);
  Relabel.sqfs_xattr_writer_begin := fun w => (0, w);
  Relabel.xattr_apply_map_file := fun _ _ w => (0, w);
  Relabel.selinux_relable_node := fun _ w n _ =>
    (if cstring_eqb (Mkfs.name n) (cstr "bad") then -5 else 0, w);
  Relabel.sqfs_xattr_writer_end := fun w _ => (0, w + 1, w);
  Relabel.sqfs_perror_text := fun filename msg _ => filename ++ cstr ": " ++ msg
|}.

(** * Theorems *)

Section BlockSigFacts.
Import BlockSig.

Lemma MK_BLK_SIG_sum chksum size :
  0 <= chksum < 2 ^ 32 -> 0 <= size < 2 ^ 32 ->
  MK_BLK_SIG chksum size = size * 2 ^ 32 + chksum.
Proof.
  intros Hc Hs. unfold MK_BLK_SIG, u64.
  rewrite (Z.mod_small size), (Z.mod_small chksum) by lia.
  rewrite Z.shiftl_mul_pow2 by lia.
  rewrite Z.mod_small by lia.
  assert (Hland : Z.land (size * 2 ^ 32) chksum = 0).
  { apply Z.bits_inj'. intros n Hn.
    rewrite Z.land_spec, Z.bits_0.
    destruct (Z.lt_ge_cases n 32) as [Hlt | Hge].
    - rewrite Z.mul_pow2_bits_low by lia. reflexivity.
    - replace (Z.testbit chksum n) with false; [apply andb_false_r|].
      symmetry. destruct (Z.eq_dec chksum 0) as [-> | Hnz].
      + apply Z.bits_0.
      + apply Z.bits_above_log2; [lia|].
        assert (Z.log2 chksum < 32) by (apply Z.log2_lt_pow2; lia).
        lia. }
  pose proof (Z.add_lor_land (size * 2 ^ 32) chksum) as Hadd.
  rewrite Hland in Hadd. lia.
Qed.

End BlockSigFacts.

(** C2. For a 32-bit checksum and a block size below 2^32, [MK_BLK_SIG]
    puts the size in the upper and the checksum in the lower 32 bits:
    [BLK_SIZE] gives the size back, the low 32 bits are the checksum, and two
    pairs with the same signature are equal. *)
Theorem MK_BLK_SIG_layout :
  forall chksum size,
    0 <= chksum < 2 ^ 32 -> 0 <= size < 2 ^ 32 ->
    BlockSig.BLK_SIZE (BlockSig.MK_BLK_SIG chksum size) = size /\
    Z.land (BlockSig.MK_BLK_SIG chksum size) (2 ^ 32 - 1) = chksum /\
    0 <= BlockSig.MK_BLK_SIG chksum size < 2 ^ 64 /\
    (forall chksum' size',
        0 <= chksum' < 2 ^ 32 -> 0 <= size' < 2 ^ 32 ->
        BlockSig.MK_BLK_SIG chksum size = BlockSig.MK_BLK_SIG chksum' size' ->
        chksum = chksum' /\ size = size').
Proof.
  intros chksum size Hc Hs.
  rewrite (MK_BLK_SIG_sum chksum size Hc Hs).
  repeat split.
  - unfold BlockSig.BLK_SIZE. rewrite Z.shiftr_div_pow2 by lia.
    rewrite Z.div_add_l by lia. rewrite Z.div_small by lia. lia.
  - change (2 ^ 32 - 1) with (Z.ones 32). rewrite Z.land_ones by lia.
    rewrite Z.add_comm, Z.mod_add by lia. apply Z.mod_small; lia.
  - lia.
  - lia.
  - rewrite (MK_BLK_SIG_sum chksum' size') in H1 by assumption. lia.
  - rewrite (MK_BLK_SIG_sum chksum' size') in H1 by assumption. lia.
Qed.

Lemma MK_BLK_SIG_layout_witness :
  BlockSig.BLK_SIZE (BlockSig.MK_BLK_SIG 0xDEADBEEF 4096) = 4096 /\
  Z.land (BlockSig.MK_BLK_SIG 0xDEADBEEF 4096) (2 ^ 32 - 1) = 0xDEADBEEF.
Proof.
  destruct (MK_BLK_SIG_layout 0xDEADBEEF 4096) as (H1 & H2 & _).
  - lia.
  - lia.
  - split; [exact H1 | exact H2].
Defined.

(** ** Numbers: [read_u32] *)

Section ReadU32.

Lemma isdigit_digit_val c : isdigit c = true -> 0 <= digit_val c <= 9.
Proof.
  unfold isdigit, digit_val. intros H.
  apply andb_true_iff in H. destruct H as [H1 H2].
  apply Z.leb_le in H1. apply Z.leb_le in H2. lia.
Qed.

Lemma digit_run_isdigit str : Forall (fun c => isdigit c = true) (digit_run str).
Proof.
  induction str as [|c str IH]; simpl; [constructor|].
  destruct (isdigit c) eqn:E; constructor; assumption.
Qed.

Lemma digit_run_after_digits str : digit_run str ++ after_digits str = str.
Proof.
  induction str as [|c str IH]; simpl; [reflexivity|].
  destruct (isdigit c); simpl; [f_equal; exact IH | reflexivity].
Qed.

(** The value only grows while digits are added. *)
Lemma digits_value_from_mono base run :
  0 < base -> Forall (fun c => isdigit c = true) run ->
  forall acc, 0 <= acc -> acc <= digits_value_from base acc run.
Proof.
  intros Hb Hrun. unfold digits_value_from.
  induction Hrun as [|c run Hc _ IH]; intros acc Hacc; simpl; [lia|].
  pose proof (isdigit_digit_val c Hc) as Hd.
  specialize (IH (acc * base + digit_val c)).
  assert (acc <= acc * base + digit_val c) by nia.
  lia.
Qed.

Lemma digits_value_from_app base acc r1 r2 :
  digits_value_from base acc (r1 ++ r2) =
  digits_value_from base (digits_value_from base acc r1) r2.
Proof. unfold digits_value_from. apply fold_left_app. Qed.

Lemma digits_value_prefix base run n :
  0 < base -> Forall (fun c => isdigit c = true) run ->
  0 <= digits_value base (firstn n run) <= digits_value base run.
Proof.
  intros Hb Hrun. unfold digits_value.
  assert (Hpre : Forall (fun c => isdigit c = true) (firstn n run)).
  { apply Forall_forall. intros c Hc.
    rewrite Forall_forall in Hrun. apply Hrun.
    rewrite <- (firstn_skipn n run). apply in_or_app. now left. }
  assert (Hsuf : Forall (fun c => isdigit c = true) (skipn n run)).
  { apply Forall_forall. intros c Hc.
    rewrite Forall_forall in Hrun. apply Hrun.
    rewrite <- (firstn_skipn n run). apply in_or_app. now right. }
  pose proof (digits_value_from_mono base _ Hb Hpre 0 ltac:(lia)) as H0.
  split; [exact H0|].
  rewrite <- (firstn_skipn n run) at 2.
  rewrite digits_value_from_app.
  apply digits_value_from_mono; assumption.
Qed.

Lemma read_u32_loop_spec base :
  0 < base <= u32_max ->
  forall str out, 0 <= out <= u32_max ->
    read_u32_loop str out base =
    if digits_below base (digit_run str) &&
       (digits_value_from base out (digit_run str) <=? u32_max)
    then Some (after_digits str, digits_value_from base out (digit_run str))
    else None.
Proof.
  intros Hb. unfold u32_max in *.
  induction str as [|c str IH]; intros out Hout.
  - cbn [read_u32_loop digit_run after_digits digits_below forallb
           digits_value_from fold_left andb].
    destruct (Z.leb_spec out 0xFFFFFFFF); [reflexivity | lia].
  - cbn [read_u32_loop digit_run after_digits]. destruct (isdigit c) eqn:Hc.
    + pose proof (isdigit_digit_val c Hc) as Hd.
      cbv zeta. fold (digit_val c). unfold u32.
      rewrite (Z.mod_small (digit_val c)) by lia.
      rewrite (Z.mod_small (0xFFFFFFFF - digit_val c)) by lia.
      cbn [digits_below forallb].
      change (digits_value_from base out (c :: digit_run str))
        with (digits_value_from base (out * base + digit_val c) (digit_run str)).
      assert (Hdiv : out > (0xFFFFFFFF - digit_val c) / base <->
                     out * base + digit_val c > 0xFFFFFFFF).
      { pose proof (Z.div_mod (0xFFFFFFFF - digit_val c) base ltac:(lia)) as Hdm.
        pose proof (Z.mod_pos_bound (0xFFFFFFFF - digit_val c) base ltac:(lia)) as Hr.
        split; intros; nia. }
      destruct (Z.geb_spec (digit_val c) base) as [Hge | Hlt].
      * cbn [orb andb]. destruct (Z.ltb_spec (digit_val c) base); [lia | reflexivity].
      * destruct (Z.ltb_spec (digit_val c) base) as [_ | ?]; [|lia].
        cbn [orb andb]. destruct (Z.gtb_spec out ((0xFFFFFFFF - digit_val c) / base))
          as [Hgt | Hle].
        -- assert (Hov : out * base + digit_val c > 0xFFFFFFFF)
             by (apply Hdiv; lia).
           pose proof (digits_value_from_mono base (digit_run str)
                         ltac:(lia) (digit_run_isdigit str)
                         (out * base + digit_val c) ltac:(lia)) as Hm.
           destruct (Z.leb_spec
                       (digits_value_from base (out * base + digit_val c)
                          (digit_run str)) 0xFFFFFFFF); [lia|].
           rewrite andb_false_r. reflexivity.
        -- assert (Hfit : ~ out * base + digit_val c > 0xFFFFFFFF)
             by (intro; apply Hdiv in H; lia).
           rewrite Z.mod_small by nia.
           apply IH. nia.
    + cbn [digits_below forallb digits_value_from fold_left andb].
      destruct (Z.leb_spec out 0xFFFFFFFF); [reflexivity | lia].
Qed.

(** [read_u32] in closed form. *)
Lemma read_u32_run str base :
  0 < base <= u32_max ->
  read_u32 str base =
    (if negb (Nat.eqb (List.length (digit_run str)) 0) &&
        digits_below base (digit_run str) &&
        (digits_value base (digit_run str) <=? u32_max)
     then Some (after_digits str, digits_value base (digit_run str))
     else None).
Proof.
  intros Hb. unfold read_u32, digits_value.
  destruct str as [|c str]; [reflexivity|].
  simpl peek. destruct (isdigit c) eqn:Hc.
  - rewrite read_u32_loop_spec by (unfold u32_max in *; lia).
    simpl digit_run. rewrite Hc. reflexivity.
  - simpl digit_run. rewrite Hc. reflexivity.
Qed.

End ReadU32.

(** C5. [read_u32] gives the value of the leading digit run in base [base]
    and the string behind the run when the run is not empty, all its digits
    are below the base and the value, which never shrinks while digits are
    added, stays within 2^32 - 1; in every other case it returns NULL.  A
    uid or gid of 2^32 or more is refused. *)
Theorem read_u32_spec :
  forall str base,
    0 < base <= u32_max ->
    let run := digit_run str in
    read_u32 str base =
      (if negb (Nat.eqb (List.length run) 0) && digits_below base run &&
          (digits_value base run <=? u32_max)
       then Some (after_digits str, digits_value base run)
       else None) /\
    (forall n, 0 <= digits_value base (firstn n run) <= digits_value base run) /\
    (base = 10 -> 2 ^ 32 <= digits_value base run -> read_u32 str base = None).
Proof.
  intros str base Hb run.
  pose proof (read_u32_run str base Hb) as Hmain. fold run in Hmain.
  split; [exact Hmain|]. split.
  - intros n. apply digits_value_prefix; [lia | apply digit_run_isdigit].
  - intros _ Hbig. rewrite Hmain.
    destruct (Z.leb_spec (digits_value base run) u32_max) as [Hle | _].
    + unfold u32_max in Hle. lia.
    + rewrite andb_false_r. reflexivity.
Qed.

Lemma read_u32_spec_witness :
  0 < 8 <= u32_max /\
  read_u32 (cstr "0755 0 0") 8 = Some (cstr " 0 0", 493) /\
  read_u32 (cstr "4294967296 0") 10 = None.
Proof.
  split; [unfold u32_max; lia|]. split.
  - destruct (read_u32_spec (cstr "0755 0 0") 8) as [H _];
      [unfold u32_max; lia|].
    rewrite H. reflexivity.
  - destruct (read_u32_spec (cstr "4294967296 0") 10) as (_ & _ & H);
      [unfold u32_max; lia|].
    apply H; [reflexivity|]. vm_compute. discriminate.
Defined.

(** ** One line: the fields of [handle_line] *)

(** Case analysis on whatever the goal still matches on. *)
Ltac split_match :=
  repeat match goal with
         | |- context [match ?x with _ => _ end] => destruct x eqn:?
         end.

Section HandleLineFacts.
Context {F : dir_scan_flags} {U : util_api}.

Lemma digit_run_field_word l : digit_run (field_word l) = digit_run l.
Proof.
  unfold field_word. induction l as [|c l IH]; [reflexivity|].
  cbn [span_nonspace digit_run]. destruct (isspace c) eqn:Hs.
  - cbn [fst digit_run]. destruct (isdigit c) eqn:Hd; [|reflexivity].
    exfalso. unfold isspace, isdigit in *.
    apply andb_true_iff in Hd. destruct Hd as [H1 H2].
    apply Z.leb_le in H1. apply Z.leb_le in H2.
    apply orb_true_iff in Hs. destruct Hs as [Hs | Hs].
    + apply Z.eqb_eq in Hs. lia.
    + apply andb_true_iff in Hs. destruct Hs as [H3 H4].
      apply Z.leb_le in H4. lia.
  - destruct (span_nonspace l) as [w r]. cbn [fst digit_run] in *.
    destruct (isdigit c); [f_equal; exact IH | reflexivity].
Qed.

(** The mode field of a line that is no glob line with a [*]. *)
Lemma mode_field_run cb l gf :
  is_glob cb && Ascii.eqb (peek l) CH_STAR = false ->
  mode_field cb l gf =
    if negb (Nat.eqb (List.length (digit_run l)) 0) &&
       digits_below 8 (digit_run l) && (digits_value 8 (digit_run l) <=? 0xFFF)
    then Some (after_digits l, digits_value 8 (digit_run l), gf)
    else None.
Proof.
  intros Hstar. unfold mode_field. rewrite Hstar.
  rewrite read_u32_run by (unfold u32_max; lia).
  destruct (negb (Nat.eqb (List.length (digit_run l)) 0) &&
            digits_below 8 (digit_run l)); cbn [andb]; [|reflexivity].
  unfold u32_max.
  destruct (Z.leb_spec (digits_value 8 (digit_run l)) 0xFFFFFFFF);
    destruct (Z.leb_spec (digits_value 8 (digit_run l)) 0xFFF); try lia.
  - destruct (Z.gtb_spec (digits_value 8 (digit_run l)) 0xFFF); [lia | reflexivity].
  - destruct (Z.gtb_spec (digits_value 8 (digit_run l)) 0xFFF); [reflexivity | lia].
  - reflexivity.
Qed.

Lemma at_mode_field_fail line cb path l :
  at_mode_field line cb path l -> mode_field cb l 0 = None ->
  handle_line_fields line = inl fail_mode.
Proof.
  intros (line1 & path0 & Hk & Hp & Hc & Hr) Hm.
  unfold handle_line_fields. rewrite Hk, Hp, Hc, Hr, Hm. reflexivity.
Qed.

Lemma at_mode_field_pass line cb path l r :
  at_mode_field line cb path l -> mode_field cb l 0 = Some r ->
  handle_line_fields line <> inl fail_mode.
Proof.
  intros (line1 & path0 & Hk & Hp & Hc & Hr) Hm.
  unfold handle_line_fields. rewrite Hk, Hp, Hc, Hr, Hm.
  destruct r as [[l3 mode] gf1]. split_match; discriminate.
Qed.

Lemma at_mode_field_no_space line cb path l l3 mode gf :
  at_mode_field line cb path l -> mode_field cb l 0 = Some (l3, mode, gf) ->
  isspace (peek l3) = false ->
  handle_line_fields line = inl fail_ent.
Proof.
  intros (line1 & path0 & Hk & Hp & Hc & Hr) Hm Hs.
  unfold handle_line_fields. rewrite Hk, Hp, Hc, Hr, Hm.
  unfold skip_space. rewrite Hs. reflexivity.
Qed.

Lemma at_uid_field_fail line cb path mode gf l :
  at_uid_field line cb path mode gf l ->
  id_field cb l gf DIR_SCAN_KEEP_UID = None ->
  handle_line_fields line = inl fail_uid_gid.
Proof.
  intros (l2 & l3 & (line1 & path0 & Hk & Hp & Hc & Hr) & Hm & Hs) Hu.
  unfold handle_line_fields. rewrite Hk, Hp, Hc, Hr, Hm, Hs, Hu. reflexivity.
Qed.

Lemma at_gid_field_fail line cb path mode uid gf l :
  at_gid_field line cb path mode uid gf l ->
  id_field cb l gf DIR_SCAN_KEEP_GID = None ->
  handle_line_fields line = inl fail_uid_gid.
Proof.
  intros (l4 & l5 & gf1 & (l2 & l3 & (line1 & path0 & Hk & Hp & Hc & Hr)
                            & Hm & Hs) & Hu & Hs') Hg.
  unfold handle_line_fields.
  rewrite Hk, Hp, Hc, Hr, Hm, Hs, Hu, Hs', Hg. reflexivity.
Qed.

Lemma at_gid_field_done line cb path mode uid gf l l7 gid gf3 :
  at_gid_field line cb path mode uid gf l ->
  id_field cb l gf DIR_SCAN_KEEP_GID = Some (l7, gid, gf3) ->
  handle_line_fields line =
    match need_extra cb, extra_of l7 with
    | true, None => inl (fail_no_extra cb)
    | _, _ => inr {| lf_cb := cb; lf_path := path; lf_mode := mode;
                     lf_uid := uid; lf_gid := gid; lf_glob_flags := gf3;
                     lf_extra := extra_of l7 |}
    end.
Proof.
  intros (l4 & l5 & gf1 & (l2 & l3 & (line1 & path0 & Hk & Hp & Hc & Hr)
                            & Hm & Hs) & Hu & Hs') Hg.
  unfold handle_line_fields.
  rewrite Hk, Hp, Hc, Hr, Hm, Hs, Hu, Hs', Hg. reflexivity.
Qed.

(** [find_hook] gives an entry of the table. *)
Lemma find_hook_In hooks line cb l :
  find_hook hooks line = Some (cb, l) -> In cb hooks.
Proof.
  induction hooks as [|h hooks IH]; cbn [find_hook]; [discriminate|].
  destruct (strncmp_eq (keyword h) line (strlen (keyword h)) &&
            isspace (char_at line (strlen (keyword h)))).
  - destruct (skip_space _); [|discriminate].
    intros H. inversion H; subst. now left.
  - intros H. right. now apply IH.
Qed.

(** The table has one glob hook, and two hooks that take the root. *)
Lemma hook_is_glob cb :
  In cb file_list_hooks -> (is_glob cb = true <-> keyword cb = cstr "glob").
Proof.
  intros H. cbn in H.
  repeat (destruct H as [<- | H]; [split; intros E; (discriminate || reflexivity)|]).
  contradiction.
Qed.

Lemma hook_allow_root cb :
  In cb file_list_hooks ->
  (allow_root cb = true <->
   keyword cb = cstr "dir" \/ keyword cb = cstr "glob").
Proof.
  intros H. cbn in H.
  repeat (destruct H as [<- | H];
          [split; [intros E; (discriminate || (left; reflexivity)
                              || (right; reflexivity))
                  | intros [E | E]; (discriminate || reflexivity)]|]).
  contradiction.
Qed.

(** A line that starts with a keyword of the table and white space gets the
    hook of that keyword. *)
Lemma find_hook_keyword cb c rest :
  In cb file_list_hooks -> isspace c = true ->
  find_hook file_list_hooks (keyword cb ++ c :: rest) =
    Some (cb, skip_spaces (c :: rest)).
Proof.
  intros H Hc. cbn in H.
  repeat (destruct H as [<- | H];
          [cbn; unfold skip_space; cbn; rewrite Hc; cbn; reflexivity|]).
  contradiction.
Qed.

End HandleLineFacts.

(** C4 (as the code has it). For a line that stands at the mode field and
    is no glob line with a [*] there, [handle_line] jumps to [fail_mode]
    exactly when the leading digit run of the mode field is empty, holds a
    digit that is not octal, or has a value above 07777.  Otherwise the mode
    passes with the value of the run; characters of the field behind the
    run are not a mode error, the line then fails as an error in the entry
    description. *)
Theorem handle_line_mode_check :
  forall (F : dir_scan_flags) (U : util_api) line cb path l,
    at_mode_field line cb path l ->
    is_glob cb && Ascii.eqb (peek l) CH_STAR = false ->
    let run := digit_run (field_word l) in
    let valid := negb (Nat.eqb (List.length run) 0) && digits_below 8 run &&
                 (digits_value 8 run <=? 0xFFF) in
    (handle_line_fields line = inl fail_mode <-> valid = false) /\
    (valid = true ->
     mode_field cb l 0 = Some (after_digits l, digits_value 8 run, 0)) /\
    (valid = true -> isspace (peek (after_digits l)) = false ->
     handle_line_fields line = inl fail_ent).
Proof.
  intros F U line cb path l Hat Hstar run valid.
  pose proof (mode_field_run cb l 0 Hstar) as Hm.
  subst valid run. rewrite digit_run_field_word.
  destruct (negb (Nat.eqb (List.length (digit_run l)) 0) &&
            digits_below 8 (digit_run l) &&
            (digits_value 8 (digit_run l) <=? 0xFFF)) eqn:Hv.
  - repeat split.
    + intros H. exfalso. exact (at_mode_field_pass _ _ _ _ _ Hat Hm H).
    + discriminate.
    + intros _. exact Hm.
    + intros _ Hs. exact (at_mode_field_no_space _ _ _ _ _ _ _ Hat Hm Hs).
  - repeat split; try discriminate.
    intros _. exact (at_mode_field_fail _ _ _ _ Hat Hm).
Qed.

Lemma handle_line_mode_check_witness :
  @handle_line_fields sample_flags sample_util (cstr "dir /a 0758 0 0")
    = inl fail_mode /\
  @mode_field sample_flags (hook_named "file") (cstr "0644 0 0") 0
    = Some (cstr " 0 0", 420, 0).
Proof.
  split.
  - apply (handle_line_mode_check sample_flags sample_util
             (cstr "dir /a 0758 0 0") (hook_named "dir") (cstr "a")
             (cstr "0758 0 0")).
    + exists (cstr "/a 0758 0 0"), (cstr "/a"). repeat split; reflexivity.
    + reflexivity.
    + reflexivity.
  - apply (handle_line_mode_check sample_flags sample_util
             (cstr "file /a 0644 0 0") (hook_named "file") (cstr "a")
             (cstr "0644 0 0")).
    + exists (cstr "/a 0644 0 0"), (cstr "/a"). repeat split; reflexivity.
    + reflexivity.
    + reflexivity.
Defined.

(** C4 as the specification words it fails on a mode field with characters
    behind the octal digits: ["0755x"] is no octal numeral, and the line is
    refused as an error in the entry description, not as a mode error. *)
Lemma handle_line_mode_counterexample :
  @at_mode_field sample_util (cstr "dir /a 0755x 0 0")
    (hook_named "dir") (cstr "a") (cstr "0755x 0 0") /\
  is_glob (hook_named "dir") = false /\
  field_word (cstr "0755x 0 0") = cstr "0755x" /\
  is_octal_numeral (cstr "0755x") = false /\
  @handle_line_fields sample_flags sample_util (cstr "dir /a 0755x 0 0")
    = inl fail_ent /\
  @handle_line_fields sample_flags sample_util (cstr "dir /a 0755x 0 0")
    <> inl fail_mode.
Proof.
  split.
  - exists (cstr "/a 0755x 0 0"), (cstr "/a"). repeat split; reflexivity.
  - repeat split; try reflexivity. discriminate.
Qed.

(** C7. On a glob line a [*] in the mode, uid or gid field is taken: the
    value is 0, the matching [DIR_SCAN_KEEP_*] flag is set and the line
    moves on by one character.  On a line of any other keyword a [*] in
    one of the three fields makes [handle_line] fail. *)
Theorem glob_star_fields :
  forall (F : dir_scan_flags) (U : util_api) line cb path,
    (keyword cb = cstr "glob" ->
     (forall l, at_mode_field line cb path l -> peek l = CH_STAR ->
        mode_field cb l 0 = Some (tl l, 0, Z.lor 0 DIR_SCAN_KEEP_MODE) /\
        (forall l', skip_space (tl l) = Some l' ->
           at_uid_field line cb path 0 (Z.lor 0 DIR_SCAN_KEEP_MODE) l')) /\
     (forall mode gf l, at_uid_field line cb path mode gf l -> peek l = CH_STAR ->
        id_field cb l gf DIR_SCAN_KEEP_UID
          = Some (tl l, 0, Z.lor gf DIR_SCAN_KEEP_UID) /\
        (forall l', skip_space (tl l) = Some l' ->
           at_gid_field line cb path mode 0 (Z.lor gf DIR_SCAN_KEEP_UID) l')) /\
     (forall mode uid gf l, at_gid_field line cb path mode uid gf l ->
        peek l = CH_STAR ->
        id_field cb l gf DIR_SCAN_KEEP_GID
          = Some (tl l, 0, Z.lor gf DIR_SCAN_KEEP_GID) /\
        handle_line_fields line =
          inr {| lf_cb := cb; lf_path := path; lf_mode := mode; lf_uid := uid;
                 lf_gid := 0; lf_glob_flags := Z.lor gf DIR_SCAN_KEEP_GID;
                 lf_extra := extra_of (tl l) |})) /\
    (keyword cb <> cstr "glob" ->
     (forall l, at_mode_field line cb path l -> peek l = CH_STAR ->
        handle_line_fields line = inl fail_mode) /\
     (forall mode gf l, at_uid_field line cb path mode gf l -> peek l = CH_STAR ->
        handle_line_fields line = inl fail_uid_gid) /\
     (forall mode uid gf l, at_gid_field line cb path mode uid gf l ->
        peek l = CH_STAR ->
        handle_line_fields line = inl fail_uid_gid)).
Proof.
  intros F U line cb path.
  assert (Hcb_mode : forall l, at_mode_field line cb path l -> In cb file_list_hooks).
  { intros l (line1 & path0 & Hk & _). exact (find_hook_In _ _ _ _ Hk). }
  assert (Hcb_uid : forall mode gf l, at_uid_field line cb path mode gf l ->
                                      In cb file_list_hooks).
  { intros mode gf l (l2 & l3 & Hat & _). exact (Hcb_mode _ Hat). }
  assert (Hcb_gid : forall mode uid gf l, at_gid_field line cb path mode uid gf l ->
                                          In cb file_list_hooks).
  { intros mode uid gf l (l4 & l5 & gf1 & Hat & _). exact (Hcb_uid _ _ _ Hat). }
  assert (Hstar_no_digit : forall l base, peek l = CH_STAR -> read_u32 l base = None).
  { intros l base Hl. unfold read_u32. rewrite Hl. reflexivity. }
  split.
  - intros Hkw. split; [|split].
    + intros l Hat Hl.
      assert (Hg : is_glob cb = true)
        by (apply hook_is_glob; [exact (Hcb_mode _ Hat) | exact Hkw]).
      assert (Hm : mode_field cb l 0 = Some (tl l, 0, Z.lor 0 DIR_SCAN_KEEP_MODE))
        by (unfold mode_field; rewrite Hg, Hl; reflexivity).
      split; [exact Hm|].
      intros l' Hl'. exists l, (tl l). repeat split; assumption.
    + intros md gf l Hat Hl.
      assert (Hg : is_glob cb = true)
        by (apply hook_is_glob; [exact (Hcb_uid _ _ _ Hat) | exact Hkw]).
      assert (Hu : id_field cb l gf DIR_SCAN_KEEP_UID
                   = Some (tl l, 0, Z.lor gf DIR_SCAN_KEEP_UID))
        by (unfold id_field; rewrite Hg, Hl; reflexivity).
      split; [exact Hu|].
      intros l' Hl'. exists l, (tl l), gf. repeat split; assumption.
    + intros md ud gf l Hat Hl.
      pose proof (Hcb_gid _ _ _ _ Hat) as Hin.
      assert (Hg : is_glob cb = true) by (apply hook_is_glob; assumption).
      assert (Hgid : id_field cb l gf DIR_SCAN_KEEP_GID
                     = Some (tl l, 0, Z.lor gf DIR_SCAN_KEEP_GID))
        by (unfold id_field; rewrite Hg, Hl; reflexivity).
      split; [exact Hgid|].
      assert (Hne : need_extra cb = false).
      { cbn in Hin.
        repeat (destruct Hin as [<- | Hin]; [reflexivity || discriminate|]).
        contradiction. }
      rewrite (at_gid_field_done line cb path md ud gf l (tl l) 0
                 (Z.lor gf DIR_SCAN_KEEP_GID) Hat Hgid).
      rewrite Hne. reflexivity.
  - intros Hkw.
    assert (Hng : In cb file_list_hooks -> is_glob cb = false).
    { intros Hin. destruct (is_glob cb) eqn:E; [|reflexivity].
      exfalso. apply Hkw. apply hook_is_glob; assumption. }
    repeat split.
    + intros l Hat Hl. apply (at_mode_field_fail _ _ _ _ Hat).
      unfold mode_field. rewrite (Hng (Hcb_mode _ Hat)).
      cbn [andb]. rewrite (Hstar_no_digit l 8 Hl). reflexivity.
    + intros md gf l Hat Hl. apply (at_uid_field_fail _ _ _ _ _ _ Hat).
      unfold id_field. rewrite (Hng (Hcb_uid _ _ _ Hat)).
      cbn [andb]. rewrite (Hstar_no_digit l 10 Hl). reflexivity.
    + intros md ud gf l Hat Hl. apply (at_gid_field_fail _ _ _ _ _ _ _ Hat).
      unfold id_field. rewrite (Hng (Hcb_gid _ _ _ _ Hat)).
      cbn [andb]. rewrite (Hstar_no_digit l 10 Hl). reflexivity.
Qed.

Lemma glob_star_fields_witness :
  keyword (hook_named "glob") = cstr "glob" /\
  keyword (hook_named "dir") <> cstr "glob" /\
  mode_field (F := sample_flags) (hook_named "glob") (cstr "* * * ./x") 0
    = Some (cstr " * * ./x", 0, 0x1000) /\
  handle_line_fields (F := sample_flags) (U := sample_util)
    (cstr "glob /a * * * ./x")
    = inr {| lf_cb := hook_named "glob"; lf_path := cstr "a"; lf_mode := 0;
             lf_uid := 0; lf_gid := 0; lf_glob_flags := 0x1C00;
             lf_extra := Some (cstr "./x") |} /\
  handle_line_fields (F := sample_flags) (U := sample_util)
    (cstr "dir /a * 0 0") = inl fail_mode /\
  handle_line_fields (F := sample_flags) (U := sample_util)
    (cstr "dir /a 0755 * 0") = inl fail_uid_gid /\
  handle_line_fields (F := sample_flags) (U := sample_util)
    (cstr "dir /a 0755 0 *") = inl fail_uid_gid.
Proof.
  assert (Hat : forall kw rest,
             find_hook file_list_hooks (cstr kw ++ cstr " /a " ++ rest)
               = Some (hook_named kw, cstr "/a " ++ rest) ->
             allow_root (hook_named kw) = true ->
             at_mode_field (U := sample_util) (cstr kw ++ cstr " /a " ++ rest)
               (hook_named kw) (cstr "a") (skip_spaces rest)).
  { intros kw rest Hk Hr. exists (cstr "/a " ++ rest), (cstr "/a").
    split; [exact Hk|]. split; [reflexivity|]. split; [reflexivity|].
    rewrite Hr. apply andb_false_r. }
  destruct (glob_star_fields sample_flags sample_util
              (cstr "glob /a * * * ./x") (hook_named "glob") (cstr "a"))
    as [Hglob _].
  destruct (Hglob eq_refl) as (Hm & Hu & Hg).
  pose proof (Hat "glob"%string (cstr "* * * ./x") eq_refl eq_refl) as Hat1.
  destruct (Hm _ Hat1 eq_refl) as [Hm1 Hm2].
  pose proof (Hm2 (cstr "* * ./x") eq_refl) as Hat2.
  destruct (Hu _ _ _ Hat2 eq_refl) as [_ Hu2].
  pose proof (Hu2 (cstr "* ./x") eq_refl) as Hat3.
  destruct (Hg _ _ _ _ Hat3 eq_refl) as [_ Hg2].
  split; [reflexivity|]. split; [discriminate|].
  split; [exact Hm1|]. split; [exact Hg2|].
  split; [|split].
  - destruct (glob_star_fields sample_flags sample_util
                (cstr "dir /a * 0 0") (hook_named "dir") (cstr "a"))
      as [_ Hdir].
    destruct (Hdir ltac:(discriminate)) as (Hdm & _ & _).
    apply (Hdm (cstr "* 0 0")); [|reflexivity].
    exact (Hat "dir"%string (cstr "* 0 0") eq_refl eq_refl).
  - destruct (glob_star_fields sample_flags sample_util
                (cstr "dir /a 0755 * 0") (hook_named "dir") (cstr "a"))
      as [_ Hdir].
    destruct (Hdir ltac:(discriminate)) as (_ & Hdu & _).
    apply (Hdu 493 0 (cstr "* 0")); [|reflexivity].
    exists (cstr "0755 * 0"), (cstr " * 0"). repeat split.
    exact (Hat "dir"%string (cstr "0755 * 0") eq_refl eq_refl).
  - destruct (glob_star_fields sample_flags sample_util
                (cstr "dir /a 0755 0 *") (hook_named "dir") (cstr "a"))
      as [_ Hdir].
    destruct (Hdir ltac:(discriminate)) as (_ & _ & Hdg).
    apply (Hdg 493 0 0 (cstr "*")); [|reflexivity].
    exists (cstr "0 *"), (cstr " *"), 0. repeat split.
    exists (cstr "0755 0 *"), (cstr " 0 *"). repeat split.
    exact (Hat "dir"%string (cstr "0755 0 *") eq_refl eq_refl).
Defined.

(** C9. When the path of a line canonicalizes to the empty string,
    [handle_line] fails for the keywords slink, link, nod, pipe, sock and
    file with the message that / cannot be used, and the tree is the one it
    was given; for dir and glob the root check is passed.  Of the hooks only
    these two allow the root. *)
Theorem root_path_rejected :
  forall (F : dir_scan_flags) (U : util_api) (A : fstree_api)
         line cb line1 line2 path0,
    find_hook file_list_hooks line = Some (cb, line1) ->
    read_str line1 = Some (line2, path0) ->
    canonicalize_name path0 = Some [] ->
    (In (keyword cb)
        (map cstr ["slink"; "link"; "nod"; "pipe"; "sock"; "file"]%string) ->
     handle_line_fields line = inl (fail_root cb) /\
     forall fs filename line_num basepath,
       handle_line fs filename line_num line basepath =
         Done (-1, fs,
               [located filename line_num
                  (cstr "cannot use / as argument for " ++ keyword cb
                        ++ cstr ".")])) /\
    (In (keyword cb) (map cstr ["dir"; "glob"]%string) ->
     at_mode_field line cb [] line2 /\
     forall cb', handle_line_fields line <> inl (fail_root cb')) /\
    (allow_root cb = true <->
     keyword cb = cstr "dir" \/ keyword cb = cstr "glob").
Proof.
  intros F U A line cb line1 line2 path0 Hk Hp Hc.
  pose proof (find_hook_In _ _ _ _ Hk) as Hin.
  pose proof (hook_allow_root cb Hin) as Hroot.
  split; [|split; [|exact Hroot]].
  - intros Hkw.
    assert (Hno : allow_root cb = false).
    { destruct (allow_root cb); [|reflexivity].
      destruct Hroot as [Hroot _].
      destruct (Hroot eq_refl) as [E | E]; rewrite E in Hkw; cbn in Hkw;
        repeat (destruct Hkw as [Hkw | Hkw]; [discriminate|]); contradiction. }
    assert (Hf : handle_line_fields line = inl (fail_root cb)).
    { unfold handle_line_fields. rewrite Hk, Hp, Hc, Hno. reflexivity. }
    split; [exact Hf|].
    intros fs filename line_num basepath.
    unfold handle_line. rewrite Hf. reflexivity.
  - intros Hkw.
    assert (Hyes : allow_root cb = true).
    { apply Hroot. cbn in Hkw. destruct Hkw as [E | [E | []]]; auto. }
    split.
    + exists line1, path0. repeat split; try assumption.
      rewrite Hyes. reflexivity.
    + intros cb'. unfold handle_line_fields. rewrite Hk, Hp, Hc, Hyes.
      cbn [peek negb andb]. split_match; discriminate.
Qed.

Lemma root_path_rejected_witness :
  handle_line (F := sample_flags) (U := sample_util) (A := sample_fstree)
    [] (cstr "list.txt") 7 (cstr "file / 0644 0 0") None
  = Done (-1, [], [located (cstr "list.txt") 7
                     (cstr "cannot use / as argument for file.")]) /\
  at_mode_field (U := sample_util) (cstr "dir / 0755 0 0")
    (hook_named "dir") [] (cstr "0755 0 0").
Proof.
  split.
  - destruct (root_path_rejected sample_flags sample_util sample_fstree
                (cstr "file / 0644 0 0") (hook_named "file")
                (cstr "/ 0644 0 0") (cstr "0644 0 0") (cstr "/")
                eq_refl eq_refl eq_refl) as (H & _ & _).
    destruct H as [_ H].
    + cbn. tauto.
    + apply H.
  - destruct (root_path_rejected sample_flags sample_util sample_fstree
                (cstr "dir / 0755 0 0") (hook_named "dir")
                (cstr "/ 0755 0 0") (cstr "0755 0 0") (cstr "/")
                eq_refl eq_refl eq_refl) as (_ & H & _).
    destruct H as [H _].
    + cbn. tauto.
    + exact H.
Defined.

(** ** Quoted paths and names *)

Section Quoting.

Lemma read_str_quoted_items items tail :
  quoted_wf items = true ->
  read_str_quoted (flat_map item_text items ++ CH_DQUOTE :: tail) =
    (map item_value items, CH_DQUOTE :: tail).
Proof.
  induction items as [|i items IH]; intros Hwf.
  - reflexivity.
  - destruct i as [c | c]; cbn [quoted_wf] in Hwf.
    + apply andb_true_iff in Hwf. destruct Hwf as [Hwf Hrest].
      apply andb_true_iff in Hwf. destruct Hwf as [Hq Hb].
      apply negb_true_iff in Hq.
      cbn [flat_map item_text app map item_value read_str_quoted].
      rewrite Hq. specialize (IH Hrest).
      destruct (Ascii.eqb c CH_BACKSLASH) eqn:Hbs.
      * destruct items as [|[d | d] items]; try discriminate.
        apply negb_true_iff in Hb.
        cbn [quoted_wf] in Hrest.
        apply andb_true_iff in Hrest. destruct Hrest as [Hrest _].
        apply andb_true_iff in Hrest. destruct Hrest as [Hdq _].
        apply negb_true_iff in Hdq.
        cbn [flat_map item_text app peek] in *.
        rewrite Hdq, Hb. cbn [orb andb].
        rewrite IH. reflexivity.
      * cbn [andb]. rewrite IH. reflexivity.
    + apply andb_true_iff in Hwf. destruct Hwf as [Hc Hrest].
      cbn [flat_map item_text app map item_value read_str_quoted peek].
      change (Ascii.eqb CH_BACKSLASH CH_DQUOTE) with false.
      change (Ascii.eqb CH_BACKSLASH CH_BACKSLASH) with true.
      rewrite Hc. cbn [andb]. rewrite (IH Hrest). reflexivity.
Qed.

Lemma span_nonspace_word w sp rest :
  no_space w = true -> isspace sp = true ->
  span_nonspace (w ++ sp :: rest) = (w, sp :: rest).
Proof.
  intros Hw Hsp. induction w as [|c w IH]; cbn [app span_nonspace].
  - rewrite Hsp. reflexivity.
  - cbn [no_space forallb] in Hw. apply andb_true_iff in Hw.
    destruct Hw as [Hc Hw]. apply negb_true_iff in Hc. rewrite Hc.
    rewrite (IH Hw). reflexivity.
Qed.

Lemma span_until_body q body tail :
  without_char q body = true ->
  span_until (Ascii.eqb q) (body ++ q :: tail) = List.length body.
Proof.
  intros Hb. induction body as [|c body IH]; cbn [app span_until List.length].
  - rewrite Ascii.eqb_refl. reflexivity.
  - cbn [without_char forallb] in Hb. apply andb_true_iff in Hb.
    destruct Hb as [Hc Hb]. apply negb_true_iff in Hc.
    rewrite Ascii.eqb_sym, Hc. f_equal. exact (IH Hb).
Qed.

Lemma span_until_open q body :
  without_char q body = true ->
  span_until (Ascii.eqb q) body = List.length body.
Proof.
  intros Hb. induction body as [|c body IH]; cbn [span_until List.length].
  - reflexivity.
  - cbn [without_char forallb] in Hb. apply andb_true_iff in Hb.
    destruct Hb as [Hc Hb]. apply negb_true_iff in Hc.
    rewrite Ascii.eqb_sym, Hc. f_equal. exact (IH Hb).
Qed.

Lemma copy_until_body q body tail :
  without_char q body = true ->
  copy_until q (body ++ q :: tail) = body.
Proof.
  intros Hb. induction body as [|c body IH]; cbn [app copy_until].
  - rewrite Ascii.eqb_refl. reflexivity.
  - cbn [without_char forallb] in Hb. apply andb_true_iff in Hb.
    destruct Hb as [Hc Hb]. apply negb_true_iff in Hc.
    rewrite Hc. f_equal. exact (IH Hb).
Qed.

Lemma copy_until_open q body :
  without_char q body = true -> copy_until q body = body.
Proof.
  intros Hb. induction body as [|c body IH]; cbn [copy_until]; [reflexivity|].
  cbn [without_char forallb] in Hb. apply andb_true_iff in Hb.
  destruct Hb as [Hc Hb]. apply negb_true_iff in Hc.
  rewrite Hc. f_equal. exact (IH Hb).
Qed.

Lemma is_quote_cases q :
  q = CH_DQUOTE \/ q = CH_SQUOTE ->
  Ascii.eqb q CH_DQUOTE || Ascii.eqb q CH_SQUOTE = true /\
  negb (Ascii.eqb q CH_SQUOTE) && negb (Ascii.eqb q CH_DQUOTE) = false.
Proof. intros [-> | ->]; split; reflexivity. Qed.

End Quoting.

Section QuotingNames.

Lemma firstn_over (A : Type) (l r : list A) n :
  firstn (List.length l + n) (l ++ r) = l ++ firstn n r.
Proof. induction l as [|x l IH]; cbn; [reflexivity | f_equal; exact IH]. Qed.

Lemma skipn_over (A : Type) (l r : list A) n :
  skipn (List.length l + n) (l ++ r) = skipn n r.
Proof. induction l as [|x l IH]; cbn; [reflexivity | exact IH]. Qed.

Lemma span_until_space w sp rest :
  no_space w = true -> isspace sp = true ->
  span_until isspace (w ++ sp :: rest) = List.length w.
Proof.
  intros Hw Hsp. induction w as [|c w IH]; cbn [app span_until List.length].
  - rewrite Hsp. reflexivity.
  - cbn [no_space forallb] in Hw. apply andb_true_iff in Hw.
    destruct Hw as [Hc Hw]. apply negb_true_iff in Hc. rewrite Hc.
    f_equal. exact (IH Hw).
Qed.

Lemma name_string_length_quoted q body rest :
  q = CH_DQUOTE \/ q = CH_SQUOTE -> without_char q body = true ->
  name_string_length (q :: body ++ q :: rest) = S (S (List.length body)).
Proof.
  intros Hq Hb. unfold name_string_length. cbn [peek tl].
  rewrite (proj1 (is_quote_cases q Hq)).
  rewrite span_until_body by exact Hb.
  unfold char_at. cbn [nth]. rewrite nth_middle, Ascii.eqb_refl. reflexivity.
Qed.

Lemma quote_remove_quoted q body tail :
  q = CH_DQUOTE \/ q = CH_SQUOTE -> without_char q body = true ->
  quote_remove (q :: body ++ q :: tail) = body.
Proof.
  intros Hq Hb. unfold quote_remove. cbn [peek tl].
  rewrite (proj2 (is_quote_cases q Hq)).
  apply copy_until_body. exact Hb.
Qed.

Lemma read_name_pattern_quoted q body rest :
  q = CH_DQUOTE \/ q = CH_SQUOTE -> without_char q body = true ->
  read_name_pattern (q :: body ++ q :: rest) = (body, skip_spaces rest).
Proof.
  intros Hq Hb. unfold read_name_pattern.
  rewrite name_string_length_quoted by assumption.
  replace (S (S (List.length body))) with (S (List.length body + 1)) by lia.
  rewrite firstn_cons, skipn_cons, firstn_over, skipn_over.
  cbn [firstn skipn].
  rewrite quote_remove_quoted by assumption. reflexivity.
Qed.

Lemma read_name_pattern_plain w sp rest :
  no_space w = true -> isspace sp = true ->
  peek w <> CH_DQUOTE -> peek w <> CH_SQUOTE ->
  read_name_pattern (w ++ sp :: rest) = (w, skip_spaces rest).
Proof.
  intros Hw Hsp Hd Hs. unfold read_name_pattern.
  assert (Hpeek : Ascii.eqb (peek (w ++ sp :: rest)) CH_DQUOTE ||
                  Ascii.eqb (peek (w ++ sp :: rest)) CH_SQUOTE = false).
  { destruct w as [|c w]; cbn [app peek] in *.
    - destruct (Ascii.eqb_spec sp CH_DQUOTE) as [-> | _]; [discriminate|].
      destruct (Ascii.eqb_spec sp CH_SQUOTE) as [-> | _]; [discriminate|].
      reflexivity.
    - destruct (Ascii.eqb_spec c CH_DQUOTE); [contradiction|].
      destruct (Ascii.eqb_spec c CH_SQUOTE); [contradiction|]. reflexivity. }
  unfold name_string_length. rewrite Hpeek.
  rewrite span_until_space by assumption.
  replace (List.length w) with (List.length w + 0)%nat by lia.
  rewrite firstn_over, skipn_over. cbn [firstn skipn]. rewrite app_nil_r.
  unfold quote_remove.
  destruct (Ascii.eqb_spec (peek w) CH_SQUOTE); [contradiction|].
  destruct (Ascii.eqb_spec (peek w) CH_DQUOTE); [contradiction|].
  cbn [negb andb skip_spaces]. rewrite Hsp. reflexivity.
Qed.

End QuotingNames.

(** C8 (as the code has it). A path in double quotes is taken up to the
    closing double quote, without the quotes; in it a backslash before a
    double quote or a backslash gives that character, and a backslash before
    any other character is kept as it is.  A path that does not start with
    a double quote, also one that starts with a single quote, ends at the
    first white space and is taken as written.  The argument of [-name] and
    [-path] in double or single quotes is taken up to the next quote of the
    same kind, without the quotes and with every backslash kept; without
    quotes it ends at the first white space. *)
Theorem quoted_fields :
  (forall items sp rest,
      quoted_wf items = true -> isspace sp = true ->
      read_str (CH_DQUOTE :: flat_map item_text items ++ CH_DQUOTE :: sp :: rest)
        = Some (skip_spaces rest, map item_value items)) /\
  (forall w sp rest,
      no_space w = true -> isspace sp = true -> peek w <> CH_DQUOTE ->
      read_str (w ++ sp :: rest) = Some (skip_spaces rest, w)) /\
  (forall q body rest,
      q = CH_DQUOTE \/ q = CH_SQUOTE -> without_char q body = true ->
      name_string_length (q :: body ++ q :: rest) = S (S (List.length body)) /\
      quote_remove (q :: body ++ [q]) = body /\
      read_name_pattern (q :: body ++ q :: rest) = (body, skip_spaces rest)) /\
  (forall w sp rest,
      no_space w = true -> isspace sp = true ->
      peek w <> CH_DQUOTE -> peek w <> CH_SQUOTE ->
      read_name_pattern (w ++ sp :: rest) = (w, skip_spaces rest)).
Proof.
  split; [|split; [|split]].
  - intros items sp rest Hwf Hsp. unfold read_str. cbn [peek tl].
    change (Ascii.eqb CH_DQUOTE CH_DQUOTE) with true. cbv iota.
    rewrite read_str_quoted_items by exact Hwf.
    cbn [peek tl]. change (Ascii.eqb CH_DQUOTE CH_DQUOTE) with true.
    rewrite Hsp. cbn [negb orb skip_spaces]. rewrite Hsp. reflexivity.
  - intros w sp rest Hw Hsp Hq. unfold read_str.
    assert (Hpeek : Ascii.eqb (peek (w ++ sp :: rest)) CH_DQUOTE = false).
    { destruct w as [|c w]; cbn [app peek] in *.
      - destruct (Ascii.eqb_spec sp CH_DQUOTE) as [-> | _];
          [discriminate | reflexivity].
      - destruct (Ascii.eqb_spec c CH_DQUOTE); [contradiction | reflexivity]. }
    rewrite Hpeek. rewrite span_nonspace_word by assumption.
    cbn [peek tl]. rewrite Hsp. reflexivity.
  - intros q body rest Hq Hb. split; [|split].
    + apply name_string_length_quoted; assumption.
    + apply quote_remove_quoted; assumption.
    + apply read_name_pattern_quoted; assumption.
  - intros w sp rest Hw Hsp Hd Hs.
    apply read_name_pattern_plain; assumption.
Qed.

Lemma quoted_fields_witness :
  read_str (CH_DQUOTE :: cstr "a b\" ++ CH_DQUOTE :: cstr "c\\d\e"
              ++ CH_DQUOTE :: cstr " 0644 0 0")
    = Some (cstr "0644 0 0", cstr "a b" ++ CH_DQUOTE :: cstr "c\d\e") /\
  read_str (cstr "'a b' 0644 0 0") = Some (cstr "b' 0644 0 0", cstr "'a") /\
  read_name_pattern (cstr "'*.c d' ./src") = (cstr "*.c d", cstr "./src") /\
  read_name_pattern (cstr "*.c ./src") = (cstr "*.c", cstr "./src").
Proof.
  destruct quoted_fields as (Hpath & Hword & Hname & Hplain).
  split; [|split; [|split]].
  - apply (Hpath [q_char "a"; q_char " "; q_char "b"; q_escaped CH_DQUOTE;
                  q_char "c"; q_escaped CH_BACKSLASH; q_char "d";
                  q_char CH_BACKSLASH; q_char "e"]%char
                 " "%char (cstr "0644 0 0")); reflexivity.
  - apply (Hword (cstr "'a") " "%char (cstr "b' 0644 0 0"));
      [reflexivity | reflexivity | discriminate].
  - apply (Hname CH_SQUOTE (cstr "*.c d") (cstr " ./src"));
      [right; reflexivity | reflexivity].
  - apply (Hplain (cstr "*.c") " "%char (cstr "./src"));
      [reflexivity | reflexivity | discriminate | discriminate].
Defined.

(** C8 as the specification words it fails twice: a path in single quotes
    is cut at the first white space and keeps its quote, and in a name in
    double quotes a backslash does not protect the double quote behind
    it. *)
Lemma quoted_fields_counterexample :
  read_str (cstr "'a b' 0644 0 0") = Some (cstr "b' 0644 0 0", cstr "'a") /\
  read_str (cstr "'a b' 0644 0 0") <> Some (cstr "0644 0 0", cstr "a b") /\
  read_name_pattern (CH_DQUOTE :: cstr "a\" ++ CH_DQUOTE :: cstr "b"
                       ++ CH_DQUOTE :: cstr " ./src")
    = (cstr "a\", cstr "b" ++ CH_DQUOTE :: cstr " ./src") /\
  read_name_pattern (CH_DQUOTE :: cstr "a\" ++ CH_DQUOTE :: cstr "b"
                       ++ CH_DQUOTE :: cstr " ./src")
    <> (cstr "a" ++ CH_DQUOTE :: cstr "b", cstr "./src").
Proof.
  repeat split; try reflexivity; discriminate.
Qed.

(** ** The [-type] options of a glob line *)

Section FlagBits.

(** Flag words are compared bit by bit. *)
Ltac by_bits n Hn :=
  apply Z.bits_inj'; intros n Hn;
  repeat rewrite ?Z.land_spec, ?Z.lor_spec, ?Z.ldiff_spec, ?Z.bits_0.

Lemma u32_lnot_bits c n :
  0 <= n ->
  Z.testbit (u32 (Z.lnot c)) n = (n <? 32) && negb (Z.testbit c n).
Proof.
  intros Hn. unfold u32. destruct (Z.ltb_spec n 32).
  - rewrite Z.mod_pow2_bits_low by lia. rewrite Z.lnot_spec by lia. reflexivity.
  - rewrite Z.mod_pow2_bits_high by lia. reflexivity.
Qed.

Lemma clear_keeps s c a :
  low_word a ->
  Z.land (Z.land s (u32 (Z.lnot c))) a = Z.ldiff (Z.land s a) c.
Proof.
  intros Ha. by_bits n Hn. rewrite u32_lnot_bits by lia.
  destruct (Z.ltb_spec n 32).
  - destruct (Z.testbit s n), (Z.testbit c n), (Z.testbit a n); reflexivity.
  - rewrite (Ha n) by lia.
    destruct (Z.testbit s n), (Z.testbit c n); reflexivity.
Qed.

Lemma first_clear_sets s c a :
  low_word a ->
  Z.land (Z.land (Z.lor s a) (u32 (Z.lnot c))) a = Z.ldiff a c.
Proof.
  intros Ha. by_bits n Hn. rewrite u32_lnot_bits by lia.
  destruct (Z.ltb_spec n 32).
  - destruct (Z.testbit s n), (Z.testbit c n), (Z.testbit a n); reflexivity.
  - rewrite (Ha n) by lia.
    destruct (Z.testbit s n), (Z.testbit c n); reflexivity.
Qed.

Lemma set_keeps s t a :
  low_word a -> Z.land t a = 0 ->
  Z.land (Z.lor (Z.land s (u32 (Z.lnot 0))) t) a = Z.land s a.
Proof.
  intros Ha Ht. by_bits n Hn. rewrite u32_lnot_bits by lia.
  rewrite Z.bits_0.
  assert (Hta : Z.testbit t n && Z.testbit a n = false).
  { rewrite <- Z.land_spec, Ht. apply Z.bits_0. }
  destruct (Z.ltb_spec n 32).
  - destruct (Z.testbit s n), (Z.testbit t n), (Z.testbit a n);
      try reflexivity; discriminate.
  - rewrite (Ha n) by lia.
    destruct (Z.testbit s n), (Z.testbit t n); reflexivity.
Qed.

Lemma clear_in_range s c :
  0 <= s < 2 ^ 32 -> Z.land s (u32 (Z.lnot c)) = Z.ldiff s c.
Proof.
  intros Hs. by_bits n Hn. rewrite u32_lnot_bits by lia.
  destruct (Z.ltb_spec n 32); [reflexivity|].
  replace (Z.testbit s n) with false; [reflexivity|].
  symmetry. destruct (Z.eq_dec s 0) as [-> | Hnz]; [apply Z.bits_0|].
  apply Z.bits_above_log2; [lia|].
  assert (Z.log2 s < 32) by (apply Z.log2_lt_pow2; lia). lia.
Qed.

Lemma single_bit_pow f :
  single_bitb f = true -> exists k, 0 <= k < 32 /\ f = 2 ^ k.
Proof.
  unfold single_bitb. intros H. apply existsb_exists in H.
  destruct H as (k & Hin & Hk). apply in_seq in Hin. apply Z.eqb_eq in Hk.
  exists (Z.of_nat k). split; [lia | exact Hk].
Qed.

Lemma single_bit_low f : single_bitb f = true -> low_word f.
Proof.
  intros H. destruct (single_bit_pow f H) as (k & Hk & ->).
  intros n Hn. rewrite Z.pow2_bits_eqb by lia.
  apply Z.eqb_neq. lia.
Qed.

Lemma single_bit_nonzero f : single_bitb f = true -> f <> 0.
Proof.
  intros H. destruct (single_bit_pow f H) as (k & Hk & ->).
  pose proof (Z.pow_pos_nonneg 2 k). lia.
Qed.

(** Two single bits are the same bit or have no bit in common. *)
Lemma single_bits_apart f g :
  single_bitb f = true -> single_bitb g = true ->
  f = g \/ Z.land f g = 0.
Proof.
  intros Hf Hg.
  destruct (single_bit_pow f Hf) as (i & Hi & ->).
  destruct (single_bit_pow g Hg) as (j & Hj & ->).
  destruct (Z.eq_dec i j) as [-> | Hne]; [now left | right].
  by_bits n Hn. rewrite !Z.pow2_bits_eqb by lia.
  destruct (Z.eqb_spec i n), (Z.eqb_spec j n); try reflexivity. lia.
Qed.

Lemma low_word_lor a b : low_word a -> low_word b -> low_word (Z.lor a b).
Proof.
  intros Ha Hb n Hn. rewrite Z.lor_spec, (Ha n Hn), (Hb n Hn). reflexivity.
Qed.

Lemma land_lor_apart t a b :
  Z.land t a = 0 -> Z.land t b = 0 -> Z.land t (Z.lor a b) = 0.
Proof. intros Ha Hb. rewrite Z.land_lor_distr_r, Ha, Hb. reflexivity. Qed.

Lemma distinctb_nth l i j :
  distinctb l = true -> (i < j < List.length l)%nat ->
  nth i l 0 <> nth j l 0.
Proof.
  revert i j. induction l as [|x l IH]; intros i j Hd Hij; [cbn in Hij; lia|].
  cbn [distinctb] in Hd. apply andb_true_iff in Hd. destruct Hd as [Hx Hd].
  destruct j as [|j]; [lia|]. destruct i as [|i]; cbn [nth].
  - intros E. apply negb_true_iff in Hx.
    assert (existsb (Z.eqb x) l = true); [|congruence].
    apply existsb_exists. exists (nth j l 0). split.
    + apply nth_In. cbn in Hij. lia.
    + apply Z.eqb_eq. exact E.
  - apply IH; [exact Hd | cbn in Hij; lia].
Qed.

End FlagBits.

Section GlobFacts.
Context {F : dir_scan_flags} (Hwf : flags_wf F).

Lemma wf_single f : In f all_dir_scan_flags -> single_bitb f = true.
Proof.
  unfold flags_wf in Hwf. apply andb_true_iff in Hwf. destruct Hwf as [H _].
  rewrite forallb_forall in H. apply H.
Qed.

Lemma wf_distinct i j :
  (i < j < 14)%nat -> nth i all_dir_scan_flags 0 <> nth j all_dir_scan_flags 0.
Proof.
  unfold flags_wf in Hwf. apply andb_true_iff in Hwf. destruct Hwf as [_ H].
  intros Hij. apply distinctb_nth; [exact H | exact Hij].
Qed.

Lemma type_flags_all c : In c type_flags -> In c all_dir_scan_flags.
Proof.
  unfold type_flags, all_dir_scan_flags. cbn [In]. intuition auto.
Qed.

Lemma type_flag_single c : In c type_flags -> single_bitb c = true.
Proof. intros H. apply wf_single, type_flags_all, H. Qed.

Lemma all_flags_lor_list : all_flags = lor_list (rev type_flags).
Proof.
  unfold all_flags, lor_list, type_flags. cbn [rev app fold_right].
  rewrite Z.lor_0_r.
  repeat rewrite (Z.lor_comm _ DIR_SCAN_NO_SOCK).
  repeat rewrite (Z.lor_comm _ DIR_SCAN_NO_SLINK).
  repeat rewrite (Z.lor_comm _ DIR_SCAN_NO_FILE).
  repeat rewrite (Z.lor_comm _ DIR_SCAN_NO_FIFO).
  repeat rewrite (Z.lor_comm _ DIR_SCAN_NO_DIR).
  repeat rewrite (Z.lor_comm _ DIR_SCAN_NO_CHR).
  reflexivity.
Qed.

Lemma lor_list_low l :
  Forall (fun c => single_bitb c = true) l -> low_word (lor_list l).
Proof.
  induction 1 as [|c l Hc _ IH]; cbn [lor_list fold_right].
  - intros n _. apply Z.bits_0.
  - apply low_word_lor; [apply single_bit_low, Hc | exact IH].
Qed.

Lemma lor_list_apart t l :
  Forall (fun c => Z.land t c = 0) l -> Z.land t (lor_list l) = 0.
Proof.
  induction 1 as [|c l Hc _ IH]; cbn [lor_list fold_right].
  - apply Z.land_0_r.
  - apply land_lor_apart; assumption.
Qed.

Lemma lor_list_member c l : In c l -> Z.land (lor_list l) c = c.
Proof.
  induction l as [|x l IH]; cbn [In lor_list fold_right]; [contradiction|].
  intros [-> | Hin].
  - apply Z.bits_inj'. intros n _.
    rewrite Z.land_spec, Z.lor_spec.
    destruct (Z.testbit c n), (Z.testbit (fold_right Z.lor 0 l) n); reflexivity.
  - specialize (IH Hin). apply Z.bits_inj'. intros n _.
    rewrite Z.land_spec, Z.lor_spec.
    assert (Hb : Z.testbit (lor_list l) n && Z.testbit c n = Z.testbit c n)
      by (rewrite <- Z.land_spec, IH; reflexivity).
    unfold lor_list in Hb.
    destruct (Z.testbit x n), (Z.testbit c n),
      (Z.testbit (fold_right Z.lor 0 l) n); try reflexivity; discriminate.
Qed.

Lemma type_flags_single : Forall (fun c => single_bitb c = true) (rev type_flags).
Proof.
  apply Forall_forall. intros c Hc. apply type_flag_single.
  apply in_rev. exact Hc.
Qed.

Lemma all_flags_low : low_word all_flags.
Proof. rewrite all_flags_lor_list. apply lor_list_low, type_flags_single. Qed.

Lemma all_flags_member c : In c type_flags -> Z.land all_flags c = c.
Proof.
  intros H. rewrite all_flags_lor_list. apply lor_list_member.
  apply in_rev. rewrite rev_involutive. exact H.
Qed.

(** A flag that is no exclusion flag shares no bit with [all_flags]. *)
Lemma other_flag_apart t :
  In t all_dir_scan_flags -> ~ In t type_flags -> Z.land t all_flags = 0.
Proof.
  intros Ht Hnot. rewrite all_flags_lor_list. apply lor_list_apart.
  apply Forall_forall. intros c Hc. apply in_rev in Hc.
  destruct (single_bits_apart t c (wf_single t Ht) (type_flag_single c Hc))
    as [-> | H]; [contradiction | exact H].
Qed.

Lemma set_flags_not_type :
  ~ In DIR_SCAN_ONE_FILESYSTEM type_flags /\
  ~ In DIR_SCAN_KEEP_TIME type_flags /\
  ~ In DIR_SCAN_NO_RECURSION type_flags.
Proof.
  pose proof wf_distinct as Hd. unfold all_dir_scan_flags in Hd.
  unfold type_flags. cbn [In].
  assert (H01 := Hd 0%nat 3%nat ltac:(lia)). assert (H02 := Hd 0%nat 4%nat ltac:(lia)).
  assert (H03 := Hd 0%nat 5%nat ltac:(lia)). assert (H04 := Hd 0%nat 6%nat ltac:(lia)).
  assert (H05 := Hd 0%nat 7%nat ltac:(lia)). assert (H06 := Hd 0%nat 8%nat ltac:(lia)).
  assert (H07 := Hd 0%nat 9%nat ltac:(lia)).
  assert (H11 := Hd 1%nat 3%nat ltac:(lia)). assert (H12 := Hd 1%nat 4%nat ltac:(lia)).
  assert (H13 := Hd 1%nat 5%nat ltac:(lia)). assert (H14 := Hd 1%nat 6%nat ltac:(lia)).
  assert (H15 := Hd 1%nat 7%nat ltac:(lia)). assert (H16 := Hd 1%nat 8%nat ltac:(lia)).
  assert (H17 := Hd 1%nat 9%nat ltac:(lia)).
  assert (H21 := Hd 2%nat 3%nat ltac:(lia)). assert (H22 := Hd 2%nat 4%nat ltac:(lia)).
  assert (H23 := Hd 2%nat 5%nat ltac:(lia)). assert (H24 := Hd 2%nat 6%nat ltac:(lia)).
  assert (H25 := Hd 2%nat 7%nat ltac:(lia)). assert (H26 := Hd 2%nat 8%nat ltac:(lia)).
  assert (H27 := Hd 2%nat 9%nat ltac:(lia)).
  cbn [nth] in *.
  repeat split; intros H; repeat (destruct H as [H | H]; [congruence|]);
    contradiction.
Qed.

End GlobFacts.

Section GlobLoopFacts.
Context {F : dir_scan_flags} (Hwf : flags_wf F).

(** The rows of the table: a [-type] row clears an exclusion flag and sets
    nothing, any other row clears nothing and sets a flag of its own. *)
Lemma scan_flag_rows e :
  In e glob_scan_flags ->
  (is_type_option e = true /\ In (clear_flag e) type_flags /\
   clear_flag e <> 0 /\ set_flag e = 0) \/
  (is_type_option e = false /\ clear_flag e = 0 /\
   Z.land (set_flag e) all_flags = 0).
Proof.
  destruct (set_flags_not_type Hwf) as (Hfs & Hkt & Hnr).
  assert (Hty : forall c, In c type_flags -> c <> 0).
  { intros c Hc. apply single_bit_nonzero, (type_flag_single Hwf), Hc. }
  assert (Hother : forall t, In t all_dir_scan_flags -> ~ In t type_flags ->
                             Z.land t all_flags = 0)
    by (intros t; apply (other_flag_apart Hwf)).
  intros H. cbn [glob_scan_flags In] in H.
  repeat (destruct H as [<- | H];
          [first
             [ left; cbn [clear_flag set_flag];
               assert (Hin : forall c, In c type_flags -> In c type_flags)
                 by auto;
               split; [reflexivity|];
               split; [unfold type_flags; cbn [In]; tauto|];
               split; [apply Hty; unfold type_flags; cbn [In]; tauto
                      | reflexivity]
             | right; cbn [clear_flag set_flag];
               split; [reflexivity|]; split; [reflexivity|];
               apply Hother;
               [unfold all_dir_scan_flags; cbn [In]; tauto | assumption] ]|]).
  contradiction.
Qed.

Lemma lor_list_app a b : lor_list (a ++ b) = Z.lor (lor_list a) (lor_list b).
Proof.
  induction a as [|x a IH]; cbn [app lor_list fold_right].
  - reflexivity.
  - unfold lor_list in IH. rewrite IH. apply Z.lor_assoc.
Qed.

Lemma lor_list_single c : lor_list [c] = c.
Proof. cbn [lor_list fold_right]. apply Z.lor_0_r. Qed.

Lemma ldiff_ldiff a b c : Z.ldiff (Z.ldiff a b) c = Z.ldiff a (Z.lor b c).
Proof.
  apply Z.bits_inj'. intros n _. rewrite !Z.ldiff_spec, Z.lor_spec.
  destruct (Z.testbit a n), (Z.testbit b n), (Z.testbit c n); reflexivity.
Qed.

Lemma type_inv_step e st cl :
  In e glob_scan_flags -> type_inv st cl ->
  type_inv (apply_scan_flag e st) (cl ++ cleared_flags [opt_scan_flag e]).
Proof.
  intros He (Hfirst & Hcl & Hscan).
  pose proof (all_flags_low Hwf) as Hlow.
  destruct (scan_flag_rows e He) as [(_ & Hin & Hnz & Hset) | (_ & Hz & Hapart)].
  - cbn [cleared_flags]. destruct (Z.eqb_spec (clear_flag e) 0) as [|_];
      [contradiction|].
    unfold type_inv, apply_scan_flag.
    destruct (Z.eqb_spec (clear_flag e) 0) as [|_]; [contradiction|].
    cbn [negb andb]. rewrite Hset, Hfirst.
    rewrite length_app. cbn [List.length].
    replace (Nat.eqb (List.length cl + 1) 0) with false
      by (symmetry; apply Nat.eqb_neq; lia).
    destruct cl as [|c0 cl'].
    + cbn [List.length Nat.eqb app scan_flags first_clear_flag].
      rewrite Z.lor_0_r. split; [reflexivity|]. split.
      * constructor; [exact Hin | constructor].
      * rewrite first_clear_sets by exact Hlow.
        rewrite lor_list_single. reflexivity.
    + cbn [List.length Nat.eqb] in *.
      cbn [scan_flags first_clear_flag].
      rewrite Z.lor_0_r. split; [exact Hfirst|]. split.
      * apply Forall_app. split; [exact Hcl | constructor; [exact Hin | constructor]].
      * rewrite clear_keeps by exact Hlow. rewrite Hscan.
        rewrite lor_list_app, lor_list_single. apply ldiff_ldiff.
  - cbn [cleared_flags]. rewrite Hz. cbn [Z.eqb]. rewrite app_nil_r.
    unfold type_inv, apply_scan_flag. rewrite Hz. cbn [Z.eqb negb andb].
    split; [exact Hfirst|]. split; [exact Hcl|].
    cbn [scan_flags]. rewrite set_keeps by assumption. exact Hscan.
Qed.

Lemma find_scan_flag_In table extra e extra' :
  find_scan_flag table extra = Some (e, extra') -> In e table.
Proof.
  induction table as [|x table IH]; cbn [find_scan_flag]; [discriminate|].
  destruct (strncmp_eq extra (sf_name x) (strlen (sf_name x)) &&
            isspace (char_at extra (strlen (sf_name x)))).
  - intros H. inversion H; subst. now left.
  - intros H. right. exact (IH H).
Qed.

Lemma next_option_In extra e extra' :
  next_option extra = (opt_scan_flag e, extra') -> In e glob_scan_flags.
Proof.
  unfold next_option.
  destruct (find_scan_flag glob_scan_flags extra) as [[e0 x0]|] eqn:Hf.
  - intros H. inversion H; subst. exact (find_scan_flag_In _ _ _ _ Hf).
  - unfold read_name_pattern. split_match; discriminate.
Qed.

Lemma cleared_flags_cons o trace :
  cleared_flags (o :: trace) = cleared_flags [o] ++ cleared_flags trace.
Proof.
  destruct o; cbn [cleared_flags]; try reflexivity.
  destruct (clear_flag e =? 0); reflexivity.
Qed.

Lemma type_inv_loop fuel :
  forall extra st cl st' extra',
    type_inv st cl ->
    glob_options_loop fuel extra st = glob_parsed st' extra' ->
    type_inv st' (cl ++ cleared_flags (glob_option_trace fuel extra)).
Proof.
  induction fuel as [|fuel IH]; intros extra st cl st' extra' Hinv Hrun.
  - destruct extra; cbn [glob_options_loop glob_option_trace] in *;
      [|discriminate].
    inversion Hrun; subst. cbn [cleared_flags]. rewrite app_nil_r. exact Hinv.
  - destruct extra as [|c extra]; cbn [glob_options_loop glob_option_trace] in *.
    + inversion Hrun; subst. cbn [cleared_flags]. rewrite app_nil_r. exact Hinv.
    + destruct (next_option (c :: extra)) as [o rest] eqn:Hnext.
      destruct o as [e | p | p | | |].
      * rewrite cleared_flags_cons, app_assoc.
        apply (IH _ _ _ _ _ (type_inv_step e st cl (next_option_In _ _ _ Hnext) Hinv) Hrun).
      * rewrite cleared_flags_cons. cbn [cleared_flags app].
        apply (IH _ _ _ _ _ (Hinv : type_inv (Build_glob_opts _ _ _ _) cl) Hrun).
      * rewrite cleared_flags_cons. cbn [cleared_flags app].
        apply (IH _ _ _ _ _ (Hinv : type_inv (Build_glob_opts _ _ _ _) cl) Hrun).
      * inversion Hrun; subst. cbn [cleared_flags]. rewrite app_nil_r. exact Hinv.
      * discriminate.
      * inversion Hrun; subst. cbn [cleared_flags]. rewrite app_nil_r. exact Hinv.
Qed.

End GlobLoopFacts.

Section GlobLoopFuel.
Context {F : dir_scan_flags}.

Lemma strncmp_eq_length a b :
  strncmp_eq a b (List.length b) = true -> (List.length b <= List.length a)%nat.
Proof.
  revert a. induction b as [|y b IH]; intros a; cbn [List.length strncmp_eq].
  - lia.
  - destruct a as [|x a]; [discriminate|].
    intros H. apply andb_true_iff in H. destruct H as [_ H].
    specialize (IH a H). cbn [List.length]. lia.
Qed.

Lemma skip_spaces_length s : (List.length (skip_spaces s) <= List.length s)%nat.
Proof.
  induction s as [|c s IH]; cbn [skip_spaces List.length]; [lia|].
  destruct (isspace c); cbn [List.length]; lia.
Qed.

Lemma skip_behind_length s n :
  (List.length (skip_spaces (skipn n s)) <= List.length s - n)%nat.
Proof.
  pose proof (skip_spaces_length (skipn n s)) as H.
  rewrite length_skipn in H. exact H.
Qed.

Lemma find_scan_flag_shorter table extra e rest :
  Forall (fun x => (0 < List.length (sf_name x))%nat) table ->
  find_scan_flag table extra = Some (e, rest) ->
  (List.length rest < List.length extra)%nat.
Proof.
  induction 1 as [|x table Hx _ IH]; cbn [find_scan_flag]; [discriminate|].
  unfold strlen.
  destruct (strncmp_eq extra (sf_name x) (List.length (sf_name x))) eqn:Hcmp;
    cbn [andb]; [|exact IH].
  destruct (isspace (char_at extra (List.length (sf_name x)))); [|exact IH].
  intros H. inversion H; subst.
  pose proof (strncmp_eq_length _ _ Hcmp).
  pose proof (skip_behind_length extra (List.length (sf_name e))). lia.
Qed.

Lemma glob_scan_flags_named :
  Forall (fun x => (0 < List.length (sf_name x))%nat) glob_scan_flags.
Proof. unfold glob_scan_flags. repeat constructor. Qed.

Lemma read_name_pattern_shorter s p rest :
  read_name_pattern s = (p, rest) -> (List.length rest <= List.length s)%nat.
Proof.
  unfold read_name_pattern. intros H. inversion H; subst.
  pose proof (skip_behind_length s (name_string_length s)). lia.
Qed.

Lemma next_option_shorter extra o rest :
  next_option extra = (o, rest) ->
  match o with
  | opt_scan_flag _ | opt_name _ | opt_path _ =>
      (List.length rest < List.length extra)%nat
  | _ => True
  end.
Proof.
  unfold next_option.
  destruct (find_scan_flag glob_scan_flags extra) as [[e0 x0]|] eqn:Hf.
  - intros H. inversion H; subst.
    exact (find_scan_flag_shorter _ _ _ _ glob_scan_flags_named Hf).
  - destruct (strncmp_eq extra (cstr "-name") 5 && isspace (char_at extra 5))
      eqn:Hn.
    + apply andb_true_iff in Hn. destruct Hn as [Hn _].
      destruct (read_name_pattern _) as [p r] eqn:Hr.
      intros H. inversion H; subst.
      pose proof (strncmp_eq_length extra (cstr "-name") Hn) as Hlen.
      cbn in Hlen.
      pose proof (read_name_pattern_shorter _ _ _ Hr).
      pose proof (skip_behind_length extra 5). lia.
    + destruct (strncmp_eq extra (cstr "-path") 5 && isspace (char_at extra 5))
        eqn:Hp.
      * apply andb_true_iff in Hp. destruct Hp as [Hp _].
        destruct (read_name_pattern _) as [p r] eqn:Hr.
        intros H. inversion H; subst.
        pose proof (strncmp_eq_length extra (cstr "-path") Hp) as Hlen.
        cbn in Hlen.
        pose proof (read_name_pattern_shorter _ _ _ Hr).
        pose proof (skip_behind_length extra 5). lia.
      * split_match; intros H; inversion H; subst; exact I.
Qed.

Lemma glob_options_loop_fuel fuel :
  forall extra st,
    (List.length extra < fuel)%nat ->
    glob_options_loop fuel extra st <> glob_no_fuel.
Proof.
  induction fuel as [|fuel IH]; intros extra st Hlen; [lia|].
  destruct extra as [|c extra]; cbn [glob_options_loop]; [discriminate|].
  destruct (next_option (c :: extra)) as [o rest] eqn:Hnext.
  pose proof (next_option_shorter _ _ _ Hnext) as Hshort.
  destruct o; try discriminate; apply IH; lia.
Qed.

End GlobLoopFuel.

(** ** Owner override *)

Section OwnerOverride.
Import Mkfs.

(** Induction over a tree with the children of a node at hand. *)
Lemma tree_node_children_ind (P : tree_node -> Prop) :
  (forall n, Forall P (children n) -> P n) -> forall n, P n.
Proof.
  intros H. fix IH 1. intros n. apply H.
  destruct n as [nm u g m t x i lc p ch]. cbn [children].
  induction ch as [|c ch IHch]; constructor; [apply IH | exact IHch].
Qed.

Lemma override_none opt :
  force_uid opt = false -> force_gid opt = false ->
  forall n, override_owner_dfs opt n = n.
Proof.
  intros Hu Hg. apply tree_node_children_ind. intros n Hch.
  destruct n as [nm u g m t x i lc p ch]. cbn [children] in Hch.
  cbn [override_owner_dfs name uid gid mode mod_time xattr_idx inode_num
       link_count payload children].
  rewrite Hu, Hg. f_equal.
  destruct (S_ISDIR m); [|reflexivity].
  induction Hch as [|c ch Hc _ IH]; cbn [map]; [reflexivity|].
  rewrite Hc, IH. reflexivity.
Qed.

Lemma override_mode opt n : mode (override_owner_dfs opt n) = mode n.
Proof. destruct n; reflexivity. Qed.

Lemma override_children opt n :
  children (override_owner_dfs opt n) =
    if S_ISDIR (mode n) then map (override_owner_dfs opt) (children n)
    else children n.
Proof. destruct n; reflexivity. Qed.

Lemma override_node_at opt path :
  forall root,
    node_at (override_owner_dfs opt root) path =
      option_map (override_owner_dfs opt) (node_at root path).
Proof.
  induction path as [|i path IH]; intros root; cbn [node_at]; [reflexivity|].
  rewrite override_mode, override_children.
  destruct (S_ISDIR (mode root)); [|reflexivity].
  rewrite nth_error_map.
  destruct (nth_error (children root) i) as [c|]; cbn [option_map];
    [apply IH | reflexivity].
Qed.

End OwnerOverride.

(** C3. Where [main] comes to the post-processing, every node that can be
    reached from the root through directories carries the forced uid if one
    is configured and its old uid otherwise, and likewise the gid; the other
    attributes of the node and the shape of the tree are as before.  With
    neither configured the tree is the one that was read. *)
Theorem override_owner_every_node :
  forall opt root,
    (forall path n,
       Mkfs.node_at root path = Some n ->
       exists n',
         Mkfs.node_at (Mkfs.main_override opt root) path = Some n' /\
         Mkfs.uid n' = (if Mkfs.force_uid opt then Mkfs.force_uid_value opt
                        else Mkfs.uid n) /\
         Mkfs.gid n' = (if Mkfs.force_gid opt then Mkfs.force_gid_value opt
                        else Mkfs.gid n) /\
         Mkfs.name n' = Mkfs.name n /\
         Mkfs.mode n' = Mkfs.mode n /\
         Mkfs.mod_time n' = Mkfs.mod_time n /\
         Mkfs.xattr_idx n' = Mkfs.xattr_idx n /\
         Mkfs.inode_num n' = Mkfs.inode_num n /\
         Mkfs.link_count n' = Mkfs.link_count n /\
         Mkfs.payload n' = Mkfs.payload n /\
         List.length (Mkfs.children n') = List.length (Mkfs.children n)) /\
    (forall path,
       Mkfs.node_at root path = None ->
       Mkfs.node_at (Mkfs.main_override opt root) path = None) /\
    (Mkfs.force_uid opt = false -> Mkfs.force_gid opt = false ->
     Mkfs.main_override opt root = root /\
     Mkfs.override_owner_dfs opt root = root) /\
    (forall post,
       Mkfs.main_post_process post opt root
         = post (Mkfs.main_override opt root)).
Proof.
  intros opt root.
  assert (Hmain : Mkfs.main_override opt root = Mkfs.override_owner_dfs opt root).
  { unfold Mkfs.main_override.
    destruct (Mkfs.force_uid opt) eqn:Hu; [reflexivity|].
    destruct (Mkfs.force_gid opt) eqn:Hg; [reflexivity|].
    cbn [orb]. symmetry. apply override_none; assumption. }
  split; [|split; [|split]].
  - intros path n Hn. rewrite Hmain, override_node_at, Hn. cbn [option_map].
    eexists. split; [reflexivity|].
    destruct n as [nm u g m t x i lc p ch].
    cbn [Mkfs.override_owner_dfs Mkfs.name Mkfs.uid Mkfs.gid Mkfs.mode
         Mkfs.mod_time Mkfs.xattr_idx Mkfs.inode_num Mkfs.link_count
         Mkfs.payload Mkfs.children].
    repeat split.
    destruct (S_ISDIR m); [apply length_map | reflexivity].
  - intros path Hn. rewrite Hmain, override_node_at, Hn. reflexivity.
  - intros Hu Hg. rewrite Hmain, override_none by assumption. now split.
  - intros post. reflexivity.
Qed.

Lemma override_owner_every_node_witness :
  Mkfs.node_at sample_tree [1%nat; 0%nat]
    = Some (sample_node "b" (Z.lor S_IFREG 0x1A4) 1001 101 []) /\
  (exists n',
      Mkfs.node_at (Mkfs.main_override sample_options sample_tree)
        [1%nat; 0%nat] = Some n' /\
      Mkfs.uid n' = 0 /\ Mkfs.gid n' = 101 /\
      Mkfs.mode n' = Z.lor S_IFREG 0x1A4) /\
  Mkfs.main_override
    {| Mkfs.force_uid := false; Mkfs.force_gid := false;
       Mkfs.force_uid_value := 7; Mkfs.force_gid_value := 7 |} sample_tree
    = sample_tree.
Proof.
  split; [reflexivity|]. split.
  - destruct (override_owner_every_node sample_options sample_tree)
      as (H & _).
    destruct (H [1%nat; 0%nat] _ eq_refl)
      as (n' & Hn' & Hu & Hg & _ & Hm & _).
    exists n'. repeat split; assumption.
  - destruct (override_owner_every_node
                {| Mkfs.force_uid := false; Mkfs.force_gid := false;
                   Mkfs.force_uid_value := 7; Mkfs.force_gid_value := 7 |}
                sample_tree) as (_ & _ & H & _).
    apply H; reflexivity.
Defined.

(** ** Reading from a stream *)

Section IstreamFacts.

Lemma buffered_used_up strm :
  buffer_offset strm >= buffer_used strm -> buffered strm = [].
Proof.
  intros H. unfold buffered.
  replace (Z.to_nat (buffer_used strm - buffer_offset strm)) with 0%nat by lia.
  reflexivity.
Qed.

Lemma buffered_length strm :
  istream_wf strm -> buffer_offset strm <= buffer_used strm ->
  Z.of_nat (List.length (buffered strm)) = buffer_used strm - buffer_offset strm.
Proof.
  intros (Ho & Hu & _) Hle. unfold buffered.
  rewrite length_firstn, length_skipn. lia.
Qed.

Lemma firstn_add (A : Type) (l : list A) a b :
  firstn (a + b) l = firstn a l ++ firstn b (skipn a l).
Proof.
  revert l. induction a as [|a IH]; intros l; [reflexivity|].
  destruct l as [|x l]; cbn [Nat.add firstn skipn app].
  - rewrite firstn_nil. reflexivity.
  - f_equal. apply IH.
Qed.

Lemma skipn_add (A : Type) (l : list A) a b :
  skipn (a + b) l = skipn b (skipn a l).
Proof.
  revert l. induction a as [|a IH]; intros l; [reflexivity|].
  destruct l as [|x l]; cbn [Nat.add skipn].
  - rewrite skipn_nil. reflexivity.
  - apply IH.
Qed.

Lemma firstn_firstn_le (A : Type) (l : list A) a b :
  (a <= b)%nat -> firstn a (firstn b l) = firstn a l.
Proof. intros H. rewrite firstn_firstn. f_equal. lia. Qed.

Lemma skipn_firstn_sub (A : Type) (l : list A) a b :
  skipn a (firstn b l) = firstn (b - a) (skipn a l).
Proof.
  revert l b. induction a as [|a IH]; intros l b.
  - cbn [skipn]. f_equal. lia.
  - destruct b as [|b]; [reflexivity|].
    destruct l as [|x l]; cbn [firstn skipn Nat.sub].
    + rewrite firstn_nil. reflexivity.
    + apply IH.
Qed.

(** One round of copying out of a buffer that holds unread bytes. *)
Lemma copy_step strm size :
  istream_wf strm -> buffer_offset strm < buffer_used strm -> 0 < size ->
  0 < copy_len strm size <= size /\
  copy_len strm size <= Z.of_nat (List.length (buffered strm)) /\
  firstn (Z.to_nat (copy_len strm size))
         (skipn (Z.to_nat (buffer_offset strm)) (buffer strm))
    = firstn (Z.to_nat (copy_len strm size)) (buffered strm) /\
  istream_wf (copy_advance strm (copy_len strm size)) /\
  buffered (copy_advance strm (copy_len strm size))
    = skipn (Z.to_nat (copy_len strm size)) (buffered strm) /\
  (copy_len strm size < size ->
   buffer_offset (copy_advance strm (copy_len strm size))
     >= buffer_used (copy_advance strm (copy_len strm size))).
Proof.
  intros Hwf Hlt Hsize.
  pose proof (buffered_length strm Hwf ltac:(lia)) as Hlen.
  destruct Hwf as (Ho & Hu & Hmax & Hsrc).
  assert (Hd : copy_len strm size
               = Z.min (buffer_used strm - buffer_offset strm) size).
  { unfold copy_len, size_t. rewrite Z.mod_small by lia.
    destruct (Z.gtb_spec (buffer_used strm - buffer_offset strm) size); lia. }
  generalize dependent (copy_len strm size). intros diff Hd.
  assert (Hoff : size_t (buffer_offset strm + diff) = buffer_offset strm + diff).
  { unfold size_t. apply Z.mod_small. lia. }
  split; [lia|]. split; [lia|]. split; [|split; [|split]].
  - unfold buffered. rewrite firstn_firstn_le by lia. reflexivity.
  - unfold istream_wf, copy_advance.
    cbn [buffer buffer_used buffer_offset source].
    rewrite Hoff. repeat split; try lia. exact Hsrc.
  - unfold buffered, copy_advance. cbn [buffer buffer_used buffer_offset].
    rewrite Hoff. rewrite skipn_firstn_sub, skipn_skipn.
    f_equal; [lia | f_equal; lia].
  - intros Hds. unfold copy_advance. cbn [buffer_used buffer_offset].
    rewrite Hoff. lia.
Qed.

Lemma read_post_same strm1 strm data size total r :
  stream_bytes strm1 = stream_bytes strm ->
  source_fails (source strm1) = source_fails (source strm) ->
  read_post strm1 data size total r -> read_post strm data size total r.
Proof.
  intros Hb Hf. unfold read_post. destruct r as [[ret data'] strm'].
  rewrite Hb, Hf. exact (fun H => H).
Qed.

(** A round that copies, followed by the rounds that are left. *)
Lemma copy_round fuel :
  (forall strm data size total,
      istream_wf strm -> 0 <= size -> 0 <= total ->
      total + size <= 0x7FFFFFFF ->
      size = 0 \/ (rounds strm <= fuel)%nat ->
      exists r, istream_read_loop fuel strm data size total = Some r /\
                read_post strm data size total r) ->
  forall strm data size total,
    istream_wf strm -> buffer_offset strm < buffer_used strm ->
    0 < size -> 0 <= total -> total + size <= 0x7FFFFFFF ->
    (List.length (source strm) + 1 <= fuel)%nat ->
    exists r,
      istream_read_loop fuel
        (copy_advance strm (copy_len strm size))
        (data ++ firstn (Z.to_nat (copy_len strm size))
                   (skipn (Z.to_nat (buffer_offset strm)) (buffer strm)))
        (size - copy_len strm size)
        (s32 (size_t (size_t total + copy_len strm size)))
      = Some r /\
      read_post strm data size total r.
Proof.
  intros IH strm data size total Hwf Hlt Hsize Htotal Hmax Hfuel.
  destruct (copy_step strm size Hwf Hlt Hsize)
    as (Hdiff & Hdlen & Hcopied & Hwf2 & Hbuf2 & Hup).
  assert (Hsrc2 : source (copy_advance strm (copy_len strm size)) = source strm)
    by reflexivity.
  generalize dependent (copy_advance strm (copy_len strm size)).
  generalize dependent (copy_len strm size).
  intros diff Hdiff Hdlen Hcopied strm2 Hwf2 Hbuf2 Hup Hsrc2.
  rewrite Hcopied.
  set (copied := firstn (Z.to_nat diff) (buffered strm)).
  assert (Htot : s32 (size_t (size_t total + diff)) = total + diff).
  { unfold s32, size_t.
    rewrite (Z.mod_small total) by lia.
    rewrite (Z.mod_small (total + diff)) by lia.
    rewrite Z.mod_small by lia. lia. }
  rewrite Htot.
  destruct (IH strm2 (data ++ copied) (size - diff) (total + diff) Hwf2
              ltac:(lia) ltac:(lia) ltac:(lia)) as (r & Hrun & Hpost).
  { destruct (Z.eq_dec diff size) as [-> | Hne]; [left; lia | right].
    unfold rounds. rewrite Hsrc2.
    destruct (Z.geb_spec (buffer_offset strm2) (buffer_used strm2)); [lia|].
    specialize (Hup ltac:(lia)). lia. }
  exists r. split; [exact Hrun|].
  unfold read_post in *. destruct r as [[ret data'] strm'].
  assert (Hbytes2 : stream_bytes strm2
                    = skipn (Z.to_nat diff) (stream_bytes strm)).
  { unfold stream_bytes. rewrite Hbuf2, Hsrc2.
    rewrite skipn_app.
    replace (Z.to_nat diff - List.length (buffered strm))%nat with 0%nat by lia.
    reflexivity. }
  assert (Hcop : copied = firstn (Z.to_nat diff) (stream_bytes strm)).
  { unfold copied. unfold stream_bytes.
    rewrite firstn_app.
    replace (Z.to_nat diff - List.length (buffered strm))%nat with 0%nat by lia.
    cbn [firstn]. rewrite app_nil_r. reflexivity. }
  assert (Hlen : (Z.to_nat diff <= List.length (stream_bytes strm))%nat).
  { unfold stream_bytes. rewrite length_app. lia. }
  rewrite Hbytes2 in Hpost. rewrite length_skipn in Hpost.
  rewrite Hsrc2 in Hpost. rewrite Hcop in Hpost.
  destruct (Z.leb_spec size (Z.of_nat (List.length (stream_bytes strm))))
    as [Hle | Hgt].
  - destruct (Z.leb_spec (size - diff)
                (Z.of_nat (List.length (stream_bytes strm) - Z.to_nat diff)));
      [|lia].
    destruct Hpost as (Hret & Hdata & Hrest).
    split; [lia|]. split.
    + rewrite Hdata, <- app_assoc. f_equal.
      replace (Z.to_nat size) with (Z.to_nat diff + Z.to_nat (size - diff))%nat
        by lia.
      apply eq_sym, firstn_add.
    + rewrite Hrest.
      replace (Z.to_nat size) with (Z.to_nat diff + Z.to_nat (size - diff))%nat
        by lia.
      apply eq_sym, skipn_add.
  - destruct (Z.leb_spec (size - diff)
                (Z.of_nat (List.length (stream_bytes strm) - Z.to_nat diff)));
      [lia|].
    destruct (source_fails (source strm)); [exact Hpost|].
    destruct Hpost as (Hret & Hdata & Hrest & Hsrc).
    split; [lia|]. split; [|split; assumption].
    rewrite Hdata, <- app_assoc, firstn_skipn. reflexivity.
Qed.


Lemma source_wf_tail strm r src :
  istream_wf strm -> source strm = r :: src -> refill_fits r /\ Forall refill_fits src.
Proof.
  intros (_ & _ & _ & H) E. rewrite E in H. inversion H; subst. now split.
Qed.

Lemma istream_read_loop_spec fuel :
  forall strm data size total,
    istream_wf strm -> 0 <= size -> 0 <= total ->
    total + size <= 0x7FFFFFFF ->
    size = 0 \/ (rounds strm <= fuel)%nat ->
    exists r, istream_read_loop fuel strm data size total = Some r /\
              read_post strm data size total r.
Proof.
  induction fuel as [|fuel IH]; intros strm data size total Hwf Hsize Htotal
                                       Hmax Hfuel.
  - destruct Hfuel as [-> | Hfuel]; [|unfold rounds in Hfuel;
      destruct (buffer_offset strm >=? buffer_used strm); lia].
    exists (total, data, strm). split; [reflexivity|].
    unfold read_post. cbn [Z.leb Z.compare Z.to_nat firstn skipn Z.of_nat].
    destruct (Z.leb_spec 0 (Z.of_nat (List.length (stream_bytes strm)))); [|lia].
    rewrite app_nil_r. repeat split; lia.
  - destruct (Z.eq_dec size 0) as [-> | Hnz].
    + exists (total, data, strm). split; [reflexivity|].
      unfold read_post.
      destruct (Z.leb_spec 0 (Z.of_nat (List.length (stream_bytes strm)))); [|lia].
      cbn [Z.to_nat firstn skipn]. rewrite app_nil_r. repeat split; lia.
    + destruct Hfuel as [? | Hfuel]; [contradiction|].
      cbn [istream_read_loop].
      destruct (Z.gtb_spec size 0) as [_ | ?]; [|lia].
      unfold rounds in Hfuel.
      destruct (Z.geb_spec (buffer_offset strm) (buffer_used strm))
        as [Hup | Hunread].
      * pose proof (buffered_used_up strm ltac:(lia)) as Hkeep.
        unfold istream_precache. rewrite Hkeep.
        destruct (source strm) as [|[b bs|] src] eqn:Hsrc.
        -- cbn [List.length Z.of_nat Z.eqb negb andb buffer_used].
           eexists. split; [reflexivity|].
           unfold read_post, stream_bytes. rewrite Hkeep, Hsrc.
           cbn [source_bytes app List.length Z.of_nat source_fails existsb].
           destruct (Z.leb_spec size 0); [lia|].
           repeat split; try lia; try reflexivity.
           symmetry. apply app_nil_r.
        -- destruct (source_wf_tail strm _ _ Hwf Hsrc) as [Hfit Hrest].
           cbn [refill_fits] in Hfit.
           cbn [app Z.eqb negb andb buffer_used].
           set (strm1 := {| buffer := b :: bs;
                            buffer_used := Z.of_nat (List.length (b :: bs));
                            buffer_offset := 0; source := src |}).
           assert (Hwf1 : istream_wf strm1).
           { unfold istream_wf, strm1.
             cbn [buffer buffer_used buffer_offset source List.length].
             repeat split; try lia. exact Hrest. }
           destruct (Z.eqb_spec (Z.of_nat (List.length (b :: bs))) 0) as [E | _];
             [cbn [List.length] in E; lia|].
           destruct (copy_round fuel IH strm1 data size total Hwf1)
             as (r & Hrun & Hpost); try lia.
           { unfold strm1. cbn [buffer_used buffer_offset List.length]. lia. }
           { unfold strm1. cbn [source]. cbn [List.length] in Hfuel. lia. }
           exists r. split; [exact Hrun|].
           apply (read_post_same strm1); [| |exact Hpost].
           ++ unfold stream_bytes. rewrite Hkeep, Hsrc.
              unfold strm1, buffered.
              cbn [buffer buffer_used buffer_offset source source_bytes
                   Z.to_nat skipn app].
              rewrite Z.sub_0_r, Nat2Z.id, firstn_all. reflexivity.
           ++ rewrite Hsrc. reflexivity.
        -- cbn [Z.eqb negb].
           eexists. split; [reflexivity|].
           unfold read_post, stream_bytes. rewrite Hkeep, Hsrc.
           cbn [source_bytes app List.length Z.of_nat source_fails existsb orb].
           destruct (Z.leb_spec size 0); [lia | reflexivity].
      * cbn [Z.eqb negb andb].
        destruct (copy_round fuel IH strm data size total Hwf)
          as (r & Hrun & Hpost); try lia.
        exists r. split; [exact Hrun | exact Hpost].
Qed.

End IstreamFacts.

(** C10. [istream_read] always returns: -1, which it does only when the
    underlying file runs into a read error, or a count between 0 and the
    request capped at 2^31 - 1.  The bytes it delivers are the next bytes
    of the stream, in order, and the stream goes on behind them.  The count
    falls short of the capped request only when the stream is at its end,
    and is the capped request whenever the stream holds that many bytes
    before its end or first error. *)
Theorem istream_read_spec :
  forall strm size,
    istream_wf strm -> 0 <= size < 2 ^ 64 ->
    exists ret data strm',
      istream_read strm size = Some (ret, data, strm') /\
      (ret = -1 \/ 0 <= ret <= Z.min size 0x7FFFFFFF) /\
      (ret = -1 -> source_fails (source strm) = true) /\
      (0 <= ret ->
       Z.of_nat (List.length data) = ret /\
       data = firstn (Z.to_nat ret) (stream_bytes strm) /\
       stream_bytes strm' = skipn (Z.to_nat ret) (stream_bytes strm)) /\
      (0 <= ret < Z.min size 0x7FFFFFFF ->
       stream_bytes strm' = [] /\ source strm' = [] /\
       data = stream_bytes strm) /\
      (Z.min size 0x7FFFFFFF <= Z.of_nat (List.length (stream_bytes strm)) ->
       ret = Z.min size 0x7FFFFFFF).
Proof.
  intros strm size Hwf Hsize. unfold istream_read.
  assert (Hcap : (if size >? 0x7FFFFFFF then 0x7FFFFFFF else size)
                 = Z.min size 0x7FFFFFFF)
    by (destruct (Z.gtb_spec size 0x7FFFFFFF); lia).
  rewrite Hcap. clear Hcap. set (want := Z.min size 0x7FFFFFFF) in *.
  assert (Hw : 0 <= want <= 0x7FFFFFFF) by (unfold want; lia).
  clearbody want.
  destruct (istream_read_loop_spec (S (S (List.length (source strm)))) strm []
              want 0 Hwf ltac:(lia) ltac:(lia) ltac:(lia))
    as ([[ret data] strm'] & Hrun & Hpost).
  { right. unfold rounds.
    destruct (buffer_offset strm >=? buffer_used strm); lia. }
  exists ret, data, strm'. split; [exact Hrun|].
  unfold read_post in Hpost. cbn [app] in Hpost.
  set (avail := stream_bytes strm) in *.
  destruct (Z.leb_spec want (Z.of_nat (List.length avail))) as [Hle | Hgt].
  - destruct Hpost as (Hret & Hdata & Hrest).
    assert (Hr : ret = want) by lia. subst ret.
    split; [right; lia|]. split; [lia|]. split; [|split; [lia|]].
    + intros _. split; [|split; assumption].
      rewrite Hdata, length_firstn. lia.
    + intros _. reflexivity.
  - destruct (source_fails (source strm)) eqn:Hf.
    + subst ret. split; [now left|]. split; [reflexivity|].
      split; [lia|]. split; lia.
    + destruct Hpost as (Hret & Hdata & Hrest & Hsrc).
      assert (Hr : ret = Z.of_nat (List.length avail)) by lia.
      split; [right; lia|]. split; [lia|]. split; [|split; [|lia]].
      * intros _. subst data. split; [lia|]. rewrite Hr, Nat2Z.id.
        split; [symmetry; apply firstn_all|].
        rewrite Hrest. symmetry. apply skipn_all.
      * intros _. repeat split; assumption.
Qed.


Lemma istream_read_spec_witness :
  istream_wf sample_stream /\
  exists data strm',
    istream_read sample_stream 4 = Some (4, data, strm') /\
    data = [x02; x03; x04; x05].
Proof.
  assert (Hwf : istream_wf sample_stream).
  { unfold istream_wf, sample_stream. cbn. repeat split; try lia.
    repeat constructor; cbn; lia. }
  split; [exact Hwf|].
  destruct (istream_read_spec sample_stream 4 Hwf ltac:(lia))
    as (ret & data & strm' & Hrun & _ & _ & Hdata & _ & Hfull).
  assert (Hret : ret = 4) by (apply Hfull; vm_compute; discriminate).
  subst ret. exists data, strm'. split; [exact Hrun|].
  destruct (Hdata ltac:(lia)) as (_ & Hd & _). exact Hd.
Defined.

(** ** The line loop *)

Section LineLoopFacts.
Context {F : dir_scan_flags} {U : util_api} {A : fstree_api}.

Lemma loop_blank fuel fs fn text rest bp n err :
  skip_spaces text = [] ->
  fstree_from_file_stream_loop fuel fs
    {| stream_filename := fn; pending := raw_text text :: rest |} fn bp n err
  = fstree_from_file_stream_loop fuel fs
      {| stream_filename := fn; pending := rest |} fn bp (size_t (n + 1)) err.
Proof.
  intros Hb. destruct fuel as [|fuel]; [reflexivity|].
  cbn [fstree_from_file_stream_loop]. unfold istream_get_line.
  cbn [stream_filename pending istream_get_line_from]. rewrite Hb. reflexivity.
Qed.

Lemma get_line_text fn text rest n c line :
  skip_spaces text = c :: line ->
  istream_get_line {| stream_filename := fn; pending := raw_text text :: rest |} n
  = got_line (c :: line) n {| stream_filename := fn; pending := rest |}.
Proof.
  intros H. unfold istream_get_line.
  cbn [stream_filename pending istream_get_line_from]. rewrite H. reflexivity.
Qed.

Lemma loop_prefix fn bp rest :
  forall pre fuel fs n err fs1 n1 err1,
    lines_ok fs fn bp n pre err = Some (fs1, n1, err1) ->
    exists fuel',
      (fuel <= fuel' + List.length pre)%nat /\
      fstree_from_file_stream_loop fuel fs
        {| stream_filename := fn; pending := pre ++ rest |} fn bp n err
      = fstree_from_file_stream_loop fuel' fs1
          {| stream_filename := fn; pending := rest |} fn bp n1 err1.
Proof.
  induction pre as [|r pre IH]; intros fuel fs n err fs1 n1 err1 Hok.
  - cbn [lines_ok] in Hok. inversion Hok; subst.
    exists fuel. split; [cbn; lia | reflexivity].
  - destruct r as [text|]; cbn [lines_ok] in Hok; [|discriminate].
    cbn [app List.length].
    destruct (skip_spaces text) as [|c line] eqn:Hsk.
    + rewrite loop_blank by exact Hsk.
      destruct (IH fuel _ _ _ _ _ _ Hok) as (fuel' & Hf & Hrun).
      exists fuel'. split; [lia | exact Hrun].
    + destruct fuel as [|fuel].
      * exists 0%nat. split; [lia | reflexivity].
      * cbn [fstree_from_file_stream_loop].
        rewrite (get_line_text fn text (pre ++ rest) n c line Hsk).
        destruct (Ascii.eqb (peek (c :: line)) CH_HASH) eqn:Hc; cbn [negb].
        -- destruct (IH fuel _ _ _ _ _ _ Hok) as (fuel' & Hf & Hrun).
           exists fuel'. split; [lia | exact Hrun].
        -- destruct (handle_line fs fn n (c :: line) bp)
             as [[[ret fs'] msgs]|]; [|discriminate].
           destruct (Z.eqb_spec ret 0) as [-> | Hne]; [|discriminate].
           cbn [Z.eqb negb].
           destruct (IH fuel _ _ _ _ _ _ Hok) as (fuel' & Hf & Hrun).
           exists fuel'. split; [lia | exact Hrun].
Qed.

Lemma lines_ok_line_num fn bp :
  forall pre fs n err fs1 n1 err1,
    lines_ok fs fn bp n pre err = Some (fs1, n1, err1) ->
    0 <= n -> n + Z.of_nat (List.length pre) < 2 ^ 64 ->
    n1 = n + Z.of_nat (List.length pre).
Proof.
  induction pre as [|r pre IH]; intros fs n err fs1 n1 err1 Hok Hn Hmax.
  - cbn [lines_ok] in Hok. inversion Hok; subst. cbn. lia.
  - cbn [List.length] in Hmax.
    assert (Hnext : size_t (n + 1) = n + 1)
      by (unfold size_t; apply Z.mod_small; lia).
    destruct r as [text|]; cbn [lines_ok] in Hok; [|discriminate].
    rewrite Hnext in Hok. cbn [List.length].
    destruct (skip_spaces text) as [|c line].
    + rewrite (IH _ _ _ _ _ _ Hok); lia.
    + destruct (Ascii.eqb (peek (c :: line)) CH_HASH).
      * rewrite (IH _ _ _ _ _ _ Hok); lia.
      * destruct (handle_line fs fn n (c :: line) bp)
          as [[[ret fs'] msgs]|]; [|discriminate].
        destruct (ret =? 0); [|discriminate].
        rewrite (IH _ _ _ _ _ _ Hok); lia.
Qed.

Lemma report_located fn n e :
  exists text rest, report fn n e = located fn n text :: rest.
Proof. destruct e; cbn [report]; eexists; eexists; reflexivity. Qed.

End LineLoopFacts.

(** C1. The lines are gone through in order.  When the lines in front have
    passed and [handle_line] fails on a line, be it on parsing the line or
    in the callback, [fstree_from_file_stream] returns -1 at once: the
    lines behind are left in the stream, and the tree and the output are
    those the failing line left.  A parse error is written with the file
    name of the stream and the number of the failing line, counted from 1
    over all lines of the input.  When every line passes, the function
    returns 0 at the end of the input. *)
Theorem fstree_from_file_stream_first_error :
  forall (F : dir_scan_flags) (U : util_api) (A : fstree_api)
         (fs : fstree_t) fn bp pre,
    (forall text post fs1 n1 err1 c line,
        lines_ok fs fn bp 1 pre [] = Some (fs1, n1, err1) ->
        skip_spaces text = c :: line ->
        Ascii.eqb c CH_HASH = false ->
        Z.of_nat (List.length pre) + 1 < 2 ^ 64 ->
        n1 = Z.of_nat (List.length pre) + 1 /\
        (forall ret fs2 msgs,
            handle_line fs1 fn n1 (c :: line) bp = Done (ret, fs2, msgs) ->
            ret <> 0 ->
            fstree_from_file_stream fs
              {| stream_filename := fn;
                 pending := pre ++ raw_text text :: post |} bp
            = Some (Done {| run_ret := -1; run_fs := fs2;
                            run_fp := {| stream_filename := fn;
                                         pending := post |};
                            run_stderr := err1 ++ msgs |})) /\
        (forall e,
            handle_line_fields (c :: line) = inl e ->
            exists msg rest,
              fstree_from_file_stream fs
                {| stream_filename := fn;
                   pending := pre ++ raw_text text :: post |} bp
              = Some (Done {| run_ret := -1; run_fs := fs1;
                              run_fp := {| stream_filename := fn;
                                           pending := post |};
                              run_stderr :=
                                err1 ++
                                located fn (Z.of_nat (List.length pre) + 1) msg
                                :: rest |}))) /\
    (forall fs1 n1 err1,
        lines_ok fs fn bp 1 pre [] = Some (fs1, n1, err1) ->
        fstree_from_file_stream fs
          {| stream_filename := fn; pending := pre |} bp
        = Some (Done {| run_ret := 0; run_fs := fs1;
                        run_fp := {| stream_filename := fn; pending := [] |};
                        run_stderr := err1 |})).
Proof.
  intros F U A fs fn bp pre. split.
  - intros text post fs1 n1 err1 c line Hok Hsk Hc Hmax.
    assert (Hn1 : n1 = Z.of_nat (List.length pre) + 1).
    { rewrite (lines_ok_line_num fn bp pre _ _ _ _ _ _ Hok); lia. }
    assert (Hstop : forall ret fs2 msgs,
               handle_line fs1 fn n1 (c :: line) bp = Done (ret, fs2, msgs) ->
               ret <> 0 ->
               fstree_from_file_stream fs
                 {| stream_filename := fn;
                    pending := pre ++ raw_text text :: post |} bp
               = Some (Done {| run_ret := -1; run_fs := fs2;
                               run_fp := {| stream_filename := fn;
                                            pending := post |};
                               run_stderr := err1 ++ msgs |})).
    { intros ret fs2 msgs Hh Hret. unfold fstree_from_file_stream.
      cbn [pending istream_get_filename stream_filename].
      destruct (loop_prefix fn bp (raw_text text :: post) pre
                  (S (List.length (pre ++ raw_text text :: post)))
                  fs 1 [] fs1 n1 err1 Hok) as (fuel' & Hf & Hrun).
      rewrite Hrun. rewrite length_app in Hf. cbn [List.length] in Hf.
      destruct fuel' as [|fuel']; [lia|].
      cbn [fstree_from_file_stream_loop].
      rewrite (get_line_text fn text post n1 c line Hsk).
      cbn [peek]. rewrite Hc. cbn [negb]. rewrite Hh.
      destruct (Z.eqb_spec ret 0); [contradiction | reflexivity]. }
    split; [exact Hn1|]. split; [exact Hstop|].
    intros e He.
    destruct (report_located fn n1 e) as (msg & rest & Hrep).
    exists msg, rest. rewrite <- Hn1, <- Hrep.
    apply (Hstop (-1)); [|discriminate].
    unfold handle_line. rewrite He. reflexivity.
  - intros fs1 n1 err1 Hok. unfold fstree_from_file_stream.
    cbn [pending istream_get_filename stream_filename].
    destruct (loop_prefix fn bp [] pre (S (List.length pre))
                fs 1 [] fs1 n1 err1 Hok) as (fuel' & Hf & Hrun).
    rewrite app_nil_r in Hrun. rewrite Hrun.
    destruct fuel' as [|fuel']; [lia|]. reflexivity.
Qed.

Lemma fstree_from_file_stream_first_error_witness :
  exists fs2,
    fstree_from_file_stream (F := sample_flags) (U := sample_util)
      (A := sample_fstree) []
      {| stream_filename := cstr "list.txt"; pending := sample_description |}
      None
    = Some (Done {| run_ret := -1; run_fs := fs2;
                    run_fp := {| stream_filename := cstr "list.txt";
                                 pending := [raw_text (cstr "dir /d 0755 0 0")] |};
                    run_stderr :=
                      [ located (cstr "list.txt") 5
                          (cstr "mode must be an octal number <= 07777.");
                        usage_line ] |}).
Proof.
  destruct (fstree_from_file_stream_first_error sample_flags sample_util
              sample_fstree [] (cstr "list.txt") None
              (firstn 4 sample_description)) as [H _].
  destruct (H (cstr "dir /c 0799 0 0") [raw_text (cstr "dir /d 0755 0 0")]
              [(cstr "a", 0x41ED); (cstr "a/b", 0x81A4)] 5 []
              "d"%char (cstr "ir /c 0799 0 0")
              eq_refl eq_refl eq_refl ltac:(cbn; lia)) as (_ & Hstop & _).
  eexists. apply (Hstop (-1)); [reflexivity | discriminate].
Defined.

(** ** Skipping and splicing *)

Section SkipFacts.

Lemma skip_post_same fn strm1 strm size r :
  stream_bytes strm1 = stream_bytes strm ->
  source_fails (source strm1) = source_fails (source strm) ->
  skip_post fn strm1 size r -> skip_post fn strm size r.
Proof.
  intros Hb Hf. unfold skip_post. destruct r as [[ret strm'] msgs].
  rewrite Hb, Hf. exact (fun H => H).
Qed.

(** A round that skips, followed by the rounds that are left. *)
Lemma skip_round fuel fn :
  (forall strm size,
      istream_wf strm -> 0 <= size < 2 ^ 64 ->
      size = 0 \/ (rounds strm <= fuel)%nat ->
      exists r, istream_skip_loop fuel fn strm size = Some r /\
                skip_post fn strm size r) ->
  forall strm size,
    istream_wf strm -> buffer_offset strm < buffer_used strm ->
    0 < size < 2 ^ 64 ->
    (List.length (source strm) + 1 <= fuel)%nat ->
    exists r,
      istream_skip_loop fuel fn
        (copy_advance strm (copy_len strm size))
        (u64 (size - copy_len strm size))
      = Some r /\
      skip_post fn strm size r.
Proof.
  intros IH strm size Hwf Hlt Hsize Hfuel.
  destruct (copy_step strm size Hwf Hlt ltac:(lia))
    as (Hdiff & Hdlen & _ & Hwf2 & Hbuf2 & Hup).
  assert (Hsrc2 : source (copy_advance strm (copy_len strm size)) = source strm)
    by reflexivity.
  generalize dependent (copy_advance strm (copy_len strm size)).
  generalize dependent (copy_len strm size).
  intros diff Hdiff Hdlen strm2 Hwf2 Hbuf2 Hup Hsrc2.
  assert (Hrest : u64 (size - diff) = size - diff)
    by (unfold u64; apply Z.mod_small; lia).
  rewrite Hrest.
  destruct (IH strm2 (size - diff) Hwf2 ltac:(lia)) as (r & Hrun & Hpost).
  { destruct (Z.eq_dec diff size) as [-> | Hne]; [left; lia | right].
    unfold rounds. rewrite Hsrc2.
    destruct (Z.geb_spec (buffer_offset strm2) (buffer_used strm2)); [lia|].
    specialize (Hup ltac:(lia)). lia. }
  exists r. split; [exact Hrun|].
  unfold skip_post in *. destruct r as [[ret strm'] msgs].
  assert (Hbytes2 : stream_bytes strm2
                    = skipn (Z.to_nat diff) (stream_bytes strm)).
  { unfold stream_bytes. rewrite Hbuf2, Hsrc2.
    rewrite skipn_app.
    replace (Z.to_nat diff - List.length (buffered strm))%nat with 0%nat by lia.
    reflexivity. }
  assert (Hlen : (Z.to_nat diff <= List.length (stream_bytes strm))%nat).
  { unfold stream_bytes. rewrite length_app. lia. }
  rewrite Hbytes2 in Hpost. rewrite length_skipn in Hpost.
  rewrite Hsrc2 in Hpost.
  destruct (Z.leb_spec size (Z.of_nat (List.length (stream_bytes strm))))
    as [Hle | Hgt].
  - destruct (Z.leb_spec (size - diff)
                (Z.of_nat (List.length (stream_bytes strm) - Z.to_nat diff)));
      [|lia].
    destruct Hpost as (Hret & Hmsgs & Hwf' & Hrest' & Hf').
    split; [exact Hret|]. split; [exact Hmsgs|]. split; [exact Hwf'|].
    split; [|exact Hf'].
    rewrite Hrest'.
    replace (Z.to_nat size) with (Z.to_nat diff + Z.to_nat (size - diff))%nat
      by lia.
    apply eq_sym, skipn_add.
  - destruct (Z.leb_spec (size - diff)
                (Z.of_nat (List.length (stream_bytes strm) - Z.to_nat diff)));
      [lia|].
    exact Hpost.
Qed.

Lemma skip_len_copy_len strm size :
  istream_wf strm -> buffer_offset strm < buffer_used strm ->
  0 < size < 2 ^ 64 ->
  (if u64 (size_t (buffer_used strm - buffer_offset strm)) >? size
   then size_t size
   else size_t (buffer_used strm - buffer_offset strm))
  = copy_len strm size.
Proof.
  intros (Ho & Hu & Hmax & _) Hlt Hsize. unfold copy_len, u64, size_t.
  rewrite (Z.mod_small (buffer_used strm - buffer_offset strm)) by lia.
  rewrite (Z.mod_small (buffer_used strm - buffer_offset strm)) by lia.
  rewrite (Z.mod_small size) by lia. reflexivity.
Qed.

Lemma skip_body_eq fuel fn strm size :
  istream_wf strm -> buffer_offset strm < buffer_used strm ->
  0 < size < 2 ^ 64 ->
  (let diff0 := size_t (buffer_used strm - buffer_offset strm) in
   let diff := if u64 diff0 >? size then size_t size else diff0 in
   istream_skip_loop fuel fn
     {| buffer := buffer strm;
        buffer_used := buffer_used strm;
        buffer_offset := size_t (buffer_offset strm + diff);
        source := source strm |}
     (u64 (size - diff)))
  = istream_skip_loop fuel fn (copy_advance strm (copy_len strm size))
      (u64 (size - copy_len strm size)).
Proof.
  intros Hwf Hlt Hsize. cbv zeta.
  rewrite (skip_len_copy_len strm size Hwf Hlt Hsize). reflexivity.
Qed.

Lemma istream_skip_loop_spec fuel fn :
  forall strm size,
    istream_wf strm -> 0 <= size < 2 ^ 64 ->
    size = 0 \/ (rounds strm <= fuel)%nat ->
    exists r, istream_skip_loop fuel fn strm size = Some r /\
              skip_post fn strm size r.
Proof.
  induction fuel as [|fuel IH]; intros strm size Hwf Hsize Hfuel.
  - destruct Hfuel as [-> | Hfuel]; [|unfold rounds in Hfuel;
      destruct (buffer_offset strm >=? buffer_used strm); lia].
    exists (0, strm, []). split; [reflexivity|].
    unfold skip_post.
    destruct (Z.leb_spec 0 (Z.of_nat (List.length (stream_bytes strm)))); [|lia].
    cbn [Z.to_nat skipn].
    split; [reflexivity|]. split; [reflexivity|]. split; [exact Hwf|].
    split; reflexivity.
  - destruct (Z.eq_dec size 0) as [-> | Hnz].
    + exists (0, strm, []). split; [reflexivity|].
      unfold skip_post.
      destruct (Z.leb_spec 0 (Z.of_nat (List.length (stream_bytes strm)))); [|lia].
      cbn [Z.to_nat skipn].
    split; [reflexivity|]. split; [reflexivity|]. split; [exact Hwf|].
    split; reflexivity.
    + destruct Hfuel as [? | Hfuel]; [contradiction|].
      cbn [istream_skip_loop].
      destruct (Z.gtb_spec size 0) as [_ | ?]; [|lia].
      unfold rounds in Hfuel.
      destruct (Z.geb_spec (buffer_offset strm) (buffer_used strm))
        as [Hup | Hunread].
      * pose proof (buffered_used_up strm ltac:(lia)) as Hkeep.
        unfold istream_precache. rewrite Hkeep.
        destruct (source strm) as [|[b bs|] src] eqn:Hsrc.
        -- cbn [List.length Z.of_nat Z.eqb negb andb buffer_used].
           eexists. split; [reflexivity|].
           unfold skip_post, stream_bytes. rewrite Hkeep, Hsrc.
           cbn [source_bytes app List.length Z.of_nat source_fails existsb].
           destruct (Z.leb_spec size 0); [lia|]. split; reflexivity.
        -- destruct (source_wf_tail strm _ _ Hwf Hsrc) as [Hfit Hrest].
           cbn [refill_fits] in Hfit.
           cbn [app Z.eqb negb andb buffer_used].
           set (strm1 := {| buffer := b :: bs;
                            buffer_used := Z.of_nat (List.length (b :: bs));
                            buffer_offset := 0; source := src |}).
           assert (Hwf1 : istream_wf strm1).
           { unfold istream_wf, strm1.
             cbn [buffer buffer_used buffer_offset source List.length].
             repeat split; try lia. exact Hrest. }
           destruct (Z.eqb_spec (Z.of_nat (List.length (b :: bs))) 0) as [E | _];
             [cbn [List.length] in E; lia|].
           assert (Hlt1 : buffer_offset strm1 < buffer_used strm1)
             by (unfold strm1; cbn [buffer_used buffer_offset List.length]; lia).
           destruct (skip_round fuel fn IH strm1 size Hwf1 Hlt1 ltac:(lia))
             as (r & Hrun & Hpost).
           { unfold strm1. cbn [source]. cbn [List.length] in Hfuel. lia. }
           exists r. split.
           ++ exact (eq_trans (skip_body_eq fuel fn strm1 size Hwf1 Hlt1
                                 ltac:(lia)) Hrun).
           ++ apply (skip_post_same fn strm1); [| |exact Hpost].
              ** unfold stream_bytes. rewrite Hkeep, Hsrc.
                 unfold strm1, buffered.
                 cbn [buffer buffer_used buffer_offset source source_bytes
                      Z.to_nat skipn app].
                 rewrite Z.sub_0_r, Nat2Z.id, firstn_all. reflexivity.
              ** rewrite Hsrc. reflexivity.
        -- cbn [Z.eqb negb].
           eexists. split; [reflexivity|].
           unfold skip_post, stream_bytes. rewrite Hkeep, Hsrc.
           cbn [source_bytes app List.length Z.of_nat source_fails existsb orb].
           destruct (Z.leb_spec size 0); [lia | split; reflexivity].
      * cbn [Z.eqb negb andb].
        destruct (skip_round fuel fn IH strm size Hwf ltac:(lia) ltac:(lia))
          as (r & Hrun & Hpost); [lia|].
        exists r. split; [|exact Hpost].
        exact (eq_trans (skip_body_eq fuel fn strm size Hwf ltac:(lia)
                           ltac:(lia)) Hrun).
Qed.

End SkipFacts.

Section ReadMore.

(** The loop of [istream_read] leaves a stream that fits its buffer. *)
Lemma istream_read_loop_wf fuel :
  forall strm data size total r,
    istream_wf strm ->
    istream_read_loop fuel strm data size total = Some r ->
    istream_wf (snd r).
Proof.
  induction fuel as [|fuel IH]; intros strm data size total r Hwf Hrun;
    cbn [istream_read_loop] in Hrun.
  - destruct (size >? 0); [discriminate|]. inversion Hrun; subst. exact Hwf.
  - destruct (Z.gtb_spec size 0) as [Hpos | _];
      [|inversion Hrun; subst; exact Hwf].
    destruct (Z.geb_spec (buffer_offset strm) (buffer_used strm))
      as [Hup | Hunread].
    + pose proof (buffered_used_up strm ltac:(lia)) as Hkeep.
      unfold istream_precache in Hrun. rewrite Hkeep in Hrun.
      destruct (source strm) as [|[b bs|] src] eqn:Hsrc.
      * cbn [List.length Z.of_nat Z.eqb negb andb buffer_used] in Hrun.
        inversion Hrun; subst. cbn [snd].
        unfold istream_wf. cbn. repeat split; try lia. constructor.
      * destruct (source_wf_tail strm _ _ Hwf Hsrc) as [Hfit Hrest].
        cbn [refill_fits] in Hfit.
        cbn [app Z.eqb negb andb buffer_used] in Hrun.
        set (strm1 := {| buffer := b :: bs;
                         buffer_used := Z.of_nat (List.length (b :: bs));
                         buffer_offset := 0; source := src |}) in *.
        assert (Hwf1 : istream_wf strm1).
        { unfold istream_wf, strm1.
          cbn [buffer buffer_used buffer_offset source List.length].
          repeat split; try lia. exact Hrest. }
        destruct (Z.eqb_spec (Z.of_nat (List.length (b :: bs))) 0) as [E | _];
          [cbn [List.length] in E; lia|].
        assert (Hlt1 : buffer_offset strm1 < buffer_used strm1)
          by (unfold strm1; cbn [buffer_used buffer_offset List.length]; lia).
        destruct (copy_step strm1 size Hwf1 Hlt1 ltac:(lia))
          as (_ & _ & _ & Hwf2 & _).
        exact (IH (copy_advance strm1 (copy_len strm1 size)) _ _ _ r Hwf2 Hrun).
      * destruct (source_wf_tail strm _ _ Hwf Hsrc) as [_ Hrest].
        cbn [Z.eqb negb] in Hrun. inversion Hrun; subst. cbn [snd].
        unfold istream_wf. cbn. repeat split; try lia. exact Hrest.
    + cbn [Z.eqb negb andb] in Hrun.
      destruct (copy_step strm size Hwf ltac:(lia) ltac:(lia))
        as (_ & _ & _ & Hwf2 & _).
      exact (IH (copy_advance strm (copy_len strm size)) _ _ _ r Hwf2 Hrun).
Qed.

(** What [istream_read] gives, in the words of the loop. *)
Lemma istream_read_post strm size :
  istream_wf strm -> 0 <= size < 2 ^ 64 ->
  exists r,
    istream_read strm size = Some r /\
    read_post strm [] (Z.min size 0x7FFFFFFF) 0 r /\
    istream_wf (snd r).
Proof.
  intros Hwf Hsize. unfold istream_read.
  assert (Hcap : (if size >? 0x7FFFFFFF then 0x7FFFFFFF else size)
                 = Z.min size 0x7FFFFFFF)
    by (destruct (Z.gtb_spec size 0x7FFFFFFF); lia).
  rewrite Hcap.
  destruct (istream_read_loop_spec (S (S (List.length (source strm)))) strm []
              (Z.min size 0x7FFFFFFF) 0 Hwf ltac:(lia) ltac:(lia) ltac:(lia))
    as (r & Hrun & Hpost).
  { right. unfold rounds.
    destruct (buffer_offset strm >=? buffer_used strm); lia. }
  exists r. split; [exact Hrun|]. split; [exact Hpost|].
  exact (istream_read_loop_wf _ _ _ _ _ _ Hwf Hrun).
Qed.

End ReadMore.

(** X1. [istream_skip] always returns.  It returns 0 exactly when the
    stream holds [size] more bytes before its end or first read error; the
    stream is then moved on by just these bytes and nothing is written to
    [stderr].  Otherwise it returns -1: without a message when the file
    runs into a read error, with the end-of-file message under the file
    name of the stream when the file ends. *)
Theorem istream_skip_spec :
  forall fn strm size,
    istream_wf strm -> 0 <= size < 2 ^ 64 ->
    exists ret strm' msgs,
      istream_skip fn strm size = Some (ret, strm', msgs) /\
      (ret = 0 <-> size <= Z.of_nat (List.length (stream_bytes strm))) /\
      (ret = 0 ->
       msgs = [] /\ istream_wf strm' /\
       stream_bytes strm' = skipn (Z.to_nat size) (stream_bytes strm)) /\
      (ret <> 0 ->
       ret = -1 /\
       msgs = if source_fails (source strm) then []
              else [plain (fn ++ cstr ": unexpected end-of-file")]).
Proof.
  intros fn strm size Hwf Hsize. unfold istream_skip.
  destruct (istream_skip_loop_spec (S (S (List.length (source strm)))) fn strm
              size Hwf Hsize) as ([[ret strm'] msgs] & Hrun & Hpost).
  { right. unfold rounds.
    destruct (buffer_offset strm >=? buffer_used strm); lia. }
  exists ret, strm', msgs. split; [exact Hrun|].
  unfold skip_post in Hpost.
  destruct (Z.leb_spec size (Z.of_nat (List.length (stream_bytes strm))))
    as [Hle | Hgt].
  - destruct Hpost as (Hret & Hmsgs & Hwf' & Hrest & _).
    split; [split; intros; assumption|].
    split; [intros _; split; [exact Hmsgs|]; split; [exact Hwf' | exact Hrest]|].
    intros Hne. contradiction.
  - destruct (source_fails (source strm)); destruct Hpost as [Hret Hmsgs];
      (split; [split; intros; lia|]); (split; [intros; lia|]);
      intros _; split; assumption.
Qed.

Lemma istream_skip_spec_witness :
  istream_wf sample_stream /\
  exists strm',
    istream_skip (cstr "in.bin") sample_stream 3 = Some (0, strm', []) /\
    stream_bytes strm' = [x05; x06].
Proof.
  assert (Hwf : istream_wf sample_stream).
  { unfold istream_wf, sample_stream. cbn. repeat split; try lia.
    repeat constructor; cbn; lia. }
  split; [exact Hwf|].
  destruct (istream_skip_spec (cstr "in.bin") sample_stream 3 Hwf ltac:(lia))
    as (ret & strm' & msgs & Hrun & Hiff & Hok & _).
  assert (Hret : ret = 0) by (apply Hiff; vm_compute; discriminate).
  subst ret. destruct (Hok eq_refl) as (-> & _ & Hrest).
  exists strm'. split; [exact Hrun | exact Hrest].
Defined.

(** X2. A read behind a successful skip delivers the bytes of the stream
    that follow the skipped ones, and as many as were asked for (at most
    2^31 - 1) when the stream holds them. *)
Theorem istream_read_after_skip :
  forall fn strm n m strm1 msgs,
    istream_wf strm -> 0 <= n < 2 ^ 64 -> 0 <= m < 2 ^ 64 ->
    istream_skip fn strm n = Some (0, strm1, msgs) ->
    exists ret data strm2,
      istream_read strm1 m = Some (ret, data, strm2) /\
      (0 <= ret ->
       data = firstn (Z.to_nat ret) (skipn (Z.to_nat n) (stream_bytes strm)) /\
       stream_bytes strm2
         = skipn (Z.to_nat n + Z.to_nat ret) (stream_bytes strm)) /\
      (n + Z.min m 0x7FFFFFFF <= Z.of_nat (List.length (stream_bytes strm)) ->
       ret = Z.min m 0x7FFFFFFF).
Proof.
  intros fn strm n m strm1 msgs Hwf Hn Hm Hskip.
  unfold istream_skip in Hskip.
  destruct (istream_skip_loop_spec (S (S (List.length (source strm)))) fn strm
              n Hwf Hn) as (r & Hrun & Hpost).
  { right. unfold rounds.
    destruct (buffer_offset strm >=? buffer_used strm); lia. }
  rewrite Hskip in Hrun. inversion Hrun; subst r. clear Hrun.
  unfold skip_post in Hpost.
  destruct (Z.leb_spec n (Z.of_nat (List.length (stream_bytes strm))))
    as [Hle | Hgt].
  2:{ destruct (source_fails (source strm)); destruct Hpost; discriminate. }
  destruct Hpost as (_ & _ & Hwf1 & Hbytes1 & _).
  destruct (istream_read_post strm1 m Hwf1 Hm) as ([[ret data] strm2] & Hread
                                                   & Hpost & _).
  exists ret, data, strm2. split; [exact Hread|].
  unfold read_post in Hpost. cbn [app] in Hpost.
  rewrite Hbytes1 in Hpost. rewrite length_skipn in Hpost.
  set (avail := stream_bytes strm) in *.
  set (want := Z.min m 0x7FFFFFFF) in *.
  assert (Hw : 0 <= want) by (unfold want; lia). clearbody want.
  destruct (Z.leb_spec want
              (Z.of_nat (List.length avail - Z.to_nat n))) as [Hfit | Hshort].
  - destruct Hpost as (Hret & Hdata & Hrest).
    assert (Hr : ret = want) by lia. subst ret.
    split; [|intros _; reflexivity].
    intros _. split; [exact Hdata|].
    rewrite Hrest. symmetry. apply skipn_add.
  - split; [|intros; lia].
    intros Hret. destruct (source_fails (source strm1)); [lia|].
    destruct Hpost as (Hr & Hdata & Hrest & _).
    assert (Hr' : Z.to_nat ret = (List.length avail - Z.to_nat n)%nat) by lia.
    rewrite Hr', Hdata, Hrest. split.
    + rewrite <- (length_skipn (Z.to_nat n) avail). symmetry. apply firstn_all.
    + symmetry. apply skipn_all2. lia.
Qed.

Lemma istream_read_after_skip_witness :
  exists strm1 data strm2,
    istream_skip (cstr "in.bin") sample_stream 1 = Some (0, strm1, []) /\
    istream_read strm1 2 = Some (2, data, strm2) /\
    data = [x03; x04].
Proof.
  assert (Hwf : istream_wf sample_stream).
  { unfold istream_wf, sample_stream. cbn. repeat split; try lia.
    repeat constructor; cbn; lia. }
  destruct (istream_skip (cstr "in.bin") sample_stream 1)
    as [[[ret strm1] msgs]|] eqn:Hskip; [|discriminate].
  assert (E : ret = 0 /\ msgs = []) by (vm_compute in Hskip; inversion Hskip; auto).
  destruct E as [-> ->].
  destruct (istream_read_after_skip (cstr "in.bin") sample_stream 1 2 strm1 []
              Hwf ltac:(lia) ltac:(lia) Hskip)
    as (ret & data & strm2 & Hread & Hdata & Hfull).
  assert (Hret : ret = 2) by (apply Hfull; vm_compute; discriminate).
  subst ret. exists strm1, data, strm2. split; [reflexivity|].
  split; [exact Hread|]. destruct (Hdata ltac:(lia)) as [Hd _]. exact Hd.
Defined.

(** X3. Two reads in a row deliver one run of the stream: the bytes of the
    second read follow those of the first, and the stream ends up behind
    both. *)
Theorem istream_read_twice :
  forall strm a b r1 d1 strm1,
    istream_wf strm -> 0 <= a < 2 ^ 64 -> 0 <= b < 2 ^ 64 ->
    istream_read strm a = Some (r1, d1, strm1) -> 0 <= r1 ->
    exists r2 d2 strm2,
      istream_read strm1 b = Some (r2, d2, strm2) /\
      (0 <= r2 ->
       d1 ++ d2 = firstn (Z.to_nat (r1 + r2)) (stream_bytes strm) /\
       Z.of_nat (List.length (d1 ++ d2)) = r1 + r2 /\
       stream_bytes strm2 = skipn (Z.to_nat (r1 + r2)) (stream_bytes strm)).
Proof.
  intros strm a b r1 d1 strm1 Hwf Ha Hb Hread1 Hr1.
  destruct (istream_read_post strm a Hwf Ha) as (r & Hrun & Hpost & Hwf1).
  rewrite Hread1 in Hrun. inversion Hrun; subst r. clear Hrun.
  cbn [snd] in Hwf1.
  assert (H1 : (Z.to_nat r1 <= List.length (stream_bytes strm))%nat /\
               d1 = firstn (Z.to_nat r1) (stream_bytes strm) /\
               stream_bytes strm1 = skipn (Z.to_nat r1) (stream_bytes strm)).
  { unfold read_post in Hpost. cbn [app] in Hpost.
    destruct (Z.leb_spec (Z.min a 0x7FFFFFFF)
                (Z.of_nat (List.length (stream_bytes strm)))).
    - destruct Hpost as (Hr & Hd & Hs). cbn in Hr. subst r1.
      split; [lia|]. split; assumption.
    - destruct (source_fails (source strm)); [lia|].
      destruct Hpost as (Hr & Hd & Hs & _). cbn in Hr. subst r1.
      rewrite Nat2Z.id. split; [lia|]. split.
      + rewrite Hd. symmetry. apply firstn_all.
      + rewrite Hs. symmetry. apply skipn_all. }
  destruct H1 as (Hlen1 & Hd1 & Hs1).
  destruct (istream_read_post strm1 b Hwf1 Hb)
    as ([[r2 d2] strm2] & Hread2 & Hpost2 & _).
  exists r2, d2, strm2. split; [exact Hread2|].
  intros Hr2.
  assert (H2 : (Z.to_nat r2 <= List.length (stream_bytes strm1))%nat /\
               d2 = firstn (Z.to_nat r2) (stream_bytes strm1) /\
               stream_bytes strm2 = skipn (Z.to_nat r2) (stream_bytes strm1)).
  { unfold read_post in Hpost2. cbn [app] in Hpost2.
    destruct (Z.leb_spec (Z.min b 0x7FFFFFFF)
                (Z.of_nat (List.length (stream_bytes strm1)))).
    - destruct Hpost2 as (Hr & Hd & Hs). cbn in Hr. subst r2.
      split; [lia|]. split; assumption.
    - destruct (source_fails (source strm1)); [lia|].
      destruct Hpost2 as (Hr & Hd & Hs & _). cbn in Hr. subst r2.
      rewrite Nat2Z.id. split; [lia|]. split.
      + rewrite Hd. symmetry. apply firstn_all.
      + rewrite Hs. symmetry. apply skipn_all. }
  destruct H2 as (Hlen2 & Hd2 & Hs2).
  rewrite Hs1 in Hd2, Hs2, Hlen2. rewrite length_skipn in Hlen2.
  replace (Z.to_nat (r1 + r2)) with (Z.to_nat r1 + Z.to_nat r2)%nat by lia.
  split; [|split].
  - rewrite Hd1, Hd2. symmetry. apply firstn_add.
  - rewrite Hd1, Hd2, length_app, !length_firstn, length_skipn. lia.
  - rewrite Hs2. symmetry. apply skipn_add.
Qed.

Lemma istream_read_twice_witness :
  exists d1 strm1 d2 strm2,
    istream_read sample_stream 3 = Some (3, d1, strm1) /\
    istream_read strm1 2 = Some (2, d2, strm2) /\
    d1 ++ d2 = [x02; x03; x04; x05; x06].
Proof.
  assert (Hwf : istream_wf sample_stream).
  { unfold istream_wf, sample_stream. cbn. repeat split; try lia.
    repeat constructor; cbn; lia. }
  destruct (istream_read sample_stream 3) as [[[r1 d1] strm1]|] eqn:Hread1;
    [|discriminate].
  assert (E : r1 = 3) by (vm_compute in Hread1; inversion Hread1; auto).
  subst r1.
  destruct (istream_read_twice sample_stream 3 2 3 d1 strm1 Hwf ltac:(lia)
              ltac:(lia) Hread1 ltac:(lia))
    as (r2 & d2 & strm2 & Hread2 & Hcat).
  assert (E : r2 = 2).
  { assert (Hs : strm1 = {| buffer := [x04; x05]; buffer_used := 2;
                            buffer_offset := 1;
                            source := [refill_data x06 []; refill_error] |})
      by (vm_compute in Hread1; inversion Hread1; reflexivity).
    subst strm1. vm_compute in Hread2. inversion Hread2; auto. }
  subst r2. exists d1, strm1, d2, strm2.
  split; [reflexivity|]. split; [exact Hread2|].
  destruct (Hcat ltac:(lia)) as [H _]. exact H.
Defined.

Section SpliceFacts.
Context {OS : Ostream.ostream_api}.
Variable written : Ostream.ostream_t -> list byte.
Hypothesis append_written :
  forall o d o', Ostream.append o d = (0, o') -> written o' = written o ++ d.

(** [istream_splice] goes through the rounds of [istream_read] and hands
    every chunk to the output stream. *)
Lemma splice_follows_read fuel :
  forall strm data size total out r data' strm',
    0 <= size < 2 ^ 32 ->
    istream_read_loop fuel strm data size total = Some (r, data', strm') ->
    exists r' strm'' out',
      istream_splice_loop fuel strm out size total = Some (r', strm'', out') /\
      ((r' = r /\ strm'' = strm' /\
        exists d, data' = data ++ d /\ written out' = written out ++ d) \/
       (r' = -1 /\ exists o d, fst (Ostream.append o d) <> 0)).
Proof.
  induction fuel as [|fuel IH];
    intros strm data size total out r data' strm' Hsize Hrun;
    cbn [istream_read_loop] in Hrun; cbn [istream_splice_loop].
  - destruct (size >? 0); [discriminate|]. inversion Hrun; subst.
    eexists _, _, _. split; [reflexivity|]. left.
    repeat split. exists []. rewrite !app_nil_r. now split.
  - destruct (Z.gtb_spec size 0) as [Hpos | _].
    2:{ inversion Hrun; subst. eexists _, _, _. split; [reflexivity|]. left.
        repeat split. exists []. rewrite !app_nil_r. now split. }
    destruct (if buffer_offset strm >=? buffer_used strm
              then istream_precache strm else (0, strm)) as [ret strm1].
    destruct (negb (ret =? 0)).
    { inversion Hrun; subst. eexists _, _, _. split; [reflexivity|]. left.
      repeat split. exists []. rewrite !app_nil_r. now split. }
    destruct ((buffer_offset strm >=? buffer_used strm) &&
              (buffer_used strm1 =? 0)).
    { inversion Hrun; subst. eexists _, _, _. split; [reflexivity|]. left.
      repeat split. exists []. rewrite !app_nil_r. now split. }
    cbv zeta in Hrun |- *.
    set (diff0 := size_t (buffer_used strm1 - buffer_offset strm1)) in *.
    assert (Hd0 : 0 <= diff0)
      by (unfold diff0, size_t; apply Z.mod_pos_bound; lia).
    set (diff := if diff0 >? size then size else diff0) in *.
    assert (Hd : 0 <= diff <= size)
      by (unfold diff; destruct (Z.gtb_spec diff0 size); lia).
    clearbody diff. clear Hd0. clearbody diff0.
    set (chunk := firstn (Z.to_nat diff)
                    (skipn (Z.to_nat (buffer_offset strm1)) (buffer strm1))) in *.
    unfold Ostream.ostream_append.
    destruct (Ostream.append out chunk) as [aret out1] eqn:Happ.
    destruct (Z.eqb_spec aret 0) as [-> | Hfail]; cbn [negb].
    + assert (Hrest : u32 (size - diff) = size - diff)
        by (unfold u32; apply Z.mod_small; lia).
      rewrite Hrest.
      destruct (IH _ _ (size - diff) _ out1 _ _ _ ltac:(lia) Hrun)
        as (r' & strm'' & out' & Hsplice & Hres).
      exists r', strm'', out'. split; [exact Hsplice|].
      destruct Hres as [(Hr & Hs & d & Hdata & Hout) | Hbad]; [left | now right].
      split; [exact Hr|]. split; [exact Hs|].
      exists (chunk ++ d). split.
      * rewrite Hdata, app_assoc. reflexivity.
      * rewrite Hout, (append_written _ _ _ Happ), app_assoc. reflexivity.
    + eexists _, _, _. split; [reflexivity|]. right.
      split; [reflexivity|]. exists out, chunk. rewrite Happ. exact Hfail.
Qed.

End SpliceFacts.

(** X4. [istream_splice] moves what [istream_read] would have read: on a
    stream and an output stream that keeps what is appended to it, it
    either fails with -1 because an append failed, or returns what
    [istream_read] returns for the same request, leaves the input stream
    as [istream_read] leaves it, and has appended the bytes
    [istream_read] delivers.  With an output stream that never fails it is
    the second. *)
Theorem istream_splice_reads :
  forall (OS : Ostream.ostream_api) (written : Ostream.ostream_t -> list byte),
    (forall o d o', Ostream.append o d = (0, o') ->
                    written o' = written o ++ d) ->
    forall strm out size,
      istream_wf strm -> 0 <= size < 2 ^ 32 ->
      exists r data strm' r' strm'' out',
        istream_read strm size = Some (r, data, strm') /\
        istream_splice strm out size = Some (r', strm'', out') /\
        ((r' = r /\ strm'' = strm' /\ written out' = written out ++ data) \/
         (r' = -1 /\ exists o d, fst (Ostream.append o d) <> 0)) /\
        ((forall o d, fst (Ostream.append o d) = 0) ->
         r' = r /\ strm'' = strm' /\ written out' = written out ++ data).
Proof.
  intros OS written Hw strm out size Hwf Hsize.
  destruct (istream_read_post strm size Hwf ltac:(lia))
    as ([[r data] strm'] & Hread & _ & _).
  exists r, data, strm'.
  assert (Hcap : 0 <= (if size >? 0x7FFFFFFF then 0x7FFFFFFF else size) < 2 ^ 32)
    by (destruct (Z.gtb_spec size 0x7FFFFFFF); lia).
  unfold istream_read in Hread.
  destruct (splice_follows_read written Hw _ strm [] _ 0 out r data strm' Hcap
              Hread) as (r' & strm'' & out' & Hsplice & Hres).
  exists r', strm'', out'. split; [exact Hread|]. split; [exact Hsplice|].
  assert (Hagree : r' = r /\ strm'' = strm' /\
                   (exists d, data = [] ++ d /\ written out' = written out ++ d) ->
                   r' = r /\ strm'' = strm' /\ written out' = written out ++ data).
  { intros (Hr & Hs & d & Hd & Ho). cbn [app] in Hd. subst d. auto. }
  split.
  - destruct Hres as [Hok | Hbad]; [left; apply Hagree; exact Hok | now right].
  - intros Hnever. destruct Hres as [Hok | (_ & o & d & Hbad)];
      [apply Hagree; exact Hok|].
    exfalso. apply Hbad, Hnever.
Qed.

Lemma istream_splice_reads_witness :
  exists strm',
    istream_splice (OS := sample_ostream) sample_stream [x00] 4
    = Some (4, strm', [x00; x02; x03; x04; x05]).
Proof.
  assert (Hwf : istream_wf sample_stream).
  { unfold istream_wf, sample_stream. cbn. repeat split; try lia.
    repeat constructor; cbn; lia. }
  destruct (istream_splice_reads sample_ostream (fun o => o)
              ltac:(intros o d o' H; cbn in H; inversion H; reflexivity)
              sample_stream [x00] 4 Hwf ltac:(lia))
    as (r & data & strm' & r' & strm'' & out' & Hread & Hsplice & _ & Hok).
  destruct (Hok ltac:(reflexivity)) as (Hr & Hs & Ho).
  assert (E : r = 4 /\ data = [x02; x03; x04; x05])
    by (vm_compute in Hread; inversion Hread; auto).
  destruct E as [-> ->]. subst r'. exists strm''.
  rewrite Hsplice, Ho. reflexivity.
Defined.

(** ** White space, fields and the bounds of the string functions *)

Section FieldFacts.

Lemma skip_spaces_blank ws rest :
  forallb isspace ws = true -> skip_spaces (ws ++ rest) = skip_spaces rest.
Proof.
  induction ws as [|c ws IH]; intros H; [reflexivity|].
  cbn [forallb] in H. apply andb_true_iff in H. destruct H as [Hc Hws].
  cbn [app skip_spaces]. rewrite Hc. exact (IH Hws).
Qed.

Lemma skip_spaces_stop rest : isspace (peek rest) = false -> skip_spaces rest = rest.
Proof.
  destruct rest as [|c rest]; [reflexivity|]. cbn [peek skip_spaces].
  intros ->. reflexivity.
Qed.

Lemma skip_spaces_split str :
  exists ws, forallb isspace ws = true /\ str = ws ++ skip_spaces str /\
             isspace (peek (skip_spaces str)) = false.
Proof.
  induction str as [|c str IH].
  - exists []. repeat split.
  - cbn [skip_spaces]. destruct (isspace c) eqn:Hc.
    + destruct IH as (ws & Hws & Hstr & Hstop).
      exists (c :: ws). cbn [forallb app]. rewrite Hc, Hws.
      repeat split; [f_equal; exact Hstr | exact Hstop].
    + exists []. cbn [forallb app peek]. repeat split. exact Hc.
Qed.

Lemma isspace_blank_cons c ws :
  isspace c = true -> forallb isspace ws = true -> is_blank (c :: ws) = true.
Proof. intros Hc Hws. unfold is_blank. cbn. rewrite Hc, Hws. reflexivity. Qed.

Lemma is_blank_cons ws :
  is_blank ws = true ->
  exists c ws', ws = c :: ws' /\ isspace c = true /\ forallb isspace ws' = true.
Proof.
  unfold is_blank. destruct ws as [|c ws]; [discriminate|].
  cbn [List.length Nat.eqb negb andb forallb]. intros H.
  apply andb_true_iff in H. destruct H as [Hc Hws].
  exists c, ws. repeat split; assumption.
Qed.

Lemma span_until_length stop str : (span_until stop str <= List.length str)%nat.
Proof.
  induction str as [|c str IH]; cbn [span_until List.length]; [lia|].
  destruct (stop c); lia.
Qed.

Lemma copy_until_length q str :
  (List.length (copy_until q str) <= List.length str)%nat.
Proof.
  induction str as [|c str IH]; cbn [copy_until List.length]; [lia|].
  destruct (Ascii.eqb c q); cbn [List.length]; lia.
Qed.

Lemma char_at_past str n :
  (List.length str <= n)%nat -> char_at str n = zero.
Proof. intros H. unfold char_at. apply nth_overflow. exact H. Qed.

End FieldFacts.

(** X5. [skip_space] returns NULL exactly when the string does not start
    with white space; otherwise it steps over the leading run of white
    space and nothing else: what it returns is the string behind that run
    and does not start with white space. *)
Theorem skip_space_spec :
  forall str,
    (skip_space str = None <-> isspace (peek str) = false) /\
    (forall rest,
        skip_space str = Some rest ->
        exists ws,
          is_blank ws = true /\ str = ws ++ rest /\
          isspace (peek rest) = false).
Proof.
  intros str. unfold skip_space. split.
  - destruct (isspace (peek str)); cbn [negb]; split; intros H;
      try reflexivity; discriminate.
  - intros rest H. destruct (isspace (peek str)) eqn:Hc; cbn [negb] in H;
      [|discriminate].
    inversion H; subst. clear H.
    destruct (skip_spaces_split str) as (ws & Hws & Hstr & Hstop).
    exists ws. split; [|split; assumption].
    destruct ws as [|c ws].
    + cbn [app] in Hstr. rewrite <- Hstr in Hstop. congruence.
    + cbn [forallb] in Hws. apply andb_true_iff in Hws.
      apply isspace_blank_cons; tauto.
Qed.

Lemma skip_space_spec_witness :
  skip_space (cstr "0755") = None /\
  exists ws, is_blank ws = true /\ cstr "  0755 0" = ws ++ cstr "0755 0".
Proof.
  destruct (skip_space_spec (cstr "0755")) as [[_ H1] _].
  destruct (skip_space_spec (cstr "  0755 0")) as [_ H2].
  split; [apply H1; reflexivity|].
  destruct (H2 (cstr "0755 0") eq_refl) as (ws & Hb & Hs & _).
  exists ws. split; assumption.
Defined.

(** X6. [name_string_length] never counts past the end of the string, and
    [quote_remove] never makes a string longer; so the pattern [glob_files]
    cuts out of the option string and the string it goes on with both lie
    within the option string. *)
Theorem name_string_length_bounds :
  forall str,
    (name_string_length str <= strlen str)%nat /\
    (strlen (quote_remove str) <= strlen str)%nat /\
    (strlen (fst (read_name_pattern str)) + strlen (snd (read_name_pattern str))
     <= strlen str)%nat.
Proof.
  intros str. unfold strlen.
  assert (Hn : (name_string_length str <= List.length str)%nat).
  { unfold name_string_length.
    destruct (Ascii.eqb (peek str) CH_DQUOTE || Ascii.eqb (peek str) CH_SQUOTE)
      eqn:Hq; [|apply span_until_length].
    destruct str as [|c str]; [discriminate|].
    cbn [peek tl List.length] in *.
    pose proof (span_until_length (Ascii.eqb c) str) as Hs.
    destruct (Nat.eq_dec (span_until (Ascii.eqb c) str) (List.length str))
      as [E | Hne].
    - rewrite char_at_past by (cbn [List.length]; lia).
      destruct (Ascii.eqb_spec zero c) as [<- | _]; [discriminate | lia].
    - destruct (Ascii.eqb _ c); lia. }
  assert (Hq : forall s, (List.length (quote_remove s) <= List.length s)%nat).
  { intros s. unfold quote_remove.
    destruct (negb (Ascii.eqb (peek s) CH_SQUOTE) &&
              negb (Ascii.eqb (peek s) CH_DQUOTE)); [lia|].
    destruct s as [|c s]; cbn [tl peek List.length copy_until]; [lia|].
    pose proof (copy_until_length c s). lia. }
  split; [exact Hn|]. split; [apply Hq|].
  unfold read_name_pattern. cbn [fst snd].
  pose proof (Hq (firstn (name_string_length str) str)) as H1.
  rewrite length_firstn in H1.
  pose proof (skip_spaces_length (skipn (name_string_length str) str)) as H2.
  rewrite length_skipn in H2. lia.
Qed.

(** ** The keyword and the path of a line *)

Section KeywordFacts.
Context {F : dir_scan_flags} {U : util_api}.

Lemma isspace_zero : isspace zero = false.
Proof. reflexivity. Qed.

Lemma peek_skipn (l : cstring) n : peek (skipn n l) = char_at l n.
Proof.
  revert l. induction n as [|n IH]; intros [|c l]; try reflexivity.
  cbn [skipn]. rewrite IH. reflexivity.
Qed.

Lemma strncmp_eq_prefix a b :
  strncmp_eq a b (List.length a) = true -> exists rest, b = a ++ rest.
Proof.
  revert b. induction a as [|x a IH]; intros b H.
  - exists b. reflexivity.
  - cbn [List.length strncmp_eq] in H. destruct b as [|y b]; [discriminate|].
    apply andb_true_iff in H. destruct H as [Hxy H].
    apply Ascii.eqb_eq in Hxy. subst y.
    destruct (IH b H) as [rest ->]. exists rest. reflexivity.
Qed.

Lemma strncmp_eq_app a rest : strncmp_eq a (a ++ rest) (List.length a) = true.
Proof.
  induction a as [|x a IH]; [reflexivity|].
  cbn [List.length app strncmp_eq]. rewrite Ascii.eqb_refl. exact IH.
Qed.

Lemma char_at_app (a rest : cstring) : char_at (a ++ rest) (List.length a) = peek rest.
Proof.
  unfold char_at. rewrite app_nth2 by lia. rewrite Nat.sub_diag.
  destruct rest; reflexivity.
Qed.

(** The test of the keyword loop. *)
Lemma keyword_test kw line :
  strncmp_eq kw line (strlen kw) && isspace (char_at line (strlen kw)) = true <->
  exists c rest, isspace c = true /\ line = kw ++ c :: rest.
Proof.
  unfold strlen. split.
  - intros H. apply andb_true_iff in H. destruct H as [Hp Hs].
    destruct (strncmp_eq_prefix _ _ Hp) as [rest ->].
    rewrite char_at_app in Hs. destruct rest as [|c rest].
    + cbn [peek] in Hs. rewrite isspace_zero in Hs. discriminate.
    + exists c, rest. split; [exact Hs | reflexivity].
  - intros (c & rest & Hc & ->).
    rewrite strncmp_eq_app, char_at_app. cbn [peek andb]. exact Hc.
Qed.

Lemma skipn_exact (a rest : cstring) : skipn (List.length a) (a ++ rest) = rest.
Proof. induction a as [|x a IH]; [reflexivity | exact IH]. Qed.

Lemma find_hook_none hooks line :
  find_hook hooks line = None <->
  forall cb, In cb hooks ->
    forall c rest, line = keyword cb ++ c :: rest -> isspace c = false.
Proof.
  induction hooks as [|h hooks IH]; cbn [find_hook].
  - split; [intros _ cb [] | reflexivity].
  - destruct (strncmp_eq (keyword h) line (strlen (keyword h)) &&
              isspace (char_at line (strlen (keyword h)))) eqn:Ht.
    + apply keyword_test in Ht. destruct Ht as (c & rest & Hc & ->).
      unfold skip_space. rewrite peek_skipn. unfold strlen.
      rewrite char_at_app. cbn [peek]. rewrite Hc. cbn [negb].
      split; [discriminate|]. intros H.
      rewrite (H h (or_introl eq_refl) c rest eq_refl) in Hc. discriminate.
    + rewrite IH. split.
      * intros H cb [<- | Hin] c rest Hl; [|exact (H cb Hin c rest Hl)].
        destruct (isspace c) eqn:Hc; [|reflexivity].
        rewrite <- Ht. symmetry. apply keyword_test. exists c, rest. tauto.
      * intros H cb Hin. apply H. now right.
Qed.

Lemma find_hook_some hooks line cb l :
  find_hook hooks line = Some (cb, l) ->
  In cb hooks /\
  exists c rest, isspace c = true /\ line = keyword cb ++ c :: rest /\
                 l = skip_spaces (c :: rest).
Proof.
  induction hooks as [|h hooks IH]; cbn [find_hook]; [discriminate|].
  destruct (strncmp_eq (keyword h) line (strlen (keyword h)) &&
            isspace (char_at line (strlen (keyword h)))) eqn:Ht.
  - apply keyword_test in Ht. destruct Ht as (c & rest & Hc & ->).
    unfold skip_space. rewrite peek_skipn. unfold strlen.
    rewrite char_at_app. cbn [peek]. rewrite Hc. cbn [negb].
    intros H. inversion H; subst. split; [now left|].
    exists c, rest. rewrite skipn_exact. repeat split; assumption.
  - intros H. destruct (IH H) as [Hin Hrest]. split; [now right | exact Hrest].
Qed.

Lemma read_str_quoted_open items :
  quoted_wf items = true ->
  read_str_quoted (flat_map item_text items) = (map item_value items, []).
Proof.
  induction items as [|i items IH]; intros Hwf.
  - reflexivity.
  - destruct i as [c | c]; cbn [quoted_wf] in Hwf.
    + apply andb_true_iff in Hwf. destruct Hwf as [Hwf Hrest].
      apply andb_true_iff in Hwf. destruct Hwf as [Hq Hb].
      apply negb_true_iff in Hq.
      cbn [flat_map item_text app map item_value read_str_quoted].
      rewrite Hq. specialize (IH Hrest).
      destruct (Ascii.eqb c CH_BACKSLASH) eqn:Hbs.
      * destruct items as [|[d | d] items]; try discriminate.
        apply negb_true_iff in Hb.
        cbn [quoted_wf] in Hrest.
        apply andb_true_iff in Hrest. destruct Hrest as [Hrest _].
        apply andb_true_iff in Hrest. destruct Hrest as [Hdq _].
        apply negb_true_iff in Hdq.
        cbn [flat_map item_text app peek] in *.
        rewrite Hdq, Hb. cbn [orb andb].
        rewrite IH. reflexivity.
      * cbn [andb]. rewrite IH. reflexivity.
    + apply andb_true_iff in Hwf. destruct Hwf as [Hc Hrest].
      cbn [flat_map item_text app map item_value read_str_quoted peek].
      change (Ascii.eqb CH_BACKSLASH CH_DQUOTE) with false.
      change (Ascii.eqb CH_BACKSLASH CH_BACKSLASH) with true.
      rewrite Hc. cbn [andb]. rewrite (IH Hrest). reflexivity.
Qed.

Lemma span_nonspace_end w :
  no_space w = true -> span_nonspace w = (w, []).
Proof.
  induction w as [|c w IH]; intros Hw; [reflexivity|].
  cbn [no_space forallb] in Hw. apply andb_true_iff in Hw.
  destruct Hw as [Hc Hw]. apply negb_true_iff in Hc.
  cbn [span_nonspace]. rewrite Hc. rewrite (IH Hw). reflexivity.
Qed.

Lemma span_nonspace_length str :
  (List.length (fst (span_nonspace str)) + List.length (snd (span_nonspace str))
   = List.length str)%nat.
Proof.
  induction str as [|c str IH]; [reflexivity|].
  cbn [span_nonspace]. destruct (isspace c); [reflexivity|].
  destruct (span_nonspace str) as [w r]. cbn [fst snd List.length] in *. lia.
Qed.

Lemma read_str_quoted_length str :
  (List.length (fst (read_str_quoted str)) + List.length (snd (read_str_quoted str))
   <= List.length str)%nat.
Proof.
  remember (List.length str) as n eqn:Hn.
  assert (Hle : (List.length str <= n)%nat) by lia. clear Hn.
  revert str Hle. induction n as [|n IH]; intros [|c str] Hle;
    cbn [List.length] in *; try (cbn; lia).
  cbn [read_str_quoted]. destruct (Ascii.eqb c CH_DQUOTE).
  - cbn [fst snd List.length]. lia.
  - destruct (Ascii.eqb c CH_BACKSLASH &&
              (Ascii.eqb (peek str) CH_DQUOTE || Ascii.eqb (peek str) CH_BACKSLASH)).
    + destruct str as [|d str]; [cbn; lia|].
      cbn [List.length] in *.
      pose proof (IH str ltac:(lia)) as H.
      destruct (read_str_quoted str) as [o r]. cbn [fst snd List.length] in *. lia.
    + pose proof (IH str ltac:(lia)) as H.
      destruct (read_str_quoted str) as [o r]. cbn [fst snd List.length] in *. lia.
Qed.

Lemma length_tl_le (s : cstring) : (List.length (tl s) <= List.length s)%nat.
Proof. destruct s; cbn [tl List.length]; lia. Qed.

Lemma peek_space_cons s :
  isspace (peek s) = true -> exists c s', s = c :: s'.
Proof.
  destruct s as [|c s]; [cbn [peek]; rewrite isspace_zero; discriminate|].
  intros _. exists c, s. reflexivity.
Qed.

End KeywordFacts.

(** X7. [read_str] gives up (NULL) on a field that is not followed by white
    space: a field without quotes that runs to the end of the line, a
    quoted field whose closing double quote is missing, and a quoted field
    whose closing quote is followed by anything but white space.  When it
    succeeds, the string it returns lies behind the field in the line and
    does not start with white space, and the field is shorter than the
    line. *)
Theorem read_str_rejects :
  (forall w, no_space w = true -> peek w <> CH_DQUOTE -> read_str w = None) /\
  (forall items,
      quoted_wf items = true ->
      read_str (CH_DQUOTE :: flat_map item_text items) = None) /\
  (forall items tail,
      quoted_wf items = true -> isspace (peek tail) = false ->
      read_str (CH_DQUOTE :: flat_map item_text items ++ CH_DQUOTE :: tail)
        = None) /\
  (forall str rest out,
      read_str str = Some (rest, out) ->
      isspace (peek rest) = false /\
      (strlen out + strlen rest < strlen str)%nat).
Proof.
  split; [|split; [|split]].
  - intros w Hw Hq. unfold read_str.
    destruct (Ascii.eqb_spec (peek w) CH_DQUOTE) as [E | _]; [contradiction|].
    rewrite span_nonspace_end by exact Hw. reflexivity.
  - intros items Hwf. unfold read_str. cbn [peek tl].
    change (Ascii.eqb CH_DQUOTE CH_DQUOTE) with true. cbv iota.
    rewrite read_str_quoted_open by exact Hwf. reflexivity.
  - intros items tail Hwf Hs. unfold read_str. cbn [peek tl].
    change (Ascii.eqb CH_DQUOTE CH_DQUOTE) with true. cbv iota.
    rewrite read_str_quoted_items by exact Hwf.
    cbn [peek tl]. rewrite Hs. rewrite orb_true_r. reflexivity.
  - intros str rest out. unfold read_str, strlen.
    destruct (Ascii.eqb (peek str) CH_DQUOTE) eqn:Hq.
    + pose proof (read_str_quoted_length (tl str)) as Hlen.
      destruct (read_str_quoted (tl str)) as [o str1]. cbn [fst snd] in Hlen.
      destruct (negb (Ascii.eqb (peek str1) CH_DQUOTE) ||
                negb (isspace (peek (tl str1)))) eqn:Hc; [discriminate|].
      intros H. inversion H; subst. clear H.
      apply orb_false_iff in Hc. destruct Hc as [_ Hsp].
      apply negb_false_iff in Hsp.
      destruct (skip_spaces_split (tl str1)) as (ws & _ & _ & Hstop).
      split; [exact Hstop|].
      destruct (peek_space_cons _ Hsp) as (c & s' & Hs').
      destruct str1 as [|d str1]; [discriminate|]. cbn [tl] in *.
      destruct str as [|e str]; [discriminate|]. cbn [tl List.length] in *.
      pose proof (skip_spaces_length str1). lia.
    + pose proof (span_nonspace_length str) as Hlen.
      destruct (span_nonspace str) as [o str1]. cbn [fst snd] in Hlen.
      destruct (negb (isspace (peek str1))) eqn:Hc; [discriminate|].
      intros H. inversion H; subst. clear H.
      apply negb_false_iff in Hc.
      destruct (skip_spaces_split (tl str1)) as (ws & _ & _ & Hstop).
      split; [exact Hstop|].
      destruct (peek_space_cons _ Hc) as (c & s' & ->). cbn [tl List.length] in *.
      pose proof (skip_spaces_length s'). lia.
Qed.

Lemma read_str_rejects_witness :
  read_str (cstr "/usr/bin") = None /\
  read_str (CH_DQUOTE :: cstr "a b") = None /\
  read_str (CH_DQUOTE :: cstr "a b" ++ CH_DQUOTE :: cstr "c 0755") = None /\
  isspace (peek (cstr "0755 0 0")) = false.
Proof.
  destruct read_str_rejects as (H1 & H2 & H3 & H4).
  split; [apply (H1 (cstr "/usr/bin")); [reflexivity | discriminate]|].
  split; [apply (H2 (map q_char (cstr "a b"))); reflexivity|].
  split; [apply (H3 (map q_char (cstr "a b")) (cstr "c 0755")); reflexivity|].
  apply (H4 (cstr "/a  0755 0 0") (cstr "0755 0 0") (cstr "/a")). reflexivity.
Defined.

(** X8. [handle_line] reports an unknown entry type exactly for a line that
    does not start with one of the keywords of the table followed by a
    white-space character: a keyword alone, a keyword followed directly by
    other text and any other first word all give this error, and no line
    that starts with a keyword and white space does. *)
Theorem unknown_keyword :
  forall (F : dir_scan_flags) (U : util_api) line,
    handle_line_fields line = inl fail_kw <->
    (forall cb, In cb file_list_hooks ->
       forall c rest, line = keyword cb ++ c :: rest -> isspace c = false).
Proof.
  intros F U line. rewrite <- find_hook_none.
  unfold handle_line_fields. split.
  - destruct (find_hook file_list_hooks line) as [[cb l]|]; [|reflexivity].
    split_match; discriminate.
  - intros ->. reflexivity.
Qed.

(** ** The fields of a line *)

Section FieldsOfLine.
Context {F : dir_scan_flags} {U : util_api}.

Lemma isspace_not_digit c : isspace c = true -> isdigit c = false.
Proof.
  unfold isspace, isdigit. intros Hs.
  destruct ((48 <=? char_code c) && (char_code c <=? 57)) eqn:Hd; [|reflexivity].
  apply andb_true_iff in Hd. destruct Hd as [H1 H2].
  apply Z.leb_le in H1. apply Z.leb_le in H2.
  apply orb_true_iff in Hs. destruct Hs as [Hs | Hs].
  - apply Z.eqb_eq in Hs. lia.
  - apply andb_true_iff in Hs. destruct Hs as [H3 H4].
    apply Z.leb_le in H4. lia.
Qed.

Lemma isdigit_not_space c : isdigit c = true -> isspace c = false.
Proof.
  intros Hd. destruct (isspace c) eqn:Hs; [|reflexivity].
  rewrite (isspace_not_digit c Hs) in Hd. discriminate.
Qed.

Lemma isdigit_not_star c : isdigit c = true -> Ascii.eqb c CH_STAR = false.
Proof.
  intros Hd. destruct (Ascii.eqb_spec c CH_STAR) as [-> | _]; [|reflexivity].
  discriminate.
Qed.

Lemma digit_run_number m tail :
  forallb isdigit m = true -> isdigit (peek tail) = false ->
  digit_run (m ++ tail) = m /\ after_digits (m ++ tail) = tail.
Proof.
  intros Hm Ht. induction m as [|c m IH].
  - cbn [app]. destruct tail as [|d tail]; [split; reflexivity|].
    cbn [peek] in Ht. cbn [digit_run after_digits]. rewrite Ht. split; reflexivity.
  - cbn [forallb] in Hm. apply andb_true_iff in Hm. destruct Hm as [Hc Hm].
    destruct (IH Hm) as [H1 H2].
    cbn [app digit_run after_digits]. rewrite Hc, H1, H2. split; reflexivity.
Qed.

Lemma digits_below_10 run :
  Forall (fun c => isdigit c = true) run -> digits_below 10 run = true.
Proof.
  intros H. unfold digits_below. apply forallb_forall. intros c Hc.
  rewrite Forall_forall in H. pose proof (isdigit_digit_val c (H c Hc)).
  apply Z.ltb_lt. lia.
Qed.

(** What [read_u32] gives, when it gives something. *)
Lemma read_u32_some str base rest v :
  0 < base <= u32_max -> read_u32 str base = Some (rest, v) ->
  rest = after_digits str /\ v = digits_value base (digit_run str) /\
  0 <= v <= u32_max.
Proof.
  intros Hb. rewrite read_u32_run by exact Hb.
  destruct (negb (Nat.eqb (List.length (digit_run str)) 0) &&
            digits_below base (digit_run str) &&
            (digits_value base (digit_run str) <=? u32_max)) eqn:Hv;
    [|discriminate].
  intros H. inversion H; subst. clear H.
  apply andb_true_iff in Hv. destruct Hv as [_ Hle]. apply Z.leb_le in Hle.
  repeat split; try exact Hle.
  pose proof (digits_value_prefix base (digit_run str)
                (List.length (digit_run str)) ltac:(lia) (digit_run_isdigit str))
    as Hp.
  rewrite firstn_all in Hp. lia.
Qed.

(** The uid or gid field of a line that is no glob line with a [*]. *)
Lemma id_field_run cb l gf keep :
  is_glob cb && Ascii.eqb (peek l) CH_STAR = false ->
  id_field cb l gf keep =
    if negb (Nat.eqb (List.length (digit_run l)) 0) &&
       (digits_value 10 (digit_run l) <=? u32_max)
    then Some (after_digits l, digits_value 10 (digit_run l), gf)
    else None.
Proof.
  intros Hstar. unfold id_field. rewrite Hstar.
  rewrite read_u32_run by (unfold u32_max; lia).
  rewrite (digits_below_10 _ (digit_run_isdigit l)). rewrite andb_true_r.
  destruct (negb (Nat.eqb (List.length (digit_run l)) 0) &&
            (digits_value 10 (digit_run l) <=? u32_max)); reflexivity.
Qed.

Lemma mode_field_some cb l gf l' m gf' :
  mode_field cb l gf = Some (l', m, gf') ->
  0 <= m <= 0xFFF /\
  exists star, gf' = Z.lor gf (kept star DIR_SCAN_KEEP_MODE) /\
               (star = true -> is_glob cb = true /\ m = 0).
Proof.
  unfold mode_field.
  destruct (is_glob cb && Ascii.eqb (peek l) CH_STAR) eqn:Hstar.
  - intros H. inversion H; subst. clear H. split; [lia|].
    exists true. split; [reflexivity|]. intros _.
    apply andb_true_iff in Hstar. tauto.
  - destruct (read_u32 l 8) as [[l1 v]|] eqn:Hr; [|discriminate].
    destruct (Z.gtb_spec v 0xFFF) as [Hgt | Hle]; [discriminate|].
    intros H. inversion H; subst. clear H.
    destruct (read_u32_some l 8 _ _ ltac:(unfold u32_max; lia) Hr) as (_ & _ & Hv).
    split; [lia|]. exists false. cbn [kept]. rewrite Z.lor_0_r.
    split; [reflexivity | discriminate].
Qed.

Lemma id_field_some cb l gf keep l' id gf' :
  id_field cb l gf keep = Some (l', id, gf') ->
  0 <= id <= u32_max /\
  exists star, gf' = Z.lor gf (kept star keep) /\
               (star = true -> is_glob cb = true /\ id = 0).
Proof.
  unfold id_field.
  destruct (is_glob cb && Ascii.eqb (peek l) CH_STAR) eqn:Hstar.
  - intros H. inversion H; subst. clear H. split; [unfold u32_max; lia|].
    exists true. split; [reflexivity|]. intros _.
    apply andb_true_iff in Hstar. tauto.
  - destruct (read_u32 l 10) as [[l1 v]|] eqn:Hr; [|discriminate].
    intros H. inversion H; subst. clear H.
    destruct (read_u32_some l 10 _ _ ltac:(unfold u32_max; lia) Hr) as (_ & _ & Hv).
    split; [lia|]. exists false. cbn [kept]. rewrite Z.lor_0_r.
    split; [reflexivity | discriminate].
Qed.

Lemma extra_of_some l e :
  extra_of l = Some e -> e <> [] /\ isspace (peek e) = false.
Proof.
  unfold extra_of, skip_space.
  destruct (negb (isspace (peek l))); [discriminate|].
  destruct (skip_spaces_split l) as (ws & _ & _ & Hstop).
  destruct (skip_spaces l) as [|c l']; [discriminate|].
  intros H. inversion H; subst. split; [discriminate | exact Hstop].
Qed.

Lemma extra_of_text ws e :
  is_blank ws = true -> e <> [] -> isspace (peek e) = false ->
  extra_of (ws ++ e) = Some e.
Proof.
  intros Hws He Hs. destruct (is_blank_cons ws Hws) as (c & ws' & -> & Hc & Hws').
  unfold extra_of, skip_space. cbn [app peek]. rewrite Hc. cbn [negb skip_spaces].
  rewrite Hc. rewrite skip_spaces_blank by exact Hws'.
  rewrite skip_spaces_stop by exact Hs.
  destruct e; [contradiction | reflexivity].
Qed.

Lemma extra_of_blank ws : forallb isspace ws = true -> extra_of ws = None.
Proof.
  intros Hws. unfold extra_of, skip_space.
  destruct (negb (isspace (peek ws))); [reflexivity|].
  rewrite <- (app_nil_r ws). rewrite skip_spaces_blank by exact Hws. reflexivity.
Qed.

Lemma skip_space_blank ws rest :
  is_blank ws = true -> isspace (peek rest) = false ->
  skip_space (ws ++ rest) = Some rest.
Proof.
  intros Hws Hs. destruct (is_blank_cons ws Hws) as (c & ws' & -> & Hc & Hws').
  unfold skip_space. cbn [app peek]. rewrite Hc. cbn [negb skip_spaces].
  rewrite Hc. rewrite skip_spaces_blank by exact Hws'.
  rewrite skip_spaces_stop by exact Hs. reflexivity.
Qed.

Lemma read_str_word w sp rest :
  no_space w = true -> isspace sp = true -> peek w <> CH_DQUOTE ->
  read_str (w ++ sp :: rest) = Some (skip_spaces rest, w).
Proof.
  intros Hw Hsp Hq. unfold read_str.
  assert (Hpeek : Ascii.eqb (peek (w ++ sp :: rest)) CH_DQUOTE = false).
  { destruct w as [|c w]; cbn [app peek] in *.
    - destruct (Ascii.eqb_spec sp CH_DQUOTE) as [-> | _];
        [discriminate | reflexivity].
    - destruct (Ascii.eqb_spec c CH_DQUOTE); [contradiction | reflexivity]. }
  rewrite Hpeek. rewrite span_nonspace_word by assumption.
  cbn [peek tl]. rewrite Hsp. reflexivity.
Qed.

Lemma peek_app_cons (w tail : cstring) : w <> [] -> peek (w ++ tail) = peek w.
Proof. destruct w; [contradiction | reflexivity]. Qed.

Lemma is_number_parts w :
  is_number w = true -> w <> [] /\ forallb isdigit w = true /\
  isdigit (peek w) = true /\ negb (Nat.eqb (List.length w) 0) = true.
Proof.
  unfold is_number. intros H. apply andb_true_iff in H. destruct H as [Hn Hd].
  destruct w as [|c w]; [discriminate|].
  repeat split; try assumption; [discriminate|].
  cbn [forallb peek] in *. apply andb_true_iff in Hd. tauto.
Qed.

Lemma is_octal_number m :
  is_octal_numeral m = true -> is_number m = true /\ digits_below 8 m = true.
Proof.
  unfold is_octal_numeral, is_number, digits_below. intros H.
  apply andb_true_iff in H. destruct H as [Hn Hd]. rewrite Hn. cbn [andb].
  rewrite forallb_forall in Hd. split; apply forallb_forall; intros c Hc;
    specialize (Hd c Hc); apply andb_true_iff in Hd; tauto.
Qed.

Lemma peek_blank_not_digit ws tail :
  is_blank ws = true -> isdigit (peek (ws ++ tail)) = false.
Proof.
  intros H. destruct (is_blank_cons ws H) as (c & ws' & -> & Hc & _).
  cbn [app peek]. exact (isspace_not_digit c Hc).
Qed.

End FieldsOfLine.

(** X9. What [handle_line] hands to a callback is checked: the hook is an
    entry of the table whose keyword, followed by white space, starts the
    line; the path is one [canonicalize_name] returned, and it is empty
    only for a hook that allows the root; the mode is at most 07777 and
    uid and gid fit 32 bits; the flags hold nothing but the
    [DIR_SCAN_KEEP_*] flags of the fields written as [*], whose value is
    then 0, and are 0 on every line that is no glob line; a hook that
    needs an extra argument gets one, and an extra argument is never empty
    and never starts with white space. *)
Theorem handle_line_fields_checked :
  forall (F : dir_scan_flags) (U : util_api) line f,
    handle_line_fields line = inr f ->
    In (lf_cb f) file_list_hooks /\
    (exists c rest, isspace c = true /\ line = keyword (lf_cb f) ++ c :: rest) /\
    (exists path0, canonicalize_name path0 = Some (lf_path f)) /\
    (lf_path f = [] -> allow_root (lf_cb f) = true) /\
    0 <= lf_mode f <= 0xFFF /\
    0 <= lf_uid f <= u32_max /\
    0 <= lf_gid f <= u32_max /\
    (exists star_mode star_uid star_gid,
        lf_glob_flags f =
          Z.lor (Z.lor (kept star_mode DIR_SCAN_KEEP_MODE)
                       (kept star_uid DIR_SCAN_KEEP_UID))
                (kept star_gid DIR_SCAN_KEEP_GID) /\
        (star_mode = true -> lf_mode f = 0) /\
        (star_uid = true -> lf_uid f = 0) /\
        (star_gid = true -> lf_gid f = 0) /\
        (is_glob (lf_cb f) = false ->
         star_mode = false /\ star_uid = false /\ star_gid = false)) /\
    (is_glob (lf_cb f) = false -> lf_glob_flags f = 0) /\
    (need_extra (lf_cb f) = true -> lf_extra f <> None) /\
    (forall e, lf_extra f = Some e -> e <> [] /\ isspace (peek e) = false).
Proof.
  intros F U line f H. unfold handle_line_fields in H.
  destruct (find_hook file_list_hooks line) as [[cb l1]|] eqn:Hk; [|discriminate].
  destruct (read_str l1) as [[l2 p0]|] eqn:Hp; [|discriminate].
  destruct (canonicalize_name p0) as [path|] eqn:Hc; [|discriminate].
  destruct (Ascii.eqb (peek path) zero && negb (allow_root cb)) eqn:Hr;
    [discriminate|].
  destruct (mode_field cb l2 0) as [[[l3 mode] gf1]|] eqn:Hm; [|discriminate].
  destruct (skip_space l3) as [l4|] eqn:Hs1; [|discriminate].
  destruct (id_field cb l4 gf1 DIR_SCAN_KEEP_UID) as [[[l5 uid] gf2]|] eqn:Hu;
    [|discriminate].
  destruct (skip_space l5) as [l6|] eqn:Hs2; [|discriminate].
  destruct (id_field cb l6 gf2 DIR_SCAN_KEEP_GID) as [[[l7 gid] gf3]|] eqn:Hg;
    [|discriminate].
  assert (H' : match need_extra cb, extra_of l7 with
               | true, None => inl (fail_no_extra cb)
               | _, _ => inr {| lf_cb := cb; lf_path := path; lf_mode := mode;
                                lf_uid := uid; lf_gid := gid;
                                lf_glob_flags := gf3;
                                lf_extra := extra_of l7 |}
               end = inr f) by exact H.
  clear H.
  destruct (find_hook_some _ _ _ _ Hk) as (Hin & c & rest & Hsp & Hline & _).
  destruct (mode_field_some _ _ _ _ _ _ Hm) as (Hmode & sm & Hgf1 & Hsm).
  destruct (id_field_some _ _ _ _ _ _ _ Hu) as (Huid & su & Hgf2 & Hsu).
  destruct (id_field_some _ _ _ _ _ _ _ Hg) as (Hgid & sg & Hgf3 & Hsg).
  assert (Hflags : gf3 = Z.lor (Z.lor (kept sm DIR_SCAN_KEEP_MODE)
                                      (kept su DIR_SCAN_KEEP_UID))
                               (kept sg DIR_SCAN_KEEP_GID)).
  { rewrite Hgf3, Hgf2, Hgf1. rewrite Z.lor_0_l. reflexivity. }
  assert (Hnone : is_glob cb = false -> sm = false /\ su = false /\ sg = false).
  { intros Hng. repeat split.
    - destruct sm; [|reflexivity]. destruct (Hsm eq_refl). congruence.
    - destruct su; [|reflexivity]. destruct (Hsu eq_refl). congruence.
    - destruct sg; [|reflexivity]. destruct (Hsg eq_refl). congruence. }
  assert (Hroot : path = [] -> allow_root cb = true).
  { intros ->. cbn [peek] in Hr. rewrite Ascii.eqb_refl in Hr.
    cbn [andb] in Hr. apply negb_false_iff in Hr. exact Hr. }
  assert (Hf : f = {| lf_cb := cb; lf_path := path; lf_mode := mode;
                      lf_uid := uid; lf_gid := gid; lf_glob_flags := gf3;
                      lf_extra := extra_of l7 |} /\
               (need_extra cb = true -> extra_of l7 <> None)).
  { destruct (need_extra cb); destruct (extra_of l7) as [e|];
      try discriminate; inversion H'; split; try reflexivity;
      intros; discriminate. }
  destruct Hf as [-> Hneed]. cbn [lf_cb lf_path lf_mode lf_uid lf_gid
                                   lf_glob_flags lf_extra].
  split; [exact Hin|]. split; [exists c, rest; tauto|].
  split; [exists p0; exact Hc|]. split; [exact Hroot|].
  split; [exact Hmode|]. split; [exact Huid|]. split; [exact Hgid|].
  split.
  { exists sm, su, sg. split; [exact Hflags|].
    split; [intros E; exact (proj2 (Hsm E))|].
    split; [intros E; exact (proj2 (Hsu E))|].
    split; [intros E; exact (proj2 (Hsg E))|]. exact Hnone. }
  split.
  { intros Hng. destruct (Hnone Hng) as (-> & -> & ->). rewrite Hflags.
    reflexivity. }
  split; [exact Hneed|]. intros e He. exact (extra_of_some _ _ He).
Qed.

Lemma handle_line_fields_checked_witness :
  0 <= 493 <= 0xFFF /\
  (is_glob (hook_named "nod") = false -> 0 = 0) /\
  Some (cstr "c 1 2") <> None.
Proof.
  pose proof (handle_line_fields_checked sample_flags sample_util
                (cstr "nod /dev/x 0755 0 0 c 1 2")
                {| lf_cb := hook_named "nod"; lf_path := cstr "dev/x";
                   lf_mode := 493; lf_uid := 0; lf_gid := 0;
                   lf_glob_flags := 0; lf_extra := Some (cstr "c 1 2") |}
                eq_refl) as H.
  cbn [lf_cb lf_path lf_mode lf_uid lf_gid lf_glob_flags lf_extra] in H.
  destruct H as (_ & _ & _ & _ & Hm & _ & _ & _ & Hg & He & _).
  split; [exact Hm|]. split; [exact Hg|]. apply He. reflexivity.
Defined.

Section WellFormedLine.
Context {F : dir_scan_flags} {U : util_api}.

Variables (cb : callback_t) (ws1 w ws2 m ws3 u ws4 g path : cstring).
Hypothesis Hcb : In cb file_list_hooks.
Hypothesis Hws1 : is_blank ws1 = true.
Hypothesis Hws2 : is_blank ws2 = true.
Hypothesis Hws3 : is_blank ws3 = true.
Hypothesis Hws4 : is_blank ws4 = true.
Hypothesis Hw : w <> [] /\ no_space w = true /\ peek w <> CH_DQUOTE.
Hypothesis Hpath : canonicalize_name w = Some path.
Hypothesis Hroot : peek path = zero -> allow_root cb = true.
Hypothesis Hm : is_octal_numeral m = true /\ digits_value 8 m <= 0xFFF.
Hypothesis Hu : is_number u = true /\ digits_value 10 u <= u32_max.
Hypothesis Hg : is_number g = true /\ digits_value 10 g <= u32_max.

Lemma word_not_space tail : isspace (peek (w ++ tail)) = false.
Proof.
  destruct Hw as (Hne & Hns & _). destruct w as [|c w']; [contradiction|].
  cbn [app peek]. cbn [no_space forallb] in Hns.
  apply andb_true_iff in Hns. destruct Hns as [Hc _].
  apply negb_true_iff in Hc. exact Hc.
Qed.

Lemma number_not_space n tail :
  is_number n = true -> isspace (peek (n ++ tail)) = false.
Proof.
  intros Hn. destruct (is_number_parts n Hn) as (Hne & _ & Hd & _).
  rewrite peek_app_cons by exact Hne. exact (isdigit_not_space _ Hd).
Qed.

Lemma number_not_star n tail :
  is_number n = true ->
  is_glob cb && Ascii.eqb (peek (n ++ tail)) CH_STAR = false.
Proof.
  intros Hn. destruct (is_number_parts n Hn) as (Hne & _ & Hd & _).
  rewrite peek_app_cons by exact Hne. rewrite (isdigit_not_star _ Hd).
  apply andb_false_r.
Qed.

Lemma id_field_number n tail gf keep :
  is_number n = true -> digits_value 10 n <= u32_max ->
  isdigit (peek tail) = false ->
  id_field cb (n ++ tail) gf keep = Some (tail, digits_value 10 n, gf).
Proof.
  intros Hn Hv Ht. rewrite id_field_run by (apply number_not_star; exact Hn).
  destruct (is_number_parts n Hn) as (_ & Hd & _ & Hlen).
  destruct (digit_run_number n tail Hd Ht) as [-> ->].
  rewrite Hlen. apply Z.leb_le in Hv. rewrite Hv. reflexivity.
Qed.

Lemma well_formed_at_gid tail :
  at_gid_field
    (description_line (keyword cb) ws1 w ws2 m ws3 u ws4 g tail)
    cb path (digits_value 8 m) (digits_value 10 u) 0 (g ++ tail).
Proof.
  destruct Hm as [Hoct Hmv]. destruct (is_octal_number m Hoct) as [Hmn Hm8].
  destruct Hu as [Hun Huv]. destruct Hg as [Hgn Hgv].
  destruct (is_blank_cons ws1 Hws1) as (c1 & ws1' & E1 & Hc1 & Hws1').
  destruct (is_blank_cons ws2 Hws2) as (c2 & ws2' & E2 & Hc2 & Hws2').
  unfold description_line.
  exists (u ++ ws4 ++ g ++ tail), (ws4 ++ g ++ tail), 0.
  split; [|split].
  - exists (m ++ ws3 ++ u ++ ws4 ++ g ++ tail), (ws3 ++ u ++ ws4 ++ g ++ tail).
    split; [|split].
    + exists (w ++ ws2 ++ m ++ ws3 ++ u ++ ws4 ++ g ++ tail), w.
      split; [|split; [|split]].
      * rewrite E1. cbn [app]. rewrite find_hook_keyword by assumption.
        cbn [skip_spaces]. rewrite Hc1.
        rewrite skip_spaces_blank by exact Hws1'.
        rewrite skip_spaces_stop by apply word_not_space. reflexivity.
      * rewrite E2. cbn [app].
        rewrite read_str_word by tauto.
        rewrite skip_spaces_blank by exact Hws2'.
        rewrite skip_spaces_stop by (apply number_not_space; exact Hmn).
        reflexivity.
      * exact Hpath.
      * destruct (Ascii.eqb_spec (peek path) zero) as [E | _]; [|reflexivity].
        rewrite (Hroot E). reflexivity.
    + rewrite mode_field_run by (apply number_not_star; exact Hmn).
      destruct (is_number_parts m Hmn) as (_ & Hd & _ & Hlen).
      destruct (digit_run_number m (ws3 ++ u ++ ws4 ++ g ++ tail) Hd
                  (peek_blank_not_digit _ _ Hws3)) as [-> ->].
      rewrite Hlen, Hm8. apply Z.leb_le in Hmv. rewrite Hmv. reflexivity.
    + apply skip_space_blank; [exact Hws3|].
      apply number_not_space. exact Hun.
  - apply id_field_number; [exact Hun | exact Huv |].
    apply peek_blank_not_digit. exact Hws4.
  - apply skip_space_blank; [exact Hws4|].
    apply number_not_space. exact Hgn.
Qed.

Lemma well_formed_fields tail :
  isdigit (peek tail) = false ->
  handle_line_fields
    (description_line (keyword cb) ws1 w ws2 m ws3 u ws4 g tail) =
    match need_extra cb, extra_of tail with
    | true, None => inl (fail_no_extra cb)
    | _, _ => inr {| lf_cb := cb; lf_path := path;
                     lf_mode := digits_value 8 m;
                     lf_uid := digits_value 10 u;
                     lf_gid := digits_value 10 g;
                     lf_glob_flags := 0; lf_extra := extra_of tail |}
    end.
Proof.
  intros Ht. destruct Hg as [Hgn Hgv].
  apply (at_gid_field_done _ _ _ _ _ _ _ _ _ _ (well_formed_at_gid tail)).
  apply id_field_number; assumption.
Qed.

End WellFormedLine.



(** X11. The uid and the gid field are decimal: for a line that stands at
    one of them and is no glob line with a [*] there, the field passes
    with the value of its leading digit run when the run is not empty and
    its value is at most 2^32 - 1 (the digits 8 and 9 are taken, other
    than in the mode), and [handle_line] fails with the uid/gid error when
    the run is empty or its value is larger.  With the uid passed, the
    uid/gid error is raised exactly when the gid run is empty or too
    large. *)
Theorem handle_line_id_check :
  forall (F : dir_scan_flags) (U : util_api) line cb path mode,
    let valid l :=
      negb (Nat.eqb (List.length (digit_run l)) 0) &&
      (digits_value 10 (digit_run l) <=? u32_max) in
    (forall gf l,
        at_uid_field line cb path mode gf l ->
        is_glob cb && Ascii.eqb (peek l) CH_STAR = false ->
        (valid l = true ->
         id_field cb l gf DIR_SCAN_KEEP_UID
           = Some (after_digits l, digits_value 10 (digit_run l), gf)) /\
        (valid l = false -> handle_line_fields line = inl fail_uid_gid)) /\
    (forall uid gf l,
        at_gid_field line cb path mode uid gf l ->
        is_glob cb && Ascii.eqb (peek l) CH_STAR = false ->
        (valid l = true ->
         id_field cb l gf DIR_SCAN_KEEP_GID
           = Some (after_digits l, digits_value 10 (digit_run l), gf)) /\
        (handle_line_fields line = inl fail_uid_gid <-> valid l = false)).
Proof.
  intros F U line cb path mode valid. split.
  - intros gf l Hat Hstar.
    pose proof (id_field_run cb l gf DIR_SCAN_KEEP_UID Hstar) as Hid.
    fold (valid l) in Hid. destruct (valid l).
    + split; [intros _; exact Hid | discriminate].
    + split; [discriminate|]. intros _.
      exact (at_uid_field_fail _ _ _ _ _ _ Hat Hid).
  - intros uid gf l Hat Hstar.
    pose proof (id_field_run cb l gf DIR_SCAN_KEEP_GID Hstar) as Hid.
    fold (valid l) in Hid. destruct (valid l).
    + split; [intros _; exact Hid|]. split; [|discriminate].
      rewrite (at_gid_field_done _ _ _ _ _ _ _ _ _ _ Hat Hid).
      destruct (need_extra cb); destruct (extra_of (after_digits l));
        discriminate.
    + split; [discriminate|]. split; [reflexivity|]. intros _.
      exact (at_gid_field_fail _ _ _ _ _ _ _ Hat Hid).
Qed.

Lemma handle_line_id_check_witness :
  id_field (hook_named "dir") (cstr "1989 0") 0
    (@DIR_SCAN_KEEP_UID sample_flags) = Some (cstr " 0", 1989, 0) /\
  handle_line_fields (F := sample_flags) (U := sample_util)
    (cstr "dir /a 0755 4294967296 0") = inl fail_uid_gid /\
  handle_line_fields (F := sample_flags) (U := sample_util)
    (cstr "dir /a 0755 0 x") = inl fail_uid_gid.
Proof.
  assert (Hmode : forall rest,
             at_mode_field (U := sample_util) (cstr "dir /a 0755 " ++ rest)
               (hook_named "dir") (cstr "a") (cstr "0755 " ++ rest)).
  { intros rest. exists (cstr "/a 0755 " ++ rest), (cstr "/a").
    repeat split; reflexivity. }
  assert (Huid : forall rest,
             at_uid_field (F := sample_flags) (U := sample_util)
               (cstr "dir /a 0755 " ++ rest) (hook_named "dir") (cstr "a")
               493 0 (skip_spaces rest)).
  { intros rest. exists (cstr "0755 " ++ rest), (cstr " " ++ rest).
    split; [apply Hmode|]. split; reflexivity. }
  destruct (handle_line_id_check sample_flags sample_util
              (cstr "dir /a 0755 1989 0") (hook_named "dir") (cstr "a") 493)
    as [H1 _].
  destruct (H1 0 (cstr "1989 0") (Huid (cstr "1989 0")) eq_refl) as [Hok _].
  destruct (handle_line_id_check sample_flags sample_util
              (cstr "dir /a 0755 4294967296 0") (hook_named "dir") (cstr "a") 493)
    as [H2 _].
  destruct (H2 0 (cstr "4294967296 0") (Huid (cstr "4294967296 0")) eq_refl)
    as [_ Hbig].
  destruct (handle_line_id_check sample_flags sample_util
              (cstr "dir /a 0755 0 x") (hook_named "dir") (cstr "a") 493)
    as [_ H3].
  assert (Hgid : at_gid_field (F := sample_flags) (U := sample_util)
                   (cstr "dir /a 0755 0 x") (hook_named "dir") (cstr "a")
                   493 0 0 (cstr "x")).
  { exists (cstr "0 x"), (cstr " x"), 0.
    split; [exact (Huid (cstr "0 x"))|]. split; reflexivity. }
  destruct (H3 0 0 (cstr "x") Hgid eq_refl) as [_ Hx].
  split; [apply Hok; vm_compute; reflexivity|].
  split; [apply Hbig; vm_compute; reflexivity|].
  apply Hx. reflexivity.
Defined.

(** ** What a line does to the tree and what it reports *)

Section CallbackFacts.
Context {F : dir_scan_flags} {U : util_api} {A : fstree_api}.

(** The hook of a parsed line and its extra argument. *)
Lemma fields_hook line f :
  handle_line_fields line = inr f ->
  In (lf_cb f) file_list_hooks /\
  (exists c rest, isspace c = true /\ line = keyword (lf_cb f) ++ c :: rest) /\
  0 <= lf_mode f <= 0xFFF /\
  (need_extra (lf_cb f) = true -> lf_extra f <> None).
Proof.
  intros H. unfold handle_line_fields in H.
  destruct (find_hook file_list_hooks line) as [[cb l1]|] eqn:Hk; [|discriminate].
  destruct (read_str l1) as [[l2 p0]|]; [|discriminate].
  destruct (canonicalize_name p0) as [path|]; [|discriminate].
  destruct (Ascii.eqb (peek path) zero && negb (allow_root cb)); [discriminate|].
  destruct (mode_field cb l2 0) as [[[l3 mode] gf1]|] eqn:Hm; [|discriminate].
  destruct (skip_space l3) as [l4|]; [|discriminate].
  destruct (id_field cb l4 gf1 DIR_SCAN_KEEP_UID) as [[[l5 uid] gf2]|];
    [|discriminate].
  destruct (skip_space l5) as [l6|]; [|discriminate].
  destruct (id_field cb l6 gf2 DIR_SCAN_KEEP_GID) as [[[l7 gid] gf3]|];
    [|discriminate].
  cbv zeta in H.
  destruct (find_hook_some _ _ _ _ Hk) as (Hin & c & rest & Hsp & Hline & _).
  destruct (mode_field_some _ _ _ _ _ _ Hm) as (Hmode & _).
  destruct (need_extra cb) eqn:Hne;
    destruct (skip_space l7) as [[|c7 l8]|]; try discriminate;
    inversion H; subst; cbn [lf_cb lf_mode lf_extra];
    (split; [exact Hin|]); (split; [exists c, rest; tauto|]);
    (split; [exact Hmode|]); intros; congruence.
Qed.

Lemma add_generic_relocate (fs : fstree_t) fn n fn' n' path sb bp gf extra :
  add_generic fs fn' n' path sb bp gf extra =
  relocate_result fn' n' (add_generic fs fn n path sb bp gf extra).
Proof.
  unfold add_generic. destruct (fstree_add_generic fs path sb extra) as [fs' [u|err]];
    reflexivity.
Qed.

Lemma glob_scan_relocate (fs : fstree_t) bp extra cfg fn n :
  relocate_result fn n (glob_scan fs bp extra cfg) = glob_scan fs bp extra cfg.
Proof.
  unfold glob_scan. destruct bp as [base|]; destruct extra as [e|];
    try reflexivity;
    (destruct (dir_tree_iterator_create _ cfg) as [dir|];
     [destruct (fstree_from_dir fs dir) as [ret fs']|]; reflexivity).
Qed.

Lemma run_callback_relocate cb (fs : fstree_t) fn n fn' n' path sb bp gf extra :
  run_callback cb fs fn' n' path sb bp gf extra =
  relocate_result fn' n' (run_callback cb fs fn n path sb bp gf extra).
Proof.
  destruct cb; cbn [run_callback].
  - apply add_generic_relocate.
  - unfold add_hard_link.
    destruct (fstree_add_hard_link fs path extra) as [fs' [u|err]]; reflexivity.
  - unfold add_device. destruct extra as [e|]; [|reflexivity].
    destruct (sscanf_c_u_u e) as [[[c maj] min]|]; [|reflexivity].
    cbv zeta.
    destruct (Ascii.eqb c "c" || Ascii.eqb c "C");
      [apply add_generic_relocate|].
    destruct (Ascii.eqb c "b" || Ascii.eqb c "B");
      [apply add_generic_relocate | reflexivity].
  - unfold add_file. apply add_generic_relocate.
  - unfold glob_files.
    destruct (fstree_get_node_by_path fs path true false) as [fs1 [root|err]];
      [|reflexivity].
    destruct (negb (S_ISDIR (node_mode root))); [reflexivity|].
    destruct (canonicalize_name (fstree_get_path root)) as [pre|]; [|reflexivity].
    destruct (glob_options extra gf) as [[sf gfl fc pat] extra'| |];
      try reflexivity.
    symmetry. apply glob_scan_relocate.
Qed.

Lemma mode_type_bits m c :
  0 <= m <= 0xFFF ->
  In c [S_IFDIR; S_IFLNK; 0; S_IFIFO; S_IFSOCK; S_IFREG] ->
  Z.land (Z.lor m c) S_IFMT = c /\ Z.land (Z.lor m c) 0xFFF = m.
Proof.
  intros Hm Hc.
  assert (Hlow : Z.land m 0xFFF = m).
  { change 0xFFF with (Z.ones 12). rewrite Z.land_ones by lia.
    apply Z.mod_small. lia. }
  assert (Hhigh : Z.land m S_IFMT = 0).
  { rewrite <- Hlow. rewrite <- Z.land_assoc.
    change (Z.land 0xFFF S_IFMT) with 0. apply Z.land_0_r. }
  rewrite !Z.land_lor_distr_l, Hlow, Hhigh.
  cbn [In] in Hc.
  repeat (destruct Hc as [<- | Hc]; [split; [reflexivity | apply Z.lor_0_r]|]).
  contradiction.
Qed.

Lemma hook_modes cb :
  In cb file_list_hooks ->
  In (cb_mode cb) [S_IFDIR; S_IFLNK; 0; S_IFIFO; S_IFSOCK; S_IFREG].
Proof.
  intros H. cbn [file_list_hooks In] in H.
  repeat (destruct H as [<- | H]; [cbn; tauto|]). contradiction.
Qed.

End CallbackFacts.

(** X12. The file name and the line number [handle_line] is called with
    are used for nothing but the position in front of its messages: with
    another file name and line number it returns the same value and leaves
    the same tree, and writes the same messages at the other position. *)
Theorem handle_line_position :
  forall (F : dir_scan_flags) (U : util_api) (A : fstree_api)
         (fs : fstree_t) fn n fn' n' line bp,
    handle_line fs fn' n' line bp =
    relocate_result fn' n' (handle_line fs fn n line bp).
Proof.
  intros F U A fs fn n fn' n' line bp. unfold handle_line.
  destruct (handle_line_fields line) as [e | f].
  - destruct e; reflexivity.
  - apply run_callback_relocate.
Qed.

(** X13. A line that is no glob line always gives a defined result with a
    return value of 0 or -1: 0 comes with no output, and -1 with a message
    that starts with the file name and the line number.  A line that fails
    in parsing leaves the tree as it was. *)
Theorem handle_line_result :
  forall (F : dir_scan_flags) (U : util_api) (A : fstree_api)
         (fs : fstree_t) fn n line bp,
    (forall c rest, line <> cstr "glob" ++ c :: rest) ->
    exists ret fs' msgs,
      handle_line fs fn n line bp = Done (ret, fs', msgs) /\
      ((ret = 0 /\ msgs = []) \/
       (ret = -1 /\ exists text more, msgs = located fn n text :: more)) /\
      (forall e, handle_line_fields line = inl e -> ret = -1 /\ fs' = fs).
Proof.
  intros F U A fs fn n line bp Hng. unfold handle_line.
  destruct (handle_line_fields line) as [e | f] eqn:Hf.
  - exists (-1), fs, (report fn n e). split; [reflexivity|].
    split; [right; split; [reflexivity | apply report_located]|].
    intros _ _. split; reflexivity.
  - destruct (fields_hook line f Hf) as (Hin & (c & rest & _ & Hline) & _ & Hneed).
    assert (Hgen : forall path sb gf extra,
               exists ret fs' msgs,
                 add_generic fs fn n path sb bp gf extra = Done (ret, fs', msgs) /\
                 ((ret = 0 /\ msgs = []) \/
                  (ret = -1 /\ exists text more, msgs = located fn n text :: more)) /\
                 (forall e : parse_error, @inr parse_error _ f = inl e ->
                                          ret = -1 /\ fs' = fs)).
    { intros path sb gf extra. unfold add_generic.
      destruct (fstree_add_generic fs path sb extra) as [fs' [u|err]].
      - exists 0, fs', []. split; [reflexivity|]. split; [now left | discriminate].
      - eexists (-1), fs', _. split; [reflexivity|].
        split; [right; split; [reflexivity | eexists; eexists; reflexivity]
               | discriminate]. }
    cbn [file_list_hooks In] in Hin.
    destruct Hin as [E | [E | [E | [E | [E | [E | [E | [E | []]]]]]]]];
      rewrite <- E in *; cbn [callback run_callback keyword need_extra] in *.
    + apply Hgen.
    + apply Hgen.
    + unfold add_hard_link.
      destruct (fstree_add_hard_link fs (lf_path f) (lf_extra f)) as [fs' [u|err]].
      * exists 0, fs', []. split; [reflexivity|]. split; [now left | discriminate].
      * eexists (-1), fs', _. split; [reflexivity|].
        split; [right; split; [reflexivity | eexists; eexists; reflexivity]
               | discriminate].
    + unfold add_device. destruct (lf_extra f) as [e|];
        [|exfalso; apply Hneed; reflexivity].
      destruct (sscanf_c_u_u e) as [[[ch maj] min]|].
      * cbv zeta. destruct (Ascii.eqb ch "c" || Ascii.eqb ch "C"); [apply Hgen|].
        destruct (Ascii.eqb ch "b" || Ascii.eqb ch "B"); [apply Hgen|].
        eexists (-1), fs, _. split; [reflexivity|].
        split; [right; split; [reflexivity | eexists; eexists; reflexivity]
               | discriminate].
      * eexists (-1), fs, _. split; [reflexivity|].
        split; [right; split; [reflexivity | eexists; eexists; reflexivity]
               | discriminate].
    + apply Hgen.
    + apply Hgen.
    + unfold add_file. apply Hgen.
    + exfalso. exact (Hng c rest Hline).
Qed.

Lemma handle_line_result_witness :
  exists ret fs' msgs,
    handle_line (F := sample_flags) (U := sample_util) (A := sample_fstree)
      [] (cstr "list") 7 (cstr "nod /dev/x 0644 0 0 x 1 2") None
      = Done (ret, fs', msgs) /\
    ((ret = 0 /\ msgs = []) \/
     (ret = -1 /\ exists text more, msgs = located (cstr "list") 7 text :: more)).
Proof.
  destruct (handle_line_result sample_flags sample_util sample_fstree
              [] (cstr "list") 7 (cstr "nod /dev/x 0644 0 0 x 1 2") None)
    as (ret & fs' & msgs & H & Hret & _).
  - intros c rest. discriminate.
  - exists ret, fs', msgs. split; [exact H | exact Hret].
Defined.

(** X14. The mode [handle_line] passes on in [sb] is the parsed mode or-ed
    with the mode of the hook; as the parsed mode is at most 07777 the two
    do not mix: the file type bits are those of the hook (none for link,
    nod and glob), and the permission bits are the parsed mode. *)
Theorem handle_line_stat_mode :
  forall (F : dir_scan_flags) (U : util_api) (A : fstree_api)
         (fs : fstree_t) fn n line bp f,
    handle_line_fields line = inr f ->
    exists sb,
      handle_line fs fn n line bp =
        run_callback (callback (lf_cb f)) fs fn n (lf_path f) sb bp
                     (lf_glob_flags f) (lf_extra f) /\
      Z.land (st_mode sb) S_IFMT = cb_mode (lf_cb f) /\
      Z.land (st_mode sb) 0xFFF = lf_mode f /\
      st_uid sb = lf_uid f /\ st_gid sb = lf_gid f /\
      st_mtime sb = defaults_mtime fs /\ st_rdev sb = 0.
Proof.
  intros F U A fs fn n line bp f Hf.
  destruct (fields_hook line f Hf) as (Hin & _ & Hmode & _).
  destruct (mode_type_bits _ _ Hmode (hook_modes _ Hin)) as [Ht Hp].
  unfold handle_line. rewrite Hf. cbv zeta.
  eexists. split; [reflexivity|]. cbn [st_mode st_uid st_gid st_mtime st_rdev].
  repeat split; assumption.
Qed.

Lemma handle_line_stat_mode_witness :
  exists sb,
    handle_line (F := sample_flags) (U := sample_util) (A := sample_fstree)
      [] (cstr "list") 1 (cstr "file /a 0644 0 0") None
      = add_file (A := sample_fstree) [] (cstr "list") 1 (cstr "a") sb None 0 None /\
    Z.land (st_mode sb) S_IFMT = S_IFREG /\
    Z.land (st_mode sb) 0xFFF = 420.
Proof.
  destruct (handle_line_stat_mode sample_flags sample_util sample_fstree
              [] (cstr "list") 1 (cstr "file /a 0644 0 0") None
              {| lf_cb := hook_named "file"; lf_path := cstr "a";
                 lf_mode := 420; lf_uid := 0; lf_gid := 0;
                 lf_glob_flags := 0; lf_extra := None |} eq_refl)
    as (sb & H1 & H2 & H3 & _).
  exists sb. split; [exact H1|]. split; [exact H2 | exact H3].
Defined.

(** ** The line loop as a whole *)

Section RunFacts.
Context {F : dir_scan_flags} {U : util_api} {A : fstree_api}.

(** The loop needs no more rounds than the stream has lines, and one for
    the end of the input. *)
Lemma loop_run_lines fn bp :
  forall lines fuel fs n err,
    (List.length lines < fuel)%nat ->
    fstree_from_file_stream_loop fuel fs
      {| stream_filename := fn; pending := lines |} fn bp n err
    = Some (run_lines fs fn bp n lines err).
Proof.
  induction lines as [|r lines IH]; intros fuel fs n err Hfuel.
  - destruct fuel as [|fuel]; [cbn in Hfuel; lia | reflexivity].
  - cbn [List.length] in Hfuel. destruct r as [text|].
    + cbn [run_lines]. destruct (skip_spaces text) as [|c line] eqn:Hsk.
      * rewrite loop_blank by exact Hsk. apply IH. lia.
      * destruct fuel as [|fuel]; [lia|].
        cbn [fstree_from_file_stream_loop].
        rewrite (get_line_text fn text lines n c line Hsk).
        destruct (Ascii.eqb (peek (c :: line)) CH_HASH); cbn [negb].
        -- apply IH. lia.
        -- destruct (handle_line fs fn n (c :: line) bp)
             as [[[ret fs'] msgs]|]; [|reflexivity].
           destruct (ret =? 0); cbn [negb]; [apply IH; lia | reflexivity].
    + destruct fuel as [|fuel]; [lia | reflexivity].
Qed.

Lemma stream_run_lines (fs : fstree_t) fp bp :
  fstree_from_file_stream fs fp bp =
  Some (run_lines fs (stream_filename fp) bp 1 (pending fp) []).
Proof.
  unfold fstree_from_file_stream, istream_get_filename.
  destruct fp as [fn lines]. cbn [stream_filename pending].
  apply loop_run_lines. lia.
Qed.

(** The return value of the loop against [lines_ok]. *)
Lemma run_lines_ret fn bp :
  forall lines fs n err run,
    run_lines fs fn bp n lines err = Done run ->
    (run_ret run = 0 \/ run_ret run = -1) /\
    stream_filename (run_fp run) = fn /\
    (run_ret run = 0 ->
     pending (run_fp run) = [] /\
     exists n1, lines_ok fs fn bp n lines err
                = Some (run_fs run, n1, run_stderr run)) /\
    (run_ret run = -1 -> lines_ok fs fn bp n lines err = None).
Proof.
  induction lines as [|r lines IH]; intros fs n err run Hrun.
  - cbn [run_lines] in Hrun. inversion Hrun; subst. cbn.
    split; [now left|]. split; [reflexivity|].
    split; [intros _; split; [reflexivity | exists n; reflexivity] | discriminate].
  - destruct r as [text|]; cbn [run_lines lines_ok] in *.
    + destruct (skip_spaces text) as [|c line]; [exact (IH _ _ _ _ Hrun)|].
      destruct (Ascii.eqb (peek (c :: line)) CH_HASH); [exact (IH _ _ _ _ Hrun)|].
      destruct (handle_line fs fn n (c :: line) bp) as [[[ret fs'] msgs]|];
        [|discriminate].
      destruct (ret =? 0); [exact (IH _ _ _ _ Hrun)|].
      inversion Hrun; subst. cbn.
      split; [now right|]. split; [reflexivity|].
      split; [discriminate | reflexivity].
    + inversion Hrun; subst. cbn.
      split; [now right|]. split; [reflexivity|].
      split; [discriminate | reflexivity].
Qed.

End RunFacts.

(** X15. [fstree_from_file_stream] comes to an end on every input: the loop
    takes no more rounds than the stream has lines.  When no callback runs
    into undefined behaviour it returns 0 or -1.  It returns 0 exactly when
    the lines, gone through in order, all pass; the stream is then read to
    its end, and tree and output are those the lines left one after the
    other. *)
Theorem fstree_from_file_stream_returns :
  forall (F : dir_scan_flags) (U : util_api) (A : fstree_api)
         (fs : fstree_t) fp bp,
    exists r,
      fstree_from_file_stream fs fp bp = Some r /\
      forall run,
        r = Done run ->
        (run_ret run = 0 \/ run_ret run = -1) /\
        stream_filename (run_fp run) = stream_filename fp /\
        (run_ret run = 0 <->
         exists fs1 n1 err1,
           lines_ok fs (stream_filename fp) bp 1 (pending fp) []
             = Some (fs1, n1, err1)) /\
        (run_ret run = 0 ->
         pending (run_fp run) = [] /\
         exists n1,
           lines_ok fs (stream_filename fp) bp 1 (pending fp) []
             = Some (run_fs run, n1, run_stderr run)).
Proof.
  intros F U A fs fp bp. eexists. split; [apply stream_run_lines|].
  intros run Hrun.
  destruct (run_lines_ret _ _ _ _ _ _ _ Hrun) as (Hret & Hfn & H0 & H1).
  split; [exact Hret|]. split; [exact Hfn|]. split; [|exact H0].
  split.
  - intros E. destruct (H0 E) as (_ & n1 & Hok). eauto.
  - intros (fs1 & n1 & err1 & Hok). destruct Hret as [E | E]; [exact E|].
    rewrite (H1 E) in Hok. discriminate.
Qed.

(** X16. When reading the stream fails behind lines that all passed,
    [fstree_from_file_stream] returns -1 and writes no message of its own;
    the tree and the output are those the lines in front left, and the
    lines behind the failure stay in the stream. *)
Theorem fstree_from_file_stream_read_error :
  forall (F : dir_scan_flags) (U : util_api) (A : fstree_api)
         (fs : fstree_t) fn bp pre post fs1 n1 err1,
    lines_ok fs fn bp 1 pre [] = Some (fs1, n1, err1) ->
    fstree_from_file_stream fs
      {| stream_filename := fn; pending := pre ++ raw_read_error :: post |} bp
    = Some (Done {| run_ret := -1; run_fs := fs1;
                    run_fp := {| stream_filename := fn; pending := post |};
                    run_stderr := err1 |}).
Proof.
  intros F U A fs fn bp pre post fs1 n1 err1 Hok.
  rewrite stream_run_lines. cbn [stream_filename pending]. f_equal.
  revert Hok. generalize 1 at 1 2. generalize (@nil stderr_line) at 1 2.
  revert fs. induction pre as [|r pre IH]; intros fs err n Hok.
  - cbn [lines_ok] in Hok. inversion Hok; subst. reflexivity.
  - destruct r as [text|]; cbn [lines_ok app run_lines] in *; [|discriminate].
    destruct (skip_spaces text) as [|c line]; [exact (IH _ _ _ Hok)|].
    destruct (Ascii.eqb (peek (c :: line)) CH_HASH); [exact (IH _ _ _ Hok)|].
    destruct (handle_line fs fn n (c :: line) bp) as [[[ret fs'] msgs]|];
      [|discriminate].
    destruct (ret =? 0); [exact (IH _ _ _ Hok) | discriminate].
Qed.

Lemma fstree_from_file_stream_read_error_witness :
  exists fs1 err1,
    fstree_from_file_stream (F := sample_flags) (U := sample_util)
      (A := sample_fstree) []
      {| stream_filename := cstr "list";
         pending := [raw_text (cstr "dir /a 0755 0 0"); raw_read_error;
                     raw_text (cstr "dir /b 0755 0 0")] |} None
    = Some (Done {| run_ret := -1; run_fs := fs1;
                    run_fp := {| stream_filename := cstr "list";
                                 pending := [raw_text (cstr "dir /b 0755 0 0")] |};
                    run_stderr := err1 |}).
Proof.
  eexists. eexists.
  apply (fstree_from_file_stream_read_error sample_flags sample_util
           sample_fstree [] (cstr "list") None
           [raw_text (cstr "dir /a 0755 0 0")]
           [raw_text (cstr "dir /b 0755 0 0")] _ 2 _).
  vm_compute. reflexivity.
Defined.

Lemma fstree_from_file_stream_returns_witness :
  exists run,
    fstree_from_file_stream (F := sample_flags) (U := sample_util)
      (A := sample_fstree) []
      {| stream_filename := cstr "list";
         pending := [raw_text (cstr "dir /a 0755 0 0");
                     raw_text (cstr "dir /b 0758 0 0")] |} None
    = Some (Done run) /\ run_ret run = -1.
Proof.
  destruct (fstree_from_file_stream_returns sample_flags sample_util
              sample_fstree [] {| stream_filename := cstr "list";
                 pending := [raw_text (cstr "dir /a 0755 0 0");
                             raw_text (cstr "dir /b 0758 0 0")] |} None)
    as (r & Hr & Hrun).
  destruct r as [run|]; [|vm_compute in Hr; discriminate].
  exists run. split; [exact Hr|].
  destruct (Hrun run eq_refl) as ([E | E] & _ & Hiff & _); [|exact E].
  apply Hiff in E. destruct E as (fs1 & n1 & err1 & Hok).
  vm_compute in Hok. discriminate.
Defined.

Section CommentFacts.
Context {F : dir_scan_flags} {U : util_api} {A : fstree_api}.

Lemma handle_line_relocate (fs : fstree_t) fn n fn' n' line bp :
  handle_line fs fn' n' line bp =
  relocate_result fn' n' (handle_line fs fn n line bp).
Proof.
  unfold handle_line. destruct (handle_line_fields line) as [e | f].
  - destruct e; reflexivity.
  - apply run_callback_relocate.
Qed.

Lemma message_text_relocate fn n msgs :
  map message_text (map (relocate fn n) msgs) = map message_text msgs.
Proof.
  rewrite map_map. apply map_ext. intros [f l t | t]; reflexivity.
Qed.

Lemma same_effect_lines bp :
  forall lines (fs : fstree_t) fn1 fn2 n1 n2 err1 err2,
    map message_text err1 = map message_text err2 ->
    same_effect (run_lines fs fn1 bp n1 lines err1)
                (run_lines fs fn2 bp n2 (filter significant lines) err2).
Proof.
  induction lines as [|r lines IH]; intros fs fn1 fn2 n1 n2 err1 err2 Herr.
  - cbn. repeat split. exact Herr.
  - destruct r as [text|]; cbn [filter significant run_lines].
    + destruct (skip_spaces text) as [|c line] eqn:Hsk; [apply IH; exact Herr|].
      cbn [peek]. destruct (Ascii.eqb c CH_HASH) eqn:Hc; cbn [negb];
        [apply IH; exact Herr|].
      cbn [run_lines]. rewrite Hsk. cbn [peek]. rewrite Hc.
      rewrite (handle_line_relocate fs fn1 n1 fn2 n2 (c :: line) bp).
      destruct (handle_line fs fn1 n1 (c :: line) bp) as [[[ret fs'] msgs]|];
        cbn [relocate_result]; [|exact I].
      assert (Hmsgs : map message_text (err1 ++ msgs) =
                      map message_text (err2 ++ map (relocate fn2 n2) msgs)).
      { rewrite !map_app, message_text_relocate, Herr. reflexivity. }
      destruct (ret =? 0); [apply IH; exact Hmsgs|].
      cbn. repeat split. exact Hmsgs.
    + cbn. repeat split. exact Herr.
Qed.

End CommentFacts.

(** X17. Blank lines and comment lines change nothing but the line numbers
    in the messages, and the file name of the stream nothing but the file
    name in them: the stream without its blank and comment lines, under any
    file name, ends in undefined behaviour when the stream itself does, and
    otherwise gives the same return value, the same tree and the same
    message texts. *)
Theorem comments_do_not_count :
  forall (F : dir_scan_flags) (U : util_api) (A : fstree_api)
         (fs : fstree_t) fn fn' bp lines,
    exists r r',
      fstree_from_file_stream fs
        {| stream_filename := fn; pending := lines |} bp = Some r /\
      fstree_from_file_stream fs
        {| stream_filename := fn'; pending := filter significant lines |} bp
        = Some r' /\
      same_effect r r'.
Proof.
  intros F U A fs fn fn' bp lines.
  eexists. eexists. split; [apply stream_run_lines|].
  split; [apply stream_run_lines|]. cbn [stream_filename pending].
  apply same_effect_lines. reflexivity.
Qed.

(** ** Patterns, the flags that are set, and the end of the options *)

Section GlobPatternFacts.
Context {F : dir_scan_flags}.

Lemma apply_scan_flag_keeps e st :
  name_pattern (apply_scan_flag e st) = name_pattern st /\
  glob_flags (apply_scan_flag e st) = glob_flags st.
Proof.
  unfold apply_scan_flag.
  destruct (negb (clear_flag e =? 0) && first_clear_flag st); split; reflexivity.
Qed.

Lemma pattern_loop fuel :
  forall extra st st' extra',
    glob_options_loop fuel extra st = glob_parsed st' extra' ->
    name_pattern st' =
      pattern_after (name_pattern st) (glob_option_trace fuel extra) /\
    glob_flags st' =
      (if has_path (glob_option_trace fuel extra)
       then Z.lor (glob_flags st) DIR_SCAN_MATCH_FULL_PATH
       else glob_flags st).
Proof.
  induction fuel as [|fuel IH]; intros extra st st' extra' Hrun.
  - destruct extra; cbn [glob_options_loop glob_option_trace] in *;
      [|discriminate].
    inversion Hrun; subst. split; reflexivity.
  - destruct extra as [|c extra]; cbn [glob_options_loop glob_option_trace] in *.
    + inversion Hrun; subst. split; reflexivity.
    + destruct (next_option (c :: extra)) as [o rest] eqn:Hnext.
      destruct o as [e | p | p | | |].
      * destruct (IH _ _ _ _ Hrun) as [Hp Hg].
        destruct (apply_scan_flag_keeps e st) as [Ep Eg].
        rewrite Ep in Hp. rewrite Eg in Hg.
        unfold pattern_after, has_path in *. cbn [fold_left existsb orb].
        split; [exact Hp | exact Hg].
      * destruct (IH _ _ _ _ Hrun) as [Hp Hg].
        unfold pattern_after, has_path in *. cbn [fold_left existsb orb].
        split; [exact Hp | exact Hg].
      * destruct (IH _ _ _ _ Hrun) as [Hp Hg].
        unfold pattern_after, has_path in *. cbn [fold_left existsb orb].
        split; [exact Hp|]. rewrite Hg. cbn [glob_flags].
        rewrite <- Z.lor_assoc, Z.lor_diag.
        destruct (existsb _ _); reflexivity.
      * inversion Hrun; subst. split; reflexivity.
      * discriminate.
      * inversion Hrun; subst. split; reflexivity.
Qed.

End GlobPatternFacts.

(** X18. Of the [-name] and [-path] options of a glob line the last one
    gives the pattern of the scan, whichever of the two it is; with none
    there is no pattern.  [DIR_SCAN_MATCH_FULL_PATH] is set as soon as one
    [-path] option occurs and is never cleared again, also when a [-name]
    option follows and gives the pattern; the other bits of [glob_flags]
    stay as [handle_line] passed them. *)
Theorem glob_pattern_options :
  forall (F : dir_scan_flags) extra glob_flags0 st extra',
    glob_options extra glob_flags0 = glob_parsed st extra' ->
    name_pattern st = pattern_after None (options_of extra) /\
    glob_flags st =
      (if has_path (options_of extra)
       then Z.lor glob_flags0 DIR_SCAN_MATCH_FULL_PATH
       else glob_flags0).
Proof.
  intros F extra gf0 st extra' Hrun. unfold glob_options in Hrun.
  destruct extra as [e|].
  - cbn [options_of].
    destruct (glob_options_loop (S (strlen e)) e _) as [st1 x1| |] eqn:Hl;
      try discriminate.
    destruct (pattern_loop _ _ _ _ _ Hl) as [Hp Hg].
    destruct x1 as [[|? ?]|]; inversion Hrun; subst; split; assumption.
  - inversion Hrun; subst. split; reflexivity.
Qed.

Lemma glob_pattern_options_witness :
  exists st extra',
    glob_options (F := sample_flags)
      (Some (cstr "-path usr/* -type f -name '*.so' lib")) 0
      = glob_parsed st extra' /\
    name_pattern st = Some (cstr "*.so") /\
    glob_flags st = @DIR_SCAN_MATCH_FULL_PATH sample_flags.
Proof.
  eexists. eexists. split; [vm_compute; reflexivity|].
  exact (glob_pattern_options sample_flags
           (Some (cstr "-path usr/* -type f -name '*.so' lib")) 0 _ _ eq_refl).
Defined.

Section GlobSetFacts.
Context {F : dir_scan_flags} (Hwf : flags_wf F).

Lemma scan_set_flags_all t : In t scan_set_flags -> In t all_dir_scan_flags.
Proof.
  unfold scan_set_flags, all_dir_scan_flags. cbn [In]. tauto.
Qed.

Lemma scan_set_flag_apart t :
  In t scan_set_flags ->
  low_word t /\ t <> 0 /\ Z.land t all_flags = 0 /\
  (forall c, In c type_flags -> Z.land c t = 0).
Proof.
  intros Ht. pose proof (scan_set_flags_all t Ht) as Hall.
  pose proof (wf_single Hwf t Hall) as Hs.
  assert (Hnot : ~ In t type_flags).
  { destruct (set_flags_not_type Hwf) as (H1 & H2 & H3).
    unfold scan_set_flags in Ht. cbn [In] in Ht.
    destruct Ht as [<- | [<- | [<- | []]]]; assumption. }
  split; [apply single_bit_low; exact Hs|].
  split; [apply single_bit_nonzero; exact Hs|].
  split; [apply (other_flag_apart Hwf); assumption|].
  intros c Hc.
  destruct (single_bits_apart c t (type_flag_single Hwf c Hc) Hs) as [-> | H];
    [contradiction | exact H].
Qed.

(** A row of the table clears an exclusion flag or sets one of the three
    other flags. *)
Lemma scan_flag_row_kinds e :
  In e glob_scan_flags ->
  (In (clear_flag e) type_flags /\ set_flag e = 0) \/
  (clear_flag e = 0 /\ In (set_flag e) scan_set_flags).
Proof.
  intros H. cbn [glob_scan_flags In] in H.
  unfold type_flags, scan_set_flags.
  repeat (destruct H as [<- | H];
          [cbn [clear_flag set_flag In]; tauto|]).
  contradiction.
Qed.

Lemma apply_scan_flag_set e st t :
  In e glob_scan_flags -> In t scan_set_flags ->
  Z.land (scan_flags (apply_scan_flag e st)) t =
    if set_flag e =? t then t else Z.land (scan_flags st) t.
Proof.
  intros He Ht.
  destruct (scan_set_flag_apart t Ht) as (Hlow & Hnz & Hall & Htype).
  destruct (scan_flag_row_kinds e He) as [[Hc Hs] | [Hc Hs]].
  - rewrite Hs. destruct (Z.eqb_spec 0 t) as [E | _]; [congruence|].
    specialize (Htype _ Hc).
    unfold apply_scan_flag. rewrite Hs, Z.lor_0_r.
    apply Z.bits_inj'. intros n Hn.
    assert (Hct : Z.testbit (clear_flag e) n && Z.testbit t n = false)
      by (rewrite <- Z.land_spec, Htype; apply Z.bits_0).
    assert (Hat : Z.testbit t n && Z.testbit all_flags n = false)
      by (rewrite <- Z.land_spec, Hall; apply Z.bits_0).
    destruct (negb (clear_flag e =? 0) && first_clear_flag st);
      cbn [scan_flags]; rewrite !Z.land_spec, ?Z.lor_spec, u32_lnot_bits by lia;
      (destruct (Z.ltb_spec n 32);
       [|rewrite (Hlow n) by lia; rewrite !andb_false_r; reflexivity]);
      destruct (Z.testbit (scan_flags st) n), (Z.testbit (clear_flag e) n),
        (Z.testbit t n), (Z.testbit all_flags n);
      try reflexivity; discriminate.
  - unfold apply_scan_flag. rewrite Hc. cbn [Z.eqb negb andb scan_flags].
    destruct (Z.eqb_spec (set_flag e) t) as [E | Hne].
    + rewrite E. rewrite Z.land_lor_distr_l, Z.land_diag.
      apply Z.bits_inj'. intros n Hn. rewrite Z.lor_spec, !Z.land_spec.
      destruct (Z.testbit t n); [apply orb_true_r | rewrite !andb_false_r; reflexivity].
    + destruct (single_bits_apart (set_flag e) t
                  (wf_single Hwf _ (scan_set_flags_all _ Hs))
                  (wf_single Hwf _ (scan_set_flags_all _ Ht))) as [E | Hap];
        [contradiction|].
      apply Z.bits_inj'. intros n Hn.
      rewrite !Z.land_spec, Z.lor_spec, Z.land_spec, u32_lnot_bits by lia.
      rewrite Z.bits_0.
      assert (Hst : Z.testbit (set_flag e) n && Z.testbit t n = false)
        by (rewrite <- Z.land_spec, Hap; apply Z.bits_0).
      destruct (Z.ltb_spec n 32);
        [|rewrite (Hlow n) by lia; rewrite !andb_false_r; reflexivity].
      destruct (Z.testbit (scan_flags st) n), (Z.testbit (set_flag e) n),
        (Z.testbit t n); try reflexivity; discriminate.
Qed.

Lemma set_flags_of_cons e trace t :
  In e glob_scan_flags -> In t scan_set_flags ->
  existsb (Z.eqb t) (set_flags_of (opt_scan_flag e :: trace)) =
  (set_flag e =? t) || existsb (Z.eqb t) (set_flags_of trace).
Proof.
  intros He Ht. destruct (scan_set_flag_apart t Ht) as (_ & Hnz & _).
  cbn [set_flags_of]. destruct (Z.eqb_spec (set_flag e) 0) as [E | _].
  - rewrite E. destruct (Z.eqb_spec 0 t); [congruence | reflexivity].
  - cbn [existsb]. rewrite (Z.eqb_sym t). reflexivity.
Qed.

Lemma set_flags_loop fuel :
  forall extra st st' extra' t,
    In t scan_set_flags ->
    glob_options_loop fuel extra st = glob_parsed st' extra' ->
    Z.land (scan_flags st') t =
      if existsb (Z.eqb t) (set_flags_of (glob_option_trace fuel extra))
      then t else Z.land (scan_flags st) t.
Proof.
  induction fuel as [|fuel IH]; intros extra st st' extra' t Ht Hrun.
  - destruct extra; cbn [glob_options_loop glob_option_trace] in *;
      [|discriminate].
    inversion Hrun; subst. reflexivity.
  - destruct extra as [|c extra]; cbn [glob_options_loop glob_option_trace] in *.
    + inversion Hrun; subst. reflexivity.
    + destruct (next_option (c :: extra)) as [o rest] eqn:Hnext.
      destruct o as [e | p | p | | |].
      * pose proof (next_option_In _ _ _ Hnext) as He.
        rewrite (set_flags_of_cons e _ t He Ht).
        rewrite (IH _ _ _ _ t Ht Hrun).
        rewrite (apply_scan_flag_set e st t He Ht).
        destruct (set_flag e =? t); cbn [orb];
          destruct (existsb _ _); reflexivity.
      * exact (IH _ _ _ _ t Ht Hrun).
      * exact (IH _ _ _ _ t Ht Hrun).
      * inversion Hrun; subst. reflexivity.
      * discriminate.
      * inversion Hrun; subst. reflexivity.
Qed.

End GlobSetFacts.



Section OptionEndFacts.
Context {F : dir_scan_flags}.

Lemma char_at_no_space extra n :
  no_space extra = true -> isspace (char_at extra n) = false.
Proof.
  intros H. unfold char_at.
  destruct (Nat.lt_ge_cases n (List.length extra)) as [Hlt | Hge].
  - unfold no_space in H. rewrite forallb_forall in H.
    apply negb_true_iff. apply H. apply nth_In. exact Hlt.
  - rewrite nth_overflow by exact Hge. reflexivity.
Qed.

Lemma find_scan_flag_no_space table extra :
  no_space extra = true -> find_scan_flag table extra = None.
Proof.
  intros H. induction table as [|e table IH]; [reflexivity|].
  cbn [find_scan_flag]. rewrite (char_at_no_space extra _ H).
  rewrite andb_false_r. exact IH.
Qed.

Lemma next_option_no_space extra :
  no_space extra = true -> peek extra = CH_MINUS ->
  next_option extra = (opt_unknown, extra).
Proof.
  intros H Hm. unfold next_option.
  rewrite (find_scan_flag_no_space _ _ H).
  rewrite !(char_at_no_space extra _ H). rewrite !andb_false_r.
  replace (char_at extra 0) with (peek extra) by (destruct extra; reflexivity).
  rewrite Hm. reflexivity.
Qed.

(** A string that does not start with the first character of [name] is
    not compared equal to it. *)
Lemma strncmp_eq_first extra name n :
  peek extra <> peek name -> name <> [] ->
  strncmp_eq extra name (S n) = false.
Proof.
  intros Hne Hname. destruct name as [|y name]; [contradiction|].
  destruct extra as [|x extra]; [reflexivity|].
  cbn [strncmp_eq peek] in *.
  destruct (Ascii.eqb_spec x y); [contradiction | reflexivity].
Qed.

Lemma find_scan_flag_no_minus extra :
  peek extra <> CH_MINUS -> find_scan_flag glob_scan_flags extra = None.
Proof.
  intros H. unfold glob_scan_flags.
  cbn [find_scan_flag sf_name strlen cstr list_ascii_of_string List.length].
  rewrite !strncmp_eq_first by (exact H || discriminate). reflexivity.
Qed.

Lemma next_option_location extra :
  peek extra <> CH_MINUS -> next_option extra = (opt_none, extra).
Proof.
  intros H. unfold next_option. rewrite (find_scan_flag_no_minus _ H).
  rewrite !strncmp_eq_first by (exact H || discriminate). cbn [andb].
  replace (char_at extra 0) with (peek extra) by (destruct extra; reflexivity).
  destruct (Ascii.eqb_spec (peek extra) CH_MINUS); [contradiction | reflexivity].
Qed.

Lemma next_option_end c rest :
  isspace c = true ->
  next_option (cstr "--" ++ c :: rest) = (opt_end, skip_spaces rest).
Proof.
  intros Hc. unfold next_option, glob_scan_flags.
  cbn. rewrite Hc. reflexivity.
Qed.

End OptionEndFacts.

(** ** The [-type] options of a written option string *)

Section WrittenOptionFacts.
Context {F : dir_scan_flags} (Hwf : flags_wf F).

(** A row of the table in front of white space is found as itself. *)
Lemma find_scan_flag_row e c rest :
  In e glob_scan_flags -> isspace c = true ->
  find_scan_flag glob_scan_flags (sf_name e ++ c :: rest)
    = Some (e, skip_spaces (c :: rest)).
Proof.
  intros H Hc. cbn [glob_scan_flags In] in H.
  repeat (destruct H as [<- | H];
          [cbn; rewrite Hc; reflexivity|]).
  contradiction.
Qed.

Lemma option_text_minus o tail :
  option_wf o -> peek (option_text o ++ tail) = CH_MINUS.
Proof.
  destruct o as [e | ws p | ws p]; cbn [option_wf option_text];
    [|reflexivity | reflexivity].
  intros H. cbn [glob_scan_flags In] in H.
  repeat (destruct H as [<- | H]; [reflexivity|]). contradiction.
Qed.

Lemma option_text_length o : option_wf o -> (0 < List.length (option_text o))%nat.
Proof.
  intros H. pose proof (option_text_minus o [] H) as Hp.
  rewrite app_nil_r in Hp. destruct (option_text o); [discriminate | cbn; lia].
Qed.

Lemma options_end_no_space dashes location :
  isspace (peek location) = false ->
  isspace (peek (options_end dashes location)) = false.
Proof. destruct dashes; [reflexivity | intros H; exact H]. Qed.

Lemma options_text_no_space opts dashes location :
  options_wf opts dashes location ->
  isspace (peek (options_text opts (options_end dashes location))) = false.
Proof.
  intros (Hopts & _ & Hloc). destruct opts as [|[o ws] opts].
  - apply options_end_no_space. exact Hloc.
  - inversion Hopts as [|? ? [Ho _] _]; subst. cbn [options_text fst] in *.
    rewrite (option_text_minus o _ Ho). reflexivity.
Qed.

Lemma pattern_text_no_space p tail :
  pattern_wf p = true -> isspace (peek (pattern_text p ++ tail)) = false.
Proof.
  destruct p as [w | q body]; cbn [pattern_wf pattern_text]; intros H.
  - apply andb_true_iff in H. destruct H as [H _].
    apply andb_true_iff in H. destruct H as [H _].
    apply andb_true_iff in H. destruct H as [Hlen Hns].
    destruct w as [|c w]; [discriminate|]. cbn [app peek].
    cbn [no_space forallb] in Hns. apply andb_true_iff in Hns.
    destruct Hns as [Hc _]. apply negb_true_iff in Hc. exact Hc.
  - apply andb_true_iff in H. destruct H as [Hq _]. cbn [app peek].
    apply orb_true_iff in Hq.
    destruct Hq as [Hq | Hq]; apply Ascii.eqb_eq in Hq; subst q; reflexivity.
Qed.

(** The argument of [-name] and [-path] is read as it is written. *)
Lemma read_written_pattern p ws rest :
  pattern_wf p = true -> is_blank ws = true -> isspace (peek rest) = false ->
  read_name_pattern (pattern_text p ++ ws ++ rest) = (pattern_value p, rest).
Proof.
  intros Hp Hws Hrest.
  destruct (is_blank_cons ws Hws) as (sp & ws' & -> & Hsp & Hws').
  destruct p as [w | q body]; cbn [pattern_wf pattern_text pattern_value] in *.
  - apply andb_true_iff in Hp. destruct Hp as [Hp Hsq].
    apply andb_true_iff in Hp. destruct Hp as [Hp Hdq].
    apply andb_true_iff in Hp. destruct Hp as [_ Hns].
    apply negb_true_iff in Hsq. apply negb_true_iff in Hdq.
    cbn [app]. rewrite read_name_pattern_plain;
      [|exact Hns | exact Hsp
       |intros E; rewrite E in Hdq; discriminate
       |intros E; rewrite E in Hsq; discriminate].
    rewrite skip_spaces_blank by exact Hws'.
    rewrite skip_spaces_stop by exact Hrest. reflexivity.
  - apply andb_true_iff in Hp. destruct Hp as [Hq Hbody].
    replace ((q :: body ++ [q]) ++ (sp :: ws') ++ rest)
      with (q :: body ++ q :: (sp :: ws') ++ rest)
      by (cbn [app]; rewrite <- app_assoc; reflexivity).
    rewrite read_name_pattern_quoted;
      [|apply orb_true_iff in Hq; destruct Hq as [Hq | Hq];
        apply Ascii.eqb_eq in Hq; tauto
       |exact Hbody].
    cbn [app skip_spaces]. rewrite Hsp.
    rewrite skip_spaces_blank by exact Hws'.
    rewrite skip_spaces_stop by exact Hrest. reflexivity.
Qed.

(** The loop takes a written option for what it stands for and moves
    behind it and its white space. *)
Lemma next_option_written o ws rest :
  option_wf o -> is_blank ws = true -> isspace (peek rest) = false ->
  next_option (option_text o ++ ws ++ rest) = (option_meaning o, rest).
Proof.
  intros Ho Hws Hrest.
  destruct o as [e | ws1 p | ws1 p]; cbn [option_wf option_text option_meaning] in *.
  - destruct (is_blank_cons ws Hws) as (c & ws' & -> & Hc & Hws').
    unfold next_option. cbn [app].
    rewrite (find_scan_flag_row e c (ws' ++ rest) Ho Hc).
    cbn [skip_spaces]. rewrite Hc.
    rewrite skip_spaces_blank by exact Hws'.
    rewrite skip_spaces_stop by exact Hrest. reflexivity.
  - destruct Ho as [Hws1 Hp].
    destruct (is_blank_cons ws1 Hws1) as (c & ws1' & -> & Hc & Hws1').
    rewrite <- !app_assoc. unfold next_option, glob_scan_flags.
    cbn [cstr list_ascii_of_string app find_scan_flag sf_name strlen List.length
         strncmp_eq Ascii.eqb Bool.eqb andb char_at nth skipn].
    rewrite Hc. cbn [andb skip_spaces]. rewrite Hc.
    rewrite skip_spaces_blank by exact Hws1'.
    rewrite skip_spaces_stop by (apply pattern_text_no_space; exact Hp).
    rewrite read_written_pattern by assumption. reflexivity.
  - destruct Ho as [Hws1 Hp].
    destruct (is_blank_cons ws1 Hws1) as (c & ws1' & -> & Hc & Hws1').
    rewrite <- !app_assoc. unfold next_option, glob_scan_flags.
    cbn [cstr list_ascii_of_string app find_scan_flag sf_name strlen List.length
         strncmp_eq Ascii.eqb Bool.eqb andb char_at nth skipn].
    rewrite Hc. cbn [andb skip_spaces]. rewrite Hc.
    rewrite skip_spaces_blank by exact Hws1'.
    rewrite skip_spaces_stop by (apply pattern_text_no_space; exact Hp).
    rewrite read_written_pattern by assumption. reflexivity.
Qed.

Lemma options_text_length opts tail :
  (List.length tail <= List.length (options_text opts tail))%nat.
Proof.
  induction opts as [|[o ws] opts IH]; cbn [options_text]; [lia|].
  rewrite !length_app. lia.
Qed.

(** The loop on the end of the option string. *)
Lemma loop_options_end fuel dashes location st :
  match dashes with
  | Some ws => is_blank ws = true
  | None => peek location <> CH_MINUS
  end ->
  isspace (peek location) = false ->
  (List.length (options_end dashes location) < fuel)%nat ->
  glob_options_loop fuel (options_end dashes location) st
    = glob_parsed st (Some location).
Proof.
  intros Hd Hloc Hfuel. destruct fuel as [|fuel]; [lia|].
  destruct dashes as [ws|]; cbn [options_end] in *.
  - destruct (is_blank_cons ws Hd) as (c & ws' & -> & Hc & Hws').
    change (cstr "--" ++ (c :: ws') ++ location)
      with ("-"%char :: "-"%char :: c :: ws' ++ location).
    cbn [glob_options_loop].
    change ("-"%char :: "-"%char :: c :: ws' ++ location)
      with (cstr "--" ++ c :: ws' ++ location).
    rewrite (next_option_end c (ws' ++ location) Hc).
    rewrite skip_spaces_blank by exact Hws'.
    rewrite skip_spaces_stop by exact Hloc. reflexivity.
  - destruct location as [|c location]; [reflexivity|].
    cbn [glob_options_loop]. rewrite (next_option_location _ Hd). reflexivity.
Qed.

(** The loop on a written option string: it comes to the location, and
    the exclusion flags are those the written rows clear. *)
Lemma loop_options_text opts dashes location :
  options_wf opts dashes location ->
  forall fuel st cl,
    (List.length (options_text opts (options_end dashes location)) < fuel)%nat ->
    type_inv st cl ->
    exists st',
      glob_options_loop fuel (options_text opts (options_end dashes location)) st
        = glob_parsed st' (Some location) /\
      type_inv st' (cl ++ cleared_flags (map (fun ow => option_meaning (fst ow)) opts)).
Proof.
  induction opts as [|[o ws] opts IH]; intros Hall fuel st cl Hfuel Hinv.
  - destruct Hall as (_ & Hd & Hloc). cbn [options_text map cleared_flags] in *.
    exists st. rewrite app_nil_r. split; [|exact Hinv].
    apply loop_options_end; assumption.
  - pose proof Hall as (Hopts & Hd & Hloc).
    inversion Hopts as [|? ? [Ho Hws] Hrest]; subst. cbn [fst snd] in *.
    assert (Hall' : options_wf opts dashes location) by (split; [exact Hrest | tauto]).
    pose proof (options_text_no_space _ _ _ Hall') as Hns.
    pose proof (next_option_written o ws _ Ho Hws Hns) as Hnext.
    pose proof (option_text_length o Ho) as Hlen.
    cbn [options_text map fst] in *. rewrite !length_app in Hfuel.
    destruct fuel as [|fuel]; [lia|].
    remember (option_text o ++ ws ++
              options_text opts (options_end dashes location)) as text eqn:Et.
    destruct text as [|c text].
    { apply (f_equal (@List.length ascii)) in Et. rewrite !length_app in Et.
      cbn in Et. lia. }
    cbn [glob_options_loop]. rewrite Hnext.
    rewrite cleared_flags_cons, app_assoc.
    destruct o as [e | ws1 p | ws1 p]; cbn [option_meaning option_wf] in *.
    + apply IH; [exact Hall' | lia |].
      exact (type_inv_step Hwf e st cl Ho Hinv).
    + cbn [cleared_flags]. rewrite app_nil_r.
      apply IH; [exact Hall' | lia |].
      exact (Hinv : type_inv (Build_glob_opts _ _ _ _) cl).
    + cbn [cleared_flags]. rewrite app_nil_r.
      apply IH; [exact Hall' | lia |].
      exact (Hinv : type_inv (Build_glob_opts _ _ _ _) cl).
Qed.

(** What the invariant of the loop says of one exclusion flag. *)
Lemma type_inv_flag st cl c :
  type_inv st cl -> In c type_flags ->
  Z.land (scan_flags st) c =
    if Nat.eqb (List.length cl) 0 then 0
    else if existsb (Z.eqb c) cl then 0 else c.
Proof.
  intros (_ & Hcl & Hscan) Hc.
  rewrite <- (all_flags_member c Hc) at 1.
  rewrite Z.land_assoc, Hscan.
  destruct (Nat.eqb (List.length cl) 0); [apply Z.land_0_l|].
  clear Hscan.
  assert (Hstep : Z.land (Z.ldiff all_flags (lor_list cl)) c
                  = Z.ldiff c (lor_list cl)).
  { rewrite <- (all_flags_member c Hc) at 2.
    apply Z.bits_inj'. intros n _.
    rewrite !Z.land_spec, !Z.ldiff_spec, Z.land_spec.
    destruct (Z.testbit all_flags n), (Z.testbit (lor_list cl) n),
      (Z.testbit c n); reflexivity. }
  rewrite Hstep. clear Hstep.
  induction Hcl as [|x cl Hx _ IH]; cbn [lor_list fold_right existsb].
  - apply Z.ldiff_0_r.
  - fold (lor_list cl). rewrite <- ldiff_ldiff.
    destruct (Z.eqb_spec c x) as [<- | Hne]; cbn [orb].
    + rewrite Z.ldiff_diag. apply Z.ldiff_0_l.
    + destruct (single_bits_apart c x (type_flag_single Hwf c Hc)
                  (type_flag_single Hwf x Hx)) as [E | Hap];
        [contradiction|].
      replace (Z.ldiff c x) with c; [exact IH|].
      apply Z.bits_inj'. intros n _. rewrite Z.ldiff_spec.
      assert (Hb : Z.testbit c n && Z.testbit x n = false)
        by (rewrite <- Z.land_spec, Hap; apply Z.bits_0).
      destruct (Z.testbit c n), (Z.testbit x n);
        try reflexivity; discriminate.
Qed.

Lemma type_inv_start gf0 :
  type_inv {| scan_flags := 0; glob_flags := gf0;
              first_clear_flag := true; name_pattern := None |} [].
Proof. split; [reflexivity|]. split; [constructor | reflexivity]. Qed.

(** [glob_options] on a written option string. *)
Lemma glob_options_written opts dashes location gf0 :
  options_wf opts dashes location ->
  exists st,
    glob_options (Some (options_text opts (options_end dashes location))) gf0
      = glob_parsed st (match location with
                        | [] => None
                        | _ => Some location
                        end) /\
    type_inv st (cleared_flags (map (fun ow => option_meaning (fst ow)) opts)).
Proof.
  intros Hall.
  destruct (loop_options_text opts dashes location Hall
              (S (strlen (options_text opts (options_end dashes location))))
              {| scan_flags := 0; glob_flags := gf0;
                 first_clear_flag := true; name_pattern := None |} []
              ltac:(unfold strlen; lia) (type_inv_start gf0))
    as (st & Hrun & Hinv).
  exists st. split; [|exact Hinv].
  unfold glob_options. rewrite Hrun. destruct location; reflexivity.
Qed.

End WrittenOptionFacts.



(** X20. An option of a glob line has to be followed by white space: when
    what is left of the option string is one word that starts with [-] and
    runs to the end of the string, [glob_files] takes it for an unknown
    option, also when the word is one of the options it knows or [--]. *)
Theorem glob_option_at_end :
  forall (F : dir_scan_flags) extra,
    no_space extra = true -> peek extra = CH_MINUS ->
    (forall fuel st, glob_options_loop (S fuel) extra st = glob_unknown_option) /\
    (forall glob_flags0,
        glob_options (Some extra) glob_flags0 = glob_unknown_option).
Proof.
  intros F extra Hns Hm.
  assert (Hloop : forall fuel st,
             glob_options_loop (S fuel) extra st = glob_unknown_option).
  { intros fuel st. destruct extra as [|c extra]; [discriminate|].
    cbn [glob_options_loop]. rewrite (next_option_no_space _ Hns Hm).
    reflexivity. }
  split; [exact Hloop|]. intros gf0. unfold glob_options.
  rewrite Hloop. reflexivity.
Qed.

Lemma glob_option_at_end_witness :
  glob_options (F := sample_flags) (Some (cstr "-xdev")) 0 = glob_unknown_option /\
  glob_options (F := sample_flags) (Some (cstr "--")) 0 = glob_unknown_option.
Proof.
  split.
  - exact (proj2 (glob_option_at_end sample_flags (cstr "-xdev")
                    eq_refl eq_refl) 0).
  - exact (proj2 (glob_option_at_end sample_flags (cstr "--")
                    eq_refl eq_refl) 0).
Defined.

(** X21. The options of a glob line end at the first word that does not
    start with [-], and at [--]: what is left is the location of the scan
    and is not looked at for options any more.  Behind [--] and the white
    space that follows it the location may start with [-]; a location that
    is empty is passed on as NULL. *)
Theorem glob_options_end :
  forall (F : dir_scan_flags),
    (forall fuel extra st,
        extra <> [] -> peek extra <> CH_MINUS ->
        glob_options_loop (S fuel) extra st = glob_parsed st (Some extra)) /\
    (forall fuel c rest st,
        isspace c = true ->
        glob_options_loop (S fuel) (cstr "--" ++ c :: rest) st
          = glob_parsed st (Some (skip_spaces rest))) /\
    (forall c rest glob_flags0,
        isspace c = true ->
        glob_options (Some (cstr "--" ++ c :: rest)) glob_flags0
          = glob_parsed {| scan_flags := 0; glob_flags := glob_flags0;
                           first_clear_flag := true; name_pattern := None |}
                        (match skip_spaces rest with
                         | [] => None
                         | location => Some location
                         end)).
Proof.
  intros F.
  assert (Hend : forall fuel c rest st,
             isspace c = true ->
             glob_options_loop (S fuel) (cstr "--" ++ c :: rest) st
             = glob_parsed st (Some (skip_spaces rest))).
  { intros fuel c rest st Hc.
    change (cstr "--" ++ c :: rest) with ("-"%char :: "-"%char :: c :: rest).
    cbn [glob_options_loop].
    change ("-"%char :: "-"%char :: c :: rest) with (cstr "--" ++ c :: rest).
    rewrite (next_option_end c rest Hc). reflexivity. }
  split; [|split; [exact Hend|]].
  - intros fuel extra st Hne Hm. destruct extra as [|c extra]; [contradiction|].
    cbn [glob_options_loop]. rewrite (next_option_location _ Hm). reflexivity.
  - intros c rest gf0 Hc. unfold glob_options. rewrite Hend by exact Hc.
    destruct (skip_spaces rest); reflexivity.
Qed.

Lemma glob_options_end_witness :
  glob_options (F := sample_flags) (Some (cstr "-- -type f")) 0
    = glob_parsed {| scan_flags := 0; glob_flags := 0;
                     first_clear_flag := true; name_pattern := None |}
                  (Some (cstr "-type f")) /\
  glob_options_loop (F := sample_flags) 1 (cstr "lib -type f")
    {| scan_flags := 0; glob_flags := 0;
       first_clear_flag := true; name_pattern := None |}
    = glob_parsed {| scan_flags := 0; glob_flags := 0;
                     first_clear_flag := true; name_pattern := None |}
                  (Some (cstr "lib -type f")).
Proof.
  destruct (glob_options_end sample_flags) as (H1 & _ & H3).
  split.
  - exact (H3 " "%char (cstr "-type f") 0 eq_refl).
  - apply H1; discriminate.
Defined.

(** ** A glob line without a location *)

(** X22. When the options of a glob line leave no location (nothing
    follows the gid, or nothing follows the last option) and no base path
    is given, [glob_files] scans the directory [.]; with a base path it
    takes [strlen] of the NULL pointer it has for the location, so that
    the call has no defined result.  This is for a line that parses and
    names a directory of the tree whose path canonicalizes. *)
Theorem glob_without_location :
  forall (F : dir_scan_flags) (U : util_api) (A : fstree_api)
         (fs : fstree_t) fn n line f fs1 root prefix' st,
    handle_line_fields line = inr f ->
    callback (lf_cb f) = fn_glob_files ->
    fstree_get_node_by_path fs (lf_path f) true false = (fs1, lib_ok root) ->
    S_ISDIR (node_mode root) = true ->
    canonicalize_name (fstree_get_path root) = Some prefix' ->
    glob_options (lf_extra f) (lf_glob_flags f) = glob_parsed st None ->
    (forall base, handle_line fs fn n line (Some base) = Undefined) /\
    handle_line fs fn n line None =
      (let cfg := {| cfg_flags := Z.lor (scan_flags st) (glob_flags st);
                     def_mtime := defaults_mtime fs;
                     def_uid := lf_uid f;
                     def_gid := lf_gid f;
                     def_mode := Z.lor (lf_mode f) (cb_mode (lf_cb f));
                     prefix := prefix';
                     cfg_name_pattern := name_pattern st |} in
       match dir_tree_iterator_create (cstr ".") cfg with
       | Some dir =>
           let (ret, fs') := fstree_from_dir fs1 dir in Done (ret, fs', [])
       | None => Done (-1, fs1, [])
       end).
Proof.
  intros F U A fs fn n line f fs1 root prefix' st Hf Hcb Hnode Hdir Hcan Hopt.
  unfold handle_line. rewrite Hf, Hcb. cbv zeta. cbn [run_callback].
  unfold glob_files. rewrite Hnode, Hdir. cbn [negb]. rewrite Hcan, Hopt.
  destruct st as [sf gf fc pat]. cbn [st_mode st_uid st_gid st_mtime].
  split; [intros base; reflexivity | reflexivity].
Qed.

Lemma glob_without_location_witness :
  handle_line (F := sample_flags) (U := sample_util) (A := sample_fstree)
    [(cstr "a", Z.lor S_IFDIR 493)] (cstr "list") 3
    (cstr "glob /a * * * -type f ") (Some (cstr "/src")) = Undefined.
Proof.
  refine (proj1 (glob_without_location sample_flags sample_util sample_fstree
            [(cstr "a", Z.lor S_IFDIR 493)] (cstr "list") 3
            (cstr "glob /a * * * -type f ")
            {| lf_cb := hook_named "glob"; lf_path := cstr "a";
               lf_mode := 0; lf_uid := 0; lf_gid := 0;
               lf_glob_flags := 0x1C00;
               lf_extra := Some (cstr "-type f ") |}
            _ _ _ _ eq_refl eq_refl eq_refl eq_refl eq_refl _) (cstr "/src")).
  vm_compute. reflexivity.
Defined.

(** ** Overriding the owner more than once *)

Section OwnerAgain.
Import Mkfs.

Lemma override_twice o1 o2 :
  forall n,
    override_owner_dfs o2 (override_owner_dfs o1 n) =
    override_owner_dfs
      {| force_uid := force_uid o1 || force_uid o2;
         force_gid := force_gid o1 || force_gid o2;
         force_uid_value :=
           if force_uid o2 then force_uid_value o2 else force_uid_value o1;
         force_gid_value :=
           if force_gid o2 then force_gid_value o2 else force_gid_value o1 |}
      n.
Proof.
  apply tree_node_children_ind. intros n Hch.
  destruct n as [nm u g m t x i lc p ch]. cbn [children] in Hch.
  cbn [override_owner_dfs name uid gid mode mod_time xattr_idx inode_num
       link_count payload children force_uid force_gid force_uid_value
       force_gid_value].
  f_equal.
  - destruct (force_uid o1), (force_uid o2); reflexivity.
  - destruct (force_gid o1), (force_gid o2); reflexivity.
  - destruct (S_ISDIR m); [|reflexivity].
    rewrite map_map. apply map_ext_in. intros c Hc.
    rewrite Forall_forall in Hch. exact (Hch c Hc).
Qed.

End OwnerAgain.

(** X23. Overriding the owner twice is overriding it once: a second run of
    [override_owner_dfs] with the same options changes nothing, and a run
    with other options behind the first gives, field by field, the value
    of the later run where that run forces the field and the value of the
    first run where only the first does. *)
Theorem override_owner_again :
  forall opt o1 o2 n,
    Mkfs.override_owner_dfs opt (Mkfs.override_owner_dfs opt n)
      = Mkfs.override_owner_dfs opt n /\
    Mkfs.override_owner_dfs o2 (Mkfs.override_owner_dfs o1 n) =
      Mkfs.override_owner_dfs
        {| Mkfs.force_uid := Mkfs.force_uid o1 || Mkfs.force_uid o2;
           Mkfs.force_gid := Mkfs.force_gid o1 || Mkfs.force_gid o2;
           Mkfs.force_uid_value :=
             if Mkfs.force_uid o2 then Mkfs.force_uid_value o2
             else Mkfs.force_uid_value o1;
           Mkfs.force_gid_value :=
             if Mkfs.force_gid o2 then Mkfs.force_gid_value o2
             else Mkfs.force_gid_value o1 |}
        n.
Proof.
  intros opt o1 o2 n. split; [|apply override_twice].
  rewrite override_twice. f_equal.
  destruct opt as [fu fg vu vg]. cbn.
  destruct fu, fg; reflexivity.
Qed.

(** ** Relabeling the tree *)

Section RelabelFacts.
Import Mkfs Relabel.
Context {X : xattr_api}.

Lemma relabel_children_kept visit :
  forall cs,
    Forall (fun c => forall w, relabel_kept c (visit w c)) cs ->
    forall w,
      let '(ret, w', cs', msgs) := relabel_children visit cs w in
      map without_xattr cs' = map without_xattr cs /\
      ((ret = 0 /\ msgs = []) \/ (ret = -1 /\ exists text, msgs = [plain text])).
Proof.
  induction cs as [|c cs IH]; intros Hcs w.
  - cbn. split; [reflexivity | left; split; reflexivity].
  - inversion Hcs as [|? ? Hc Hrest]; subst. cbn [relabel_children].
    specialize (Hc w). unfold relabel_kept in Hc.
    destruct (visit w c) as [[[r w1] c'] msgs1].
    destruct Hc as (Hsame & _ & Hret).
    destruct (Z.eqb_spec r 0) as [-> | Hne]; cbn [negb].
    + specialize (IH Hrest w1).
      destruct (relabel_children visit cs w1) as [[[r2 w2] cs''] msgs2].
      destruct IH as [Hmap Hret2]. cbn [map]. rewrite Hsame, Hmap.
      split; [reflexivity|].
      destruct Hret as [[_ ->] | [E _]]; [exact Hret2 | discriminate].
    + cbn [map]. rewrite Hsame. split; [reflexivity|].
      right. split; [reflexivity|].
      destruct Hret as [[E _] | [_ Hm]]; [contradiction | exact Hm].
Qed.

Lemma relabel_tree_kept :
  forall n filename xwr anc selinux_handle xattrmap,
    relabel_kept n
      (relabel_tree_dfs filename xwr anc n selinux_handle xattrmap).
Proof.
  apply (tree_node_children_ind
           (fun n => forall filename xwr anc selinux_handle xattrmap,
                relabel_kept n
                  (relabel_tree_dfs filename xwr anc n selinux_handle xattrmap))).
  intros n Hch filename xwr anc sel xmap.
  destruct n as [nm u g m t x i lc p ch]. cbn [children] in Hch.
  cbn [relabel_tree_dfs name uid gid mode mod_time xattr_idx inode_num
       link_count payload children].
  set (n := {| name := nm; uid := u; gid := g; mode := m; mod_time := t;
               xattr_idx := x; inode_num := i; link_count := lc;
               payload := p; children := ch |}).
  assert (Hidx : forall idx ch',
             map without_xattr ch' = map without_xattr ch ->
             without_xattr (with_xattr_idx n idx ch') = without_xattr n).
  { intros idx ch' Hmap. cbn. rewrite Hmap. reflexivity. }
  destruct (fstree_get_path anc n) as [path | err].
  2:{ split; [reflexivity|]. split; [reflexivity|].
      right. split; [reflexivity | eexists; reflexivity]. }
  destruct (sqfs_xattr_writer_begin xwr) as [ret0 xwr1].
  destruct (ret0 =? 0); cbn [negb].
  2:{ split; [reflexivity|]. split; [reflexivity|].
      right. split; [reflexivity | eexists; reflexivity]. }
  destruct (match xmap with
            | Some map => xattr_apply_map_file path map xwr1
            | None => (ret0, xwr1)
            end) as [ret1 xwr2].
  destruct (match ret1 =? 0, sel with
            | true, Some handle => selinux_relable_node handle xwr2 n path
            | _, _ => (ret1, xwr2)
            end) as [ret2 xwr3].
  destruct (if ret2 =? 0 then sqfs_xattr_writer_end xwr3 x
            else (ret2, xwr3, x)) as [[ret3 xwr4] idx].
  destruct (ret3 =? 0); cbn [negb].
  2:{ split; [apply Hidx; reflexivity|]. split; [reflexivity|].
      right. split; [reflexivity | eexists; reflexivity]. }
  destruct (S_ISDIR m) eqn:Hdir.
  2:{ split; [apply Hidx; reflexivity|]. split; [reflexivity|].
      left. split; reflexivity. }
  pose proof (relabel_children_kept
                (fun w c => relabel_tree_dfs filename w (anc ++ [nm]) c sel xmap)
                ch) as Hloop.
  assert (Hall : Forall (fun c => forall w,
                     relabel_kept c
                       (relabel_tree_dfs filename w (anc ++ [nm]) c sel xmap)) ch).
  { apply Forall_forall. intros c Hc w. rewrite Forall_forall in Hch.
    apply (Hch c Hc). }
  specialize (Hloop Hall xwr4).
  destruct (relabel_children _ ch xwr4) as [[[ret xwr5] ch'] msgs].
  destruct Hloop as [Hmap Hret].
  split; [apply Hidx; exact Hmap|].
  split; [intros E; subst n; cbn [mode] in E; congruence | exact Hret].
Qed.

End RelabelFacts.

(** X24. [relabel_tree_dfs] writes to nothing in the tree but the
    [xattr_idx] of nodes: whatever the writer and the labeling functions
    return, and whether it returns 0 or -1, the tree it leaves has the
    shape, the names, owners, modes and other attributes of the tree it
    was given, and the children of a node that is no directory are not
    touched at all. *)
Theorem relabel_keeps_tree :
  forall (X : Relabel.xattr_api) filename xwr anc n selinux_handle xattrmap,
    let n' := snd (fst (Relabel.relabel_tree_dfs filename xwr anc n
                          selinux_handle xattrmap)) in
    Relabel.without_xattr n' = Relabel.without_xattr n /\
    Mkfs.mode n' = Mkfs.mode n /\
    (S_ISDIR (Mkfs.mode n) = false -> Mkfs.children n' = Mkfs.children n).
Proof.
  intros X filename xwr anc n sel xmap.
  pose proof (relabel_tree_kept n filename xwr anc sel xmap) as H.
  unfold Relabel.relabel_kept in H.
  destruct (Relabel.relabel_tree_dfs filename xwr anc n sel xmap)
    as [[[ret w] n1] msgs].
  destruct H as (Hsame & Hch & _). cbn [fst snd].
  split; [exact Hsame|]. split; [|exact Hch].
  destruct n1, n. cbn in Hsame |- *. congruence.
Qed.

(** ** The first call that fails *)

Section RelabelFailFacts.
Import Mkfs Relabel.
Context {X : xattr_api}.

Lemma with_xattr_idx_same n : with_xattr_idx n (xattr_idx n) (children n) = n.
Proof. destruct n; reflexivity. Qed.

(** One step of [relabel_tree_dfs], by what its own calls come to. *)
Lemma relabel_own filename xwr anc n sel xmap :
  match own_calls xwr anc n sel xmap with
  | Some (xwr4, idx) =>
      relabel_tree_dfs filename xwr anc n sel xmap =
        if S_ISDIR (mode n) then
          let '(ret, xwr5, ch, msgs) :=
            relabel_children
              (fun w c => relabel_tree_dfs filename w (anc ++ [name n]) c sel xmap)
              (children n) xwr4 in
          (ret, xwr5, with_xattr_idx n idx ch, msgs)
        else (0, xwr4, with_xattr_idx n idx (children n), [])
  | None =>
      exists w idx text,
        relabel_tree_dfs filename xwr anc n sel xmap =
          (-1, w, with_xattr_idx n idx (children n), [plain text])
  end.
Proof.
  destruct n as [nm u g m t x i lc p ch].
  unfold own_calls.
  cbn [relabel_tree_dfs name uid gid mode mod_time xattr_idx inode_num
       link_count payload children].
  set (n := {| name := nm; uid := u; gid := g; mode := m; mod_time := t;
               xattr_idx := x; inode_num := i; link_count := lc;
               payload := p; children := ch |}).
  destruct (fstree_get_path anc n) as [path | err].
  2:{ eexists xwr, x, _. reflexivity. }
  destruct (sqfs_xattr_writer_begin xwr) as [ret0 xwr1].
  destruct (ret0 =? 0) eqn:E0; cbn [negb].
  2:{ eexists xwr1, x, _. reflexivity. }
  assert (Hend : forall w ret2,
             ret2 = 0 ->
             match (let '(ret3, xwr4, idx) := sqfs_xattr_writer_end w x in
                    if negb (ret3 =? 0) then None else Some (xwr4, idx)) with
             | Some (xwr4, idx) =>
                 (let '(ret3, xwr4, idx) :=
                    if ret2 =? 0 then sqfs_xattr_writer_end w x
                    else (ret2, w, x) in
                  if negb (ret3 =? 0) then
                    (-1, xwr4, with_xattr_idx n idx (children n),
                     [plain (sqfs_perror_text filename
                               (cstr "flushing completed key-value pairs") ret3)])
                  else if S_ISDIR m then
                    let '(ret, xwr5, ch0, msgs) :=
                      relabel_children
                        (fun w c => relabel_tree_dfs filename w (anc ++ [nm]) c
                                                     sel xmap)
                        ch xwr4 in
                    (ret, xwr5, with_xattr_idx n idx ch0, msgs)
                  else (0, xwr4, with_xattr_idx n idx (children n), [])) =
                 (if S_ISDIR m then
                    let '(ret, xwr5, ch0, msgs) :=
                      relabel_children
                        (fun w c => relabel_tree_dfs filename w (anc ++ [nm]) c
                                                     sel xmap)
                        (children n) xwr4 in
                    (ret, xwr5, with_xattr_idx n idx ch0, msgs)
                  else (0, xwr4, with_xattr_idx n idx (children n), []))
             | None =>
                 exists w' idx text,
                   (let '(ret3, xwr4, idx) :=
                      if ret2 =? 0 then sqfs_xattr_writer_end w x
                      else (ret2, w, x) in
                    if negb (ret3 =? 0) then
                      (-1, xwr4, with_xattr_idx n idx (children n),
                       [plain (sqfs_perror_text filename
                                 (cstr "flushing completed key-value pairs") ret3)])
                    else if S_ISDIR m then
                      let '(ret, xwr5, ch0, msgs) :=
                        relabel_children
                          (fun w c => relabel_tree_dfs filename w (anc ++ [nm]) c
                                                       sel xmap)
                          ch xwr4 in
                      (ret, xwr5, with_xattr_idx n idx ch0, msgs)
                    else (0, xwr4, with_xattr_idx n idx (children n), [])) =
                   (-1, w', with_xattr_idx n idx (children n), [plain text])
             end).
  { intros w ret2 ->. cbn [Z.eqb].
    destruct (sqfs_xattr_writer_end w x) as [[ret3 xwr4] idx].
    destruct (ret3 =? 0); cbn [negb];
      [reflexivity | eexists xwr4, idx, _; reflexivity]. }
  apply Z.eqb_eq in E0. subst ret0.
  destruct xmap as [map|].
  - destruct (xattr_apply_map_file path map xwr1) as [ret1 xwr2].
    destruct (Z.eqb_spec ret1 0) as [-> | Hne1]; cbn [negb].
    + destruct sel as [handle|].
      * destruct (selinux_relable_node handle xwr2 n path) as [ret2 xwr3].
        destruct (Z.eqb_spec ret2 0) as [-> | Hne2]; cbn [negb].
        -- exact (Hend xwr3 0 eq_refl).
        -- apply Z.eqb_neq in Hne2. rewrite ?Hne2. cbn [negb].
           eexists xwr3, x, _. reflexivity.
      * exact (Hend xwr2 0 eq_refl).
    + apply Z.eqb_neq in Hne1. rewrite ?Hne1. cbn [negb].
           eexists xwr2, x, _. reflexivity.
  - cbn [Z.eqb negb]. destruct sel as [handle|].
    + destruct (selinux_relable_node handle xwr1 n path) as [ret2 xwr3].
      destruct (Z.eqb_spec ret2 0) as [-> | Hne2]; cbn [negb].
      * exact (Hend xwr3 0 eq_refl).
      * apply Z.eqb_neq in Hne2. rewrite ?Hne2. cbn [negb].
           eexists xwr3, x, _. reflexivity.
    + exact (Hend xwr1 0 eq_refl).
Qed.

(** The loop over the children against [children_pass], when the visit
    of every node agrees with [pass]. *)
Lemma relabel_children_pass
    (visit : sqfs_xattr_writer_t -> tree_node -> relabel_result)
    (pass : sqfs_xattr_writer_t -> tree_node ->
            option (sqfs_xattr_writer_t * tree_node)) :
  forall cs,
    Forall (fun c => forall w,
                match pass w c with
                | Some (w', c') => visit w c = (0, w', c', [])
                | None => exists w' c' text, visit w c = (-1, w', c', [plain text])
                end) cs ->
    forall w,
      match children_pass pass cs w with
      | Some (w', cs') => relabel_children visit cs w = (0, w', cs', [])
      | None =>
          exists w' cs' text,
            relabel_children visit cs w = (-1, w', cs', [plain text])
      end.
Proof.
  induction cs as [|c cs IH]; intros Hcs w; [reflexivity|].
  inversion Hcs as [|? ? Hc Hrest]; subst.
  cbn [children_pass relabel_children]. specialize (Hc w).
  destruct (pass w c) as [[w1 c']|].
  - rewrite Hc. cbn [Z.eqb negb]. specialize (IH Hrest w1).
    destruct (children_pass pass cs w1) as [[w2 cs'']|].
    + rewrite IH. reflexivity.
    + destruct IH as (w' & cs' & text & ->).
      eexists _, _, _. reflexivity.
  - destruct Hc as (w' & c' & text & ->). cbn [Z.eqb negb].
    eexists _, _, _. reflexivity.
Qed.

(** The loop stops at the first child that fails. *)
Lemma relabel_children_stop
    (visit : sqfs_xattr_writer_t -> tree_node -> relabel_result)
    (pass : sqfs_xattr_writer_t -> tree_node ->
            option (sqfs_xattr_writer_t * tree_node)) c post :
  forall pre w w1 pre',
    Forall (fun c => forall w w' c',
                pass w c = Some (w', c') -> visit w c = (0, w', c', [])) pre ->
    children_pass pass pre w = Some (w1, pre') ->
    fst (fst (fst (visit w1 c))) <> 0 ->
    let '(rc, w', c', msgs) := visit w1 c in
    relabel_children visit (pre ++ c :: post) w
      = (-1, w', pre' ++ c' :: post, msgs).
Proof.
  induction pre as [|p pre IH]; intros w w1 pre' Hpre Hpass Hfail.
  - cbn [children_pass] in Hpass. inversion Hpass; subst.
    cbn [app relabel_children].
    destruct (visit w1 c) as [[[rc w'] c'] msgs]. cbn [fst] in Hfail.
    destruct (Z.eqb_spec rc 0); [contradiction | reflexivity].
  - inversion Hpre as [|? ? Hp Hrest]; subst.
    cbn [children_pass] in Hpass.
    destruct (pass w p) as [[w2 p']|] eqn:Ep; [|discriminate].
    destruct (children_pass pass pre w2) as [[w3 pre'']|] eqn:Epre;
      [|discriminate].
    inversion Hpass; subst. specialize (IH w2 w1 pre'' Hrest Epre Hfail).
    cbn [app relabel_children]. rewrite (Hp _ _ _ Ep). cbn [Z.eqb negb].
    destruct (visit w1 c) as [[[rc w'] c'] msgs].
    rewrite IH. reflexivity.
Qed.

(** [relabel_tree_dfs] against [tree_passes]. *)
Lemma relabel_tree_passes :
  forall n filename xwr anc sel xmap,
    match tree_passes xwr anc n sel xmap with
    | Some (w, n') =>
        relabel_tree_dfs filename xwr anc n sel xmap = (0, w, n', [])
    | None =>
        exists w n' text,
          relabel_tree_dfs filename xwr anc n sel xmap = (-1, w, n', [plain text])
    end.
Proof.
  apply (tree_node_children_ind
           (fun n => forall filename xwr anc sel xmap,
                match tree_passes xwr anc n sel xmap with
                | Some (w, n') =>
                    relabel_tree_dfs filename xwr anc n sel xmap = (0, w, n', [])
                | None =>
                    exists w n' text,
                      relabel_tree_dfs filename xwr anc n sel xmap
                        = (-1, w, n', [plain text])
                end)).
  intros n Hch filename xwr anc sel xmap.
  pose proof (relabel_own filename xwr anc n sel xmap) as Hown.
  assert (Hunfold : tree_passes xwr anc n sel xmap =
            match own_calls xwr anc n sel xmap with
            | None => None
            | Some (xwr4, idx) =>
                if S_ISDIR (mode n) then
                  match children_pass
                          (fun w c => tree_passes w (anc ++ [name n]) c sel xmap)
                          (children n) xwr4 with
                  | None => None
                  | Some (w, ch) => Some (w, with_xattr_idx n idx ch)
                  end
                else Some (xwr4, with_xattr_idx n idx (children n))
            end) by (destruct n; reflexivity).
  rewrite Hunfold.
  destruct (own_calls xwr anc n sel xmap) as [[xwr4 idx]|].
  - rewrite Hown. destruct (S_ISDIR (mode n)); [|reflexivity].
    pose proof (relabel_children_pass
                  (fun w c => relabel_tree_dfs filename w (anc ++ [name n]) c
                                               sel xmap)
                  (fun w c => tree_passes w (anc ++ [name n]) c sel xmap)
                  (children n)) as Hloop.
    assert (Hall : Forall (fun c => forall w,
                match tree_passes w (anc ++ [name n]) c sel xmap with
                | Some (w', c') =>
                    relabel_tree_dfs filename w (anc ++ [name n]) c sel xmap
                      = (0, w', c', [])
                | None =>
                    exists w' c' text,
                      relabel_tree_dfs filename w (anc ++ [name n]) c sel xmap
                        = (-1, w', c', [plain text])
                end) (children n)).
    { apply Forall_forall. intros c Hc w. rewrite Forall_forall in Hch.
      apply (Hch c Hc). }
    specialize (Hloop Hall xwr4).
    destruct (children_pass _ (children n) xwr4) as [[w ch']|].
    + rewrite Hloop. reflexivity.
    + destruct Hloop as (w' & cs' & text & ->).
      eexists _, _, _. reflexivity.
  - destruct Hown as (w & idx & text & ->). eexists _, _, _. reflexivity.
Qed.

End RelabelFailFacts.

(** X25. [relabel_tree_dfs] returns 0 or -1, 0 without output and -1 with
    exactly one message, and it returns 0 exactly when no call fails: when
    every call for the node and for the nodes below it returns 0, taken in
    the order of a depth-first walk, it returns 0 with the writer and the
    tree these calls leave, and when one of them fails it returns -1.  It
    stops at the first call that fails: when a call for the node itself
    fails, its children are not visited and stay as they were; when the
    node's own calls pass and the children in front of a child pass, and
    that child fails, the result is -1 with the writer and the message the
    failing child left, the children in front relabeled, and the children
    behind it as they were. *)
Theorem relabel_first_failure :
  forall (X : Relabel.xattr_api) filename xwr anc n selinux_handle xattrmap,
    let r := Relabel.relabel_tree_dfs filename xwr anc n
               selinux_handle xattrmap in
    ((fst (fst (fst r)) = 0 /\ snd r = []) \/
     (fst (fst (fst r)) = -1 /\ exists text, snd r = [plain text])) /\
    (fst (fst (fst r)) = 0 <->
     tree_passes xwr anc n selinux_handle xattrmap <> None) /\
    (forall w n',
        tree_passes xwr anc n selinux_handle xattrmap = Some (w, n') ->
        r = (0, w, n', [])) /\
    (own_calls xwr anc n selinux_handle xattrmap = None ->
     fst (fst (fst r)) = -1 /\
     Mkfs.children (snd (fst r)) = Mkfs.children n) /\
    (forall xwr4 idx pre c post w pre',
        own_calls xwr anc n selinux_handle xattrmap = Some (xwr4, idx) ->
        S_ISDIR (Mkfs.mode n) = true ->
        Mkfs.children n = pre ++ c :: post ->
        children_pass
          (fun w c => tree_passes w (anc ++ [Mkfs.name n]) c
                                  selinux_handle xattrmap) pre xwr4
          = Some (w, pre') ->
        tree_passes w (anc ++ [Mkfs.name n]) c selinux_handle xattrmap = None ->
        let '(rc, w', c', msgs) :=
          Relabel.relabel_tree_dfs filename w (anc ++ [Mkfs.name n]) c
                                   selinux_handle xattrmap in
        r = (-1, w', Relabel.with_xattr_idx n idx (pre' ++ c' :: post), msgs)).
Proof.
  intros X filename xwr anc n sel xmap r.
  pose proof (relabel_tree_passes n filename xwr anc sel xmap) as Hpass.
  pose proof (relabel_own filename xwr anc n sel xmap) as Hown.
  fold r in Hpass, Hown.
  split; [|split; [|split; [|split]]].
  - destruct (tree_passes xwr anc n sel xmap) as [[w n']|].
    + rewrite Hpass. left. split; reflexivity.
    + destruct Hpass as (w & n' & text & ->). right.
      split; [reflexivity | exists text; reflexivity].
  - destruct (tree_passes xwr anc n sel xmap) as [[w n']|].
    + rewrite Hpass. split; [discriminate | reflexivity].
    + destruct Hpass as (w & n' & text & ->). cbn [fst].
      split; [discriminate | intros H; exfalso; apply H; reflexivity].
  - intros w n' E. rewrite E in Hpass. exact Hpass.
  - intros E. rewrite E in Hown. destruct Hown as (w & idx & text & ->).
    split; reflexivity.
  - intros xwr4 idx pre c post w pre' E Hdir Hch Hpre Hc.
    rewrite E, Hdir, Hch in Hown.
    pose proof (relabel_tree_passes c filename w (anc ++ [Mkfs.name n]) sel xmap)
      as Hfail.
    rewrite Hc in Hfail.
    assert (Hne : fst (fst (fst (Relabel.relabel_tree_dfs filename w
                                   (anc ++ [Mkfs.name n]) c sel xmap))) <> 0).
    { destruct Hfail as (w' & c' & text & ->). discriminate. }
    pose proof (relabel_children_stop
                  (fun w c => Relabel.relabel_tree_dfs filename w
                                (anc ++ [Mkfs.name n]) c sel xmap)
                  (fun w c => tree_passes w (anc ++ [Mkfs.name n]) c sel xmap)
                  c post pre xwr4 w pre') as Hstop.
    assert (Hall : Forall (fun c => forall w w' c',
                       tree_passes w (anc ++ [Mkfs.name n]) c sel xmap
                         = Some (w', c') ->
                       Relabel.relabel_tree_dfs filename w
                         (anc ++ [Mkfs.name n]) c sel xmap = (0, w', c', []))
                     pre).
    { apply Forall_forall. intros p _ w0 w' p' Ep.
      pose proof (relabel_tree_passes p filename w0 (anc ++ [Mkfs.name n])
                    sel xmap) as H.
      rewrite Ep in H. exact H. }
    specialize (Hstop Hall Hpre Hne).
    destruct (Relabel.relabel_tree_dfs filename w (anc ++ [Mkfs.name n]) c
                sel xmap) as [[[rc w'] c'] msgs].
    rewrite Hown, Hstop. reflexivity.
Qed.

Lemma relabel_first_failure_witness :
  exists a' bad' w,
    Relabel.relabel_tree_dfs (X := sample_xattr) (cstr "out.sqfs") 0 []
      (sample_node "" (Z.lor S_IFDIR 0x1ED) 0 0
         [ sample_node "a" (Z.lor S_IFREG 0x1A4) 0 0 [];
           sample_node "bad" (Z.lor S_IFREG 0x1A4) 0 0 [];
           sample_node "b" (Z.lor S_IFREG 0x1A4) 0 0 [] ])
      (Some tt) None
    = (-1, w,
       Relabel.with_xattr_idx
         (sample_node "" (Z.lor S_IFDIR 0x1ED) 0 0
            [ sample_node "a" (Z.lor S_IFREG 0x1A4) 0 0 [];
              sample_node "bad" (Z.lor S_IFREG 0x1A4) 0 0 [];
              sample_node "b" (Z.lor S_IFREG 0x1A4) 0 0 [] ]) 0
         [ a'; bad'; sample_node "b" (Z.lor S_IFREG 0x1A4) 0 0 [] ],
       [plain (cstr "out.sqfs: flushing completed key-value pairs")]) /\
    Mkfs.xattr_idx a' = 1.
Proof.
  destruct (relabel_first_failure sample_xattr (cstr "out.sqfs") 0 []
              (sample_node "" (Z.lor S_IFDIR 0x1ED) 0 0
                 [ sample_node "a" (Z.lor S_IFREG 0x1A4) 0 0 [];
                   sample_node "bad" (Z.lor S_IFREG 0x1A4) 0 0 [];
                   sample_node "b" (Z.lor S_IFREG 0x1A4) 0 0 [] ])
              (Some tt) None) as (_ & _ & _ & _ & Hstop).
  specialize (Hstop 1 0 [sample_node "a" (Z.lor S_IFREG 0x1A4) 0 0 []]
                (sample_node "bad" (Z.lor S_IFREG 0x1A4) 0 0 [])
                [sample_node "b" (Z.lor S_IFREG 0x1A4) 0 0 []]
                2 [Relabel.with_xattr_idx
                     (sample_node "a" (Z.lor S_IFREG 0x1A4) 0 0 []) 1 []]
                eq_refl eq_refl eq_refl eq_refl eq_refl).
  eexists _, _, _. split; [exact Hstop | reflexivity].
Defined.

(** ** Device and file lines *)

Section KeywordCallFacts.
Context {F : dir_scan_flags} {U : util_api} {A : fstree_api}.

(** The hook of a keyword. *)
Lemma hook_of_keyword cb kw :
  In cb file_list_hooks -> keyword cb = cstr kw -> cb = hook_named kw.
Proof.
  intros Hin Hkw. cbn [file_list_hooks In] in Hin.
  destruct Hin as [E | [E | [E | [E | [E | [E | [E | [E | []]]]]]]]];
    rewrite <- E in Hkw |- *; cbn [keyword] in Hkw;
    unfold hook_named; rewrite <- Hkw; reflexivity.
Qed.

Lemma fields_extra line f e :
  handle_line_fields line = inr f -> lf_extra f = Some e -> e <> [].
Proof.
  intros H He. unfold handle_line_fields in H.
  destruct (find_hook file_list_hooks line) as [[cb l1]|]; [|discriminate].
  destruct (read_str l1) as [[l2 p0]|]; [|discriminate].
  destruct (canonicalize_name p0) as [path|]; [|discriminate].
  destruct (Ascii.eqb (peek path) zero && negb (allow_root cb)); [discriminate|].
  destruct (mode_field cb l2 0) as [[[l3 mode] gf1]|]; [|discriminate].
  destruct (skip_space l3) as [l4|]; [|discriminate].
  destruct (id_field cb l4 gf1 DIR_SCAN_KEEP_UID) as [[[l5 uid] gf2]|];
    [|discriminate].
  destruct (skip_space l5) as [l6|]; [|discriminate].
  destruct (id_field cb l6 gf2 DIR_SCAN_KEEP_GID) as [[[l7 gid] gf3]|];
    [|discriminate].
  cbv zeta in H.
  destruct (need_extra cb);
    destruct (skip_space l7) as [[|c7 l8]|]; try discriminate;
    inversion H; subst; cbn [lf_extra] in He; inversion He; discriminate.
Qed.

Lemma device_mode_bits m t :
  0 <= m <= 0xFFF -> t = S_IFCHR \/ t = S_IFBLK ->
  Z.land (Z.lor (Z.lor m 0) t) S_IFMT = t /\
  Z.land (Z.lor (Z.lor m 0) t) 0xFFF = m.
Proof.
  intros Hm Ht. rewrite Z.lor_0_r.
  assert (Hlow : Z.land m 0xFFF = m).
  { change 0xFFF with (Z.ones 12). rewrite Z.land_ones by lia.
    apply Z.mod_small. lia. }
  assert (Hhigh : Z.land m S_IFMT = 0).
  { rewrite <- Hlow. rewrite <- Z.land_assoc.
    change (Z.land 0xFFF S_IFMT) with 0. apply Z.land_0_r. }
  rewrite !Z.land_lor_distr_l, Hlow, Hhigh.
  destruct Ht as [-> | ->]; split; (reflexivity || apply Z.lor_0_r).
Qed.

End KeywordCallFacts.

(** X26. A nod line whose extra argument does not scan as a character and
    two numbers fails with the message that asks for them, the tree left
    as it was.  When it scans, the character, which [%c] takes from the
    front of the extra argument, gives the kind of device, in either case:
    [c] or [C] makes a character device, [b] or [B] a block device, and
    any other character is refused as an unknown device type with the tree
    left as it was.  The node is added with the file type bits of that
    kind and the parsed mode as permission bits, with the device number
    [makedev] gives for the two numbers, and with no extra argument. *)
Theorem nod_line_device :
  forall (F : dir_scan_flags) (U : util_api) (A : fstree_api),
    (forall e c maj min, sscanf_c_u_u e = Some (c, maj, min) -> c = peek e) ->
    forall (fs : fstree_t) fn n line bp f e,
      handle_line_fields line = inr f ->
      keyword (lf_cb f) = cstr "nod" ->
      lf_extra f = Some e ->
      let c := peek e in
      let added t maj min :=
        exists sb,
          handle_line fs fn n line bp =
            add_generic fs fn n (lf_path f) sb bp (lf_glob_flags f) None /\
          Z.land (st_mode sb) S_IFMT = t /\
          Z.land (st_mode sb) 0xFFF = lf_mode f /\
          st_rdev sb = makedev maj min /\
          st_uid sb = lf_uid f /\ st_gid sb = lf_gid f in
      (sscanf_c_u_u e = None ->
       handle_line fs fn n line bp =
         Done (-1, fs,
               [located fn n (cstr "expected '<c|b> major minor'")])) /\
      (forall c' maj min,
          sscanf_c_u_u e = Some (c', maj, min) ->
          c' = c /\
          (c = "c"%char \/ c = "C"%char -> added S_IFCHR maj min) /\
          (c = "b"%char \/ c = "B"%char -> added S_IFBLK maj min) /\
          (~ In c ["c"; "C"; "b"; "B"]%char ->
           handle_line fs fn n line bp =
             Done (-1, fs,
                   [located fn n
                      (cstr "unknown device type '" ++ [c] ++ cstr "'")]))).
Proof.
  intros F U A Hfirst fs fn n line bp f e Hf Hkw He c added.
  subst added. cbv beta.
  destruct (fields_hook line f Hf) as (Hin & _ & Hmode & _).
  pose proof (hook_of_keyword _ _ Hin Hkw) as Hcb.
  assert (Hrun : handle_line fs fn n line bp =
                 add_device fs fn n (lf_path f)
                   {| st_mode := Z.lor (lf_mode f) 0; st_uid := lf_uid f;
                      st_gid := lf_gid f; st_mtime := defaults_mtime fs;
                      st_rdev := 0 |} bp (lf_glob_flags f) (Some e)).
  { unfold handle_line. rewrite Hf. cbv zeta. rewrite Hcb, He. reflexivity. }
  rewrite Hrun. unfold add_device. split.
  - intros Hscan. rewrite Hscan. reflexivity.
  - intros c' maj min Hscan.
    assert (Ec : c' = c) by exact (Hfirst e c' maj min Hscan).
    rewrite Hscan. cbv zeta. rewrite Ec.
    cbn [st_mode st_uid st_gid st_mtime]. split; [reflexivity|].
    split; [|split].
    + intros Hc. assert (E : Ascii.eqb c "c" || Ascii.eqb c "C" = true)
        by (destruct Hc as [-> | ->]; reflexivity).
      rewrite E. eexists. split; [reflexivity|].
      cbn [st_mode st_rdev st_uid st_gid].
      destruct (device_mode_bits _ S_IFCHR Hmode (or_introl eq_refl)) as [H1 H2].
      repeat split; assumption.
    + intros Hc. assert (E : Ascii.eqb c "c" || Ascii.eqb c "C" = false)
        by (destruct Hc as [-> | ->]; reflexivity).
      assert (E' : Ascii.eqb c "b" || Ascii.eqb c "B" = true)
        by (destruct Hc as [-> | ->]; reflexivity).
      rewrite E, E'. eexists. split; [reflexivity|].
      cbn [st_mode st_rdev st_uid st_gid].
      destruct (device_mode_bits _ S_IFBLK Hmode (or_intror eq_refl)) as [H1 H2].
      repeat split; assumption.
    + intros Hc. cbn [In] in Hc.
      destruct (Ascii.eqb_spec c "c") as [E | _];
        [symmetry in E; exfalso; tauto|].
      destruct (Ascii.eqb_spec c "C") as [E | _];
        [symmetry in E; exfalso; tauto|].
      destruct (Ascii.eqb_spec c "b") as [E | _];
        [symmetry in E; exfalso; tauto|].
      destruct (Ascii.eqb_spec c "B") as [E | _];
        [symmetry in E; exfalso; tauto|].
      reflexivity.
Qed.

Lemma nod_line_device_witness :
  (exists sb,
      handle_line (F := sample_flags) (U := sample_util) (A := sample_devices)
        [] (cstr "list") 1 (cstr "nod /dev/tty 0620 0 5 C 4 -1") None
      = add_generic (A := sample_devices) [] (cstr "list") 1 (cstr "dev/tty") sb
          None 0 None /\
      Z.land (st_mode sb) S_IFMT = S_IFCHR /\
      Z.land (st_mode sb) 0xFFF = 400 /\
      st_rdev sb = 1024 + 4294967295) /\
  handle_line (F := sample_flags) (U := sample_util) (A := sample_devices)
    [] (cstr "list") 2 (cstr "nod /dev/x 0644 0 0 c 1") None
  = Done (-1, [], [located (cstr "list") 2 (cstr "expected '<c|b> major minor'")]).
Proof.
  assert (Hfirst : forall e c maj min,
             sscanf_c_u_u (fstree_api := sample_devices) e = Some (c, maj, min) ->
             c = peek e).
  { intros [|c0 rest] c maj min H; [discriminate|].
    cbn [sscanf_c_u_u sample_devices sample_sscanf] in H.
    destruct (scan_unsigned rest) as [[maj0 rest1]|]; [|discriminate].
    destruct (scan_unsigned rest1) as [[min0 rest2]|]; [|discriminate].
    inversion H; subst. reflexivity. }
  split.
  - destruct (nod_line_device sample_flags sample_util sample_devices Hfirst
                [] (cstr "list") 1 (cstr "nod /dev/tty 0620 0 5 C 4 -1") None
                {| lf_cb := hook_named "nod"; lf_path := cstr "dev/tty";
                   lf_mode := 400; lf_uid := 0; lf_gid := 5;
                   lf_glob_flags := 0; lf_extra := Some (cstr "C 4 -1") |}
                (cstr "C 4 -1") eq_refl eq_refl eq_refl) as [_ Hscan].
    destruct (Hscan "C"%char 4 4294967295 eq_refl) as (_ & Hc & _ & _).
    destruct (Hc (or_intror eq_refl)) as (sb & H1 & H2 & H3 & H4 & _).
    exists sb. repeat split; assumption.
  - destruct (nod_line_device sample_flags sample_util sample_devices Hfirst
                [] (cstr "list") 2 (cstr "nod /dev/x 0644 0 0 c 1") None
                {| lf_cb := hook_named "nod"; lf_path := cstr "dev/x";
                   lf_mode := 420; lf_uid := 0; lf_gid := 0;
                   lf_glob_flags := 0; lf_extra := Some (cstr "c 1") |}
                (cstr "c 1") eq_refl eq_refl eq_refl) as [Hnone _].
    exact (Hnone eq_refl).
Defined.

(** X27. A file line without an extra argument takes the path of the node,
    as [canonicalize_name] left it, for the input file; with an extra
    argument that is the input file.  The node is added as a regular file
    with the parsed mode as permission bits. *)
Theorem file_line_input :
  forall (F : dir_scan_flags) (U : util_api) (A : fstree_api)
         (fs : fstree_t) fn n line bp f,
    handle_line_fields line = inr f ->
    keyword (lf_cb f) = cstr "file" ->
    exists sb,
      handle_line fs fn n line bp =
        add_generic fs fn n (lf_path f) sb bp (lf_glob_flags f)
          (Some (match lf_extra f with
                 | Some input => input
                 | None => lf_path f
                 end)) /\
      Z.land (st_mode sb) S_IFMT = S_IFREG /\
      Z.land (st_mode sb) 0xFFF = lf_mode f.
Proof.
  intros F U A fs fn n line bp f Hf Hkw.
  destruct (fields_hook line f Hf) as (Hin & _ & Hmode & _).
  pose proof (hook_of_keyword _ _ Hin Hkw) as Hcb.
  destruct (mode_type_bits (lf_mode f) S_IFREG Hmode) as [H1 H2];
    [cbn [In]; tauto|].
  unfold handle_line. rewrite Hf. cbv zeta. rewrite Hcb.
  change (callback (hook_named "file")) with fn_add_file.
  change (cb_mode (hook_named "file")) with S_IFREG.
  cbn [run_callback]. unfold add_file.
  exists {| st_mode := Z.lor (lf_mode f) S_IFREG; st_uid := lf_uid f;
            st_gid := lf_gid f; st_mtime := defaults_mtime fs; st_rdev := 0 |}.
  split; [|split; [exact H1 | exact H2]].
  destruct (lf_extra f) as [[|c e]|] eqn:He; try reflexivity.
  exfalso. exact (fields_extra line f [] Hf He eq_refl).
Qed.

Lemma file_line_input_witness :
  exists sb,
    handle_line (F := sample_flags) (U := sample_util) (A := sample_fstree)
      [] (cstr "list") 1 (cstr "file /bin/sh 0755 0 0") None
    = add_generic (A := sample_fstree) [] (cstr "list") 1 (cstr "bin/sh") sb
        None 0 (Some (cstr "bin/sh")) /\
    Z.land (st_mode sb) S_IFMT = S_IFREG /\
    Z.land (st_mode sb) 0xFFF = 493.
Proof.
  exact (file_line_input sample_flags sample_util sample_fstree
           [] (cstr "list") 1 (cstr "file /bin/sh 0755 0 0") None
           {| lf_cb := hook_named "file"; lf_path := cstr "bin/sh";
              lf_mode := 493; lf_uid := 0; lf_gid := 0;
              lf_glob_flags := 0; lf_extra := None |} eq_refl eq_refl).
Defined.

(** ** Block signatures out of range *)

Section BlockSigWrap.
Import BlockSig.

Lemma MK_BLK_SIG_bits chksum size n :
  0 <= n ->
  Z.testbit (MK_BLK_SIG chksum size) n =
    (n <? 64) &&
    ((32 <=? n) && Z.testbit size (n - 32) || Z.testbit chksum n).
Proof.
  intros Hn. unfold MK_BLK_SIG, u64. rewrite Z.lor_spec.
  destruct (Z.ltb_spec n 64) as [Hlt | Hge].
  - rewrite !Z.mod_pow2_bits_low by lia.
    destruct (Z.leb_spec 32 n) as [Hhi | Hlo].
    + rewrite Z.shiftl_spec by lia.
      rewrite Z.mod_pow2_bits_low by lia. reflexivity.
    + rewrite Z.shiftl_spec_low by lia. reflexivity.
  - rewrite !Z.mod_pow2_bits_high by lia. reflexivity.
Qed.

End BlockSigWrap.

(** X28. [MK_BLK_SIG] keeps 32 bits of the size and does not mask the
    checksum: a size of 2^32 or more is cut to its low 32 bits, so that
    sizes that differ by a multiple of 2^32 give the same signature, and
    the bits of a checksum above the low 32 are or-ed into the size that
    [BLK_SIZE] reads back. *)
Theorem MK_BLK_SIG_wraps :
  forall chksum size,
    BlockSig.BLK_SIZE (BlockSig.MK_BLK_SIG chksum size)
      = Z.lor (size mod 2 ^ 32) (Z.shiftr (u64 chksum) 32) /\
    Z.land (BlockSig.MK_BLK_SIG chksum size) (2 ^ 32 - 1) = chksum mod 2 ^ 32 /\
    (forall k,
        BlockSig.MK_BLK_SIG chksum (size + k * 2 ^ 32)
          = BlockSig.MK_BLK_SIG chksum size).
Proof.
  intros chksum size. split; [|split].
  - unfold BlockSig.BLK_SIZE. apply Z.bits_inj'. intros n Hn.
    rewrite Z.shiftr_spec by lia. rewrite MK_BLK_SIG_bits by lia.
    rewrite Z.lor_spec, Z.shiftr_spec by lia. unfold u64.
    replace (n + 32 - 32) with n by lia.
    destruct (Z.ltb_spec (n + 32) 64) as [Hlt | Hge].
    + rewrite !Z.mod_pow2_bits_low by lia.
      destruct (Z.leb_spec 32 (n + 32)); [reflexivity | lia].
    + rewrite !Z.mod_pow2_bits_high by lia. reflexivity.
  - change (2 ^ 32 - 1) with (Z.ones 32). rewrite Z.land_ones by lia.
    apply Z.bits_inj'. intros n Hn.
    destruct (Z.ltb_spec n 32) as [Hlt | Hge].
    + rewrite !Z.mod_pow2_bits_low by lia. rewrite MK_BLK_SIG_bits by lia.
      destruct (Z.ltb_spec n 64); [|lia].
      destruct (Z.leb_spec 32 n); [lia | reflexivity].
    + rewrite !Z.mod_pow2_bits_high by lia. reflexivity.
  - intros k. apply Z.bits_inj'. intros n Hn.
    rewrite !MK_BLK_SIG_bits by lia.
    destruct (Z.ltb_spec n 64) as [Hlt | Hge]; [|reflexivity].
    destruct (Z.leb_spec 32 n) as [Hhi | Hlo]; [|reflexivity].
    cbn [andb]. f_equal.
    rewrite <- (Z.mod_pow2_bits_low (size + k * 2 ^ 32) 32) by lia.
    rewrite <- (Z.mod_pow2_bits_low size 32 (n - 32)) by lia.
    rewrite Z.mod_add by lia. reflexivity.
Qed.
